(** * NIGCOMSAT regional broadband dashboard ([app.py])

    A shallow embedding of the data pipeline of the dashboard script:
    sample-data generation, the sidebar filter, the four summary metrics,
    the map projection, the per-region aggregation, the raw-data table and
    the CSV export.  Rendering calls (Streamlit widgets, Plotly figures) are
    not part of the model; what is handed to them is.

    Floats are IEEE-754 binary64 values (Rocq's primitive [float]); Python
    integers are [Z]; pandas [int64] columns are [Z] with the wrap-around of
    their sums written out; a DataFrame is the list of its rows, in index
    order.  NumPy's random generator and the system clock are outside the
    repository: they are oracles in the state the script threads, and every
    call to them is recorded in a trace.  What is proved of generated data
    is proved for every oracle whose recorded calls returned values in the
    ranges NumPy documents ([low <= x < high]). *)

From Stdlib Require Import ZArith List Ascii Floats Uint63 Lia Permutation Sorted DecimalString.
From Stdlib Require Import OrdersEx.
From stdpp Require Import gmap strings list.

Local Open Scope Z_scope.

(** ** Python scalars, exceptions and the script monad *)

Module Py.

(** The exceptions the modelled statements can raise. *)
Inductive exn :=
| KeyError (key : string)
| ValueError
| OverflowError.

Inductive outcome (A : Type) :=
| Ok (a : A)
| Raise (e : exn).
Arguments Ok {A} a.
Arguments Raise {A} e.

(** [datetime.datetime]: the proleptic Gregorian ordinal of the day (what
    [toordinal()] returns) and the time of day in microseconds. *)
Record datetime := { ordinal : Z; time_of_day : Z }.

(** One call into NumPy's generator or the clock, with what it returned. *)
Inductive lib_call :=
| Randint (low high result : Z)
| Uniform (low high result : float)
| Now (result : datetime).

(** The world outside the script.  The [n]-th library call reads position [n]
    of the oracle of its kind; [cursor] counts the calls made so far and
    [trace] lists them, most recent first. *)
Record World := {
  integers : nat -> Z;
  reals : nat -> float;
  clock : nat -> datetime;
  cursor : nat;
  trace : list lib_call
}.

Definition M (A : Type) : Type := World -> outcome A * World.

Definition ret {A} (a : A) : M A := fun w => (Ok a, w).

Definition raise {A} (e : exn) : M A := fun w => (Raise e, w).

Definition bind {A B} (m : M A) (k : A -> M B) : M B :=
  fun w =>
    match m w with
    | (Ok a, w') => k a w'
    | (Raise e, w') => (Raise e, w')
    end.

Definition lift {A} (o : outcome A) : M A := fun w => (o, w).

Definition called (c : lib_call) (w : World) : World :=
  {| integers := integers w; reals := reals w; clock := clock w;
     cursor := S (cursor w); trace := c :: trace w |}.

(** [np.random.randint(low, high)] *)
Definition randint (low high : Z) : M Z :=
  fun w => let r := integers w (cursor w) in (Ok r, called (Randint low high r) w).

(** [np.random.uniform(low, high)] *)
Definition uniform (low high : float) : M float :=
  fun w => let r := reals w (cursor w) in (Ok r, called (Uniform low high r) w).

(** [datetime.now()] *)
Definition datetime_now : M datetime :=
  fun w => let r := clock w (cursor w) in (Ok r, called (Now r) w).

(** The documented ranges: [randint] returns an integer of [[low, high)],
    [uniform] a float of [[low, high)]. *)
Definition honours_contract (c : lib_call) : bool :=
  match c with
  | Randint low high r => ((low <=? r) && (r <? high))%Z
  | Uniform low high r => (low <=? r)%float && (r <? high)%float
  | Now _ => true
  end.

Definition contract_kept (w : World) : bool := forallb honours_contract (trace w).

(** Conversion of an integer to the nearest binary64 value (ties to even), as
    NumPy and Python do it. *)
Definition float_of_Z (z : Z) : float := SF2Prim (binary_normalize prec emax z 0 false).

(** Python's own [int -> float] conversion (in [int * float]) raises where the
    result would be infinite. *)
Definition float_of_int (z : Z) : outcome float :=
  match binary_normalize prec emax z 0 false with
  | S754_infinity _ => Raise OverflowError
  | x => Ok (SF2Prim x)
  end.

(** [int(x)] on a float: truncation toward zero. *)
Definition int_of_float (x : float) : outcome Z :=
  match Prim2SF x with
  | S754_zero _ => Ok 0
  | S754_finite s m e => Ok (cond_Zopp s (Z.shiftl (Z.pos m) e))
  | S754_infinity _ => Raise OverflowError
  | S754_nan => Raise ValueError
  end.

(** [x >= y] on floats. *)
Definition float_ge (x y : float) : bool := (y <=? x)%float.

(** [datetime - timedelta(days=d)]: the day moves, the time of day stays.
    (Python raises [OverflowError] when the day leaves the years 1..9999,
    which a reading of today's clock minus a month does not.) *)
Definition minus_days (t : datetime) (d : Z) : datetime :=
  {| ordinal := ordinal t - d; time_of_day := time_of_day t |}.

(** Addition of an [int64] column wraps modulo [2^64]. *)
Definition wrap64 (z : Z) : Z := (z + 2 ^ 63) mod 2 ^ 64 - 2 ^ 63.

Definition int64_sum (l : list Z) : Z := fold_left (fun acc x => wrap64 (acc + x)) l 0.

(** Sequencing a list of computations, left to right. *)
Fixpoint for_each {A B} (f : A -> M B) (l : list A) : M (list B) :=
  match l with
  | [] => ret []
  | x :: l' => bind (f x) (fun y => bind (for_each f l') (fun ys => ret (y :: ys)))
  end.

End Py.

Import Py.

Notation "'do' x <- m ; k" := (bind m (fun x => k))
  (at level 10, x name, m at level 100, k at level 200).

(** ** The data set *)

(** One row of the DataFrame built by [generate_sample_data], with the keys
    of the dictionary the script appends. *)
Record Row := {
  Region : string;
  State : string;
  Population : Z;
  Coverage_Percentage : float;
  Connected_Users : Z;
  Avg_Speed_Mbps : float;
  Latency_ms : float;
  Last_Update : datetime
}.

Abbreviation DataFrame := (list Row).

(** The [regions] dictionary, in insertion order. *)
Definition regions : list (string * list string) :=
  [ ("North Central", ["Benue"; "Kogi"; "Kwara"; "Nasarawa"; "Niger"; "Plateau"; "FCT"]);
    ("North East", ["Adamawa"; "Bauchi"; "Borno"; "Gombe"; "Taraba"; "Yobe"]);
    ("North West", ["Jigawa"; "Kaduna"; "Kano"; "Katsina"; "Kebbi"; "Sokoto"; "Zamfara"]);
    ("South East", ["Abia"; "Anambra"; "Ebonyi"; "Enugu"; "Imo"]);
    ("South South", ["Akwa Ibom"; "Bayelsa"; "Cross River"; "Delta"; "Edo"; "Rivers"]);
    ("South West", ["Ekiti"; "Lagos"; "Ogun"; "Ondo"; "Osun"; "Oyo"]) ].

(** The body of the inner loop: the draws, in the order the script makes
    them, and the dictionary appended to [data]. *)
Definition sample_row (region state : string) : M Row :=
  do population <- randint 500000 8000000;
  do coverage_percentage <- uniform 20 95;
  do population_f <- lift (float_of_int population);
  do connected_users <- lift (int_of_float (population_f * (coverage_percentage / 100)));
  do avg_speed <- uniform 5 50;
  do latency <- uniform 20 150;
  do now <- datetime_now;
  do days <- randint 0 30;
  ret {| Region := region;
         State := state;
         Population := population;
         Coverage_Percentage := coverage_percentage;
         Connected_Users := connected_users;
         Avg_Speed_Mbps := avg_speed;
         Latency_ms := latency;
         Last_Update := minus_days now days |}.

(** [generate_sample_data()]: the two nested loops over [regions.items()]. *)
Definition generate_sample_data : M DataFrame :=
  do per_region <- for_each (fun '(region, states) => for_each (sample_row region) states) regions;
  ret (concat per_region).

(** ** What the libraries do to floats, left open

    The text of a float ([format(x, ".1f")], the shortest-repr text pandas
    writes in a CSV cell), the text of a timestamp cell and NumPy's blocked
    float summation live in Python, NumPy and pandas.  The model takes them
    as an interface; nothing proved below depends on which functions fill
    it. *)
Class Runtime := {
  np_sum : list float -> float;
  format_1f : float -> string;
  csv_float : float -> string;
  csv_datetime : datetime -> string
}.

(** ** Text of integers and dates *)

Module Text.

Definition newline : string := String "010"%char EmptyString.

(** [str(n)] *)
Definition str_int (z : Z) : string := NilZero.string_of_int (Z.to_int z).

Fixpoint group_rev (k : nat) (ds : list ascii) : list ascii :=
  match ds with
  | [] => []
  | d :: ds' =>
      if (k =? 3)%nat then ","%char :: d :: group_rev 1 ds' else d :: group_rev (S k) ds'
  end.

(** [format(n, ",")]: the decimal digits in groups of three. *)
Definition format_grouped (z : Z) : string :=
  (if z <? 0 then "-" else "")
  +:+ String.string_of_list_ascii
        (rev (group_rev 0 (rev (String.list_ascii_of_string (str_int (Z.abs z)))))).

Definition digit_char (d : Z) : ascii := ascii_of_nat (48 + Z.to_nat d).

(** The last [width] decimal digits of [z], the form of a [strftime] field
    of fixed width (the year in four digits, month and day in two). *)
Fixpoint fixed_digits (width : nat) (z : Z) : string :=
  match width with
  | O => ""
  | S width' => fixed_digits width' (z / 10) +:+ String (digit_char (z mod 10)) ""
  end.

Definition DAYS_IN_MONTH : list Z := [-1; 31; 28; 31; 30; 31; 30; 31; 31; 30; 31; 30; 31].
Definition DAYS_BEFORE_MONTH : list Z := [-1; 0; 31; 59; 90; 120; 151; 181; 212; 243; 273; 304; 334].

(** [datetime._ord2ymd]: year, month and day of a proleptic Gregorian
    ordinal. *)
Definition ord2ymd (n : Z) : Z * Z * Z :=
  let n := n - 1 in
  let n400 := n / 146097 in
  let n := n mod 146097 in
  let year := n400 * 400 + 1 in
  let n100 := n / 36524 in
  let n := n mod 36524 in
  let n4 := n / 1461 in
  let n := n mod 1461 in
  let n1 := n / 365 in
  let n := n mod 365 in
  let year := year + n100 * 100 + n4 * 4 + n1 in
  if (n1 =? 4) || (n100 =? 4) then (year - 1, 12, 31)
  else
    let leapyear := (n1 =? 3) && (negb (n4 =? 24) || (n100 =? 3)) in
    let month := Z.shiftr (n + 50) 5 in
    let preceding :=
      nth (Z.to_nat month) DAYS_BEFORE_MONTH 0 + (if (month >? 2) && leapyear then 1 else 0) in
    if preceding >? n then
      let month := month - 1 in
      let preceding :=
        preceding
        - (nth (Z.to_nat month) DAYS_IN_MONTH 0 + (if (month =? 2) && leapyear then 1 else 0)) in
      (year, month, n - preceding + 1)
    else (year, month, n - preceding + 1).

(** [%Y] as the C library's [strftime] writes it: the decimal digits of the
    year without padding, so fewer than four for a year below 1000. *)
Definition year_digits (year : Z) : string :=
  if year <? 10 then fixed_digits 1 year
  else if year <? 100 then fixed_digits 2 year
  else if year <? 1000 then fixed_digits 3 year
  else fixed_digits 4 year.

(** [t.strftime('%Y%m%d')] *)
Definition strftime_Ymd (t : datetime) : string :=
  let '(year, month, day) := ord2ymd (ordinal t) in
  year_digits year +:+ fixed_digits 2 month +:+ fixed_digits 2 day.

End Text.

(** ** Sidebar filter *)

(** Lines 108-113: the copy of [df], the region mask unless "All Regions" is
    selected, then the coverage mask.  The slider hands over an integer; the
    comparison with the float column is made in binary64. *)
Definition filter_records (df : DataFrame) (selected_region : string) (coverage_threshold : Z)
  : DataFrame :=
  let filtered_df := df in
  let filtered_df :=
    if decide (selected_region <> "All Regions")
    then filter (fun r => Region r = selected_region) filtered_df
    else filtered_df in
  filter (fun r => float_ge (Coverage_Percentage r) (float_of_Z coverage_threshold) = true)
         filtered_df.

(** ** Key metrics *)

Section Metrics.
Context `{Runtime}.

(** [Series.mean()] of a float column: the missing values are skipped, and a
    column without a value has mean [nan]. *)
Definition series_mean (values : list float) : float :=
  let count := length (filter (fun x => is_nan x = false) values) in
  let the_sum := np_sum (map (fun x => if is_nan x then 0%float else x) values) in
  if (0 <? count)%nat then (the_sum / float_of_Z (Z.of_nat count))%float else nan.

Definition total_coverage (filtered_df : DataFrame) : float :=
  series_mean (map Coverage_Percentage filtered_df).

Definition total_users (filtered_df : DataFrame) : Z :=
  int64_sum (map Connected_Users filtered_df).

Definition avg_speed (filtered_df : DataFrame) : float :=
  series_mean (map Avg_Speed_Mbps filtered_df).

Definition avg_latency (filtered_df : DataFrame) : float :=
  series_mean (map Latency_ms filtered_df).

(** The number each [delta=] f-string formats. *)
Definition coverage_delta (df filtered_df : DataFrame) : float :=
  (total_coverage filtered_df - series_mean (map Coverage_Percentage df))%float.

Definition users_delta (filtered_df : DataFrame) : float :=
  (float_of_Z (total_users filtered_df) / float_of_Z 1000000)%float.

Definition speed_delta (df filtered_df : DataFrame) : float :=
  (avg_speed filtered_df - series_mean (map Avg_Speed_Mbps df))%float.

Definition latency_delta (df filtered_df : DataFrame) : float :=
  (avg_latency filtered_df - series_mean (map Latency_ms df))%float.

(** The arguments of one [st.metric] call. *)
Record metric := {
  label : string;
  value : string;
  delta : string;
  delta_color : string
}.

(** Lines 116-150: the four cards, left to right. *)
Definition key_metrics (df filtered_df : DataFrame) : list metric :=
  [ {| label := "Average Coverage";
       value := format_1f (total_coverage filtered_df) +:+ "%";
       delta := format_1f (coverage_delta df filtered_df) +:+ "%";
       delta_color := "normal" |};
    {| label := "Total Connected Users";
       value := Text.format_grouped (total_users filtered_df);
       delta := format_1f (users_delta filtered_df) +:+ "M";
       delta_color := "normal" |};
    {| label := "Average Speed";
       value := format_1f (avg_speed filtered_df) +:+ " Mbps";
       delta := format_1f (speed_delta df filtered_df) +:+ " Mbps";
       delta_color := "normal" |};
    {| label := "Average Latency";
       value := format_1f (avg_latency filtered_df) +:+ " ms";
       delta := format_1f (latency_delta df filtered_df) +:+ " ms";
       delta_color := "inverse" |} ].

End Metrics.


(** ** Coverage map (tab 1) *)

(** One value of the [nigeria_coords] dictionary. *)
Record coords := { lat : float; lon : float }.

Definition nigeria_coords : gmap string coords :=
  list_to_map
    [ ("North Central", {| lat := 8.5; lon := 8.0 |});
      ("North East", {| lat := 10.5; lon := 12.5 |});
      ("North West", {| lat := 12.0; lon := 8.0 |});
      ("South East", {| lat := 5.5; lon := 7.5 |});
      ("South South", {| lat := 5.0; lon := 6.0 |});
      ("South West", {| lat := 7.0; lon := 4.0 |}) ].

(** [d[x]] on a dictionary *)
Definition getitem {V} (d : gmap string V) (x : string) : M V :=
  match d !! x with
  | Some v => ret v
  | None => raise (KeyError x)
  end.

(** The two lambdas handed to [Series.map]: the dictionary is read first,
    the jitter is drawn next. *)
Definition jitter_lat (x : string) : M float :=
  do c <- getitem nigeria_coords x;
  do j <- uniform (-1) 1;
  ret (lat c + j)%float.

Definition jitter_lon (x : string) : M float :=
  do c <- getitem nigeria_coords x;
  do j <- uniform (-1) 1;
  ret (lon c + j)%float.

(** DataFrame objects live in a store and variables hold references to
    them.  An object is its rows and the float columns assigned to it after
    its creation, by name, in column order. *)
Record Frame := { rows : list Row; assigned : list (string * list float) }.

Definition ref : Type := nat.

Abbreviation Store := (gmap ref Frame).

Definition frame_at (s : Store) (r : ref) : Frame :=
  default {| rows := []; assigned := [] |} (s !! r).

(** [frame.copy()]: a new object with the same content. *)
Definition copy (r : ref) (s : Store) : Store * ref :=
  let r' := fresh (dom s) in
  (<[r' := frame_at s r]> s, r').

Fixpoint set_column (name : string) (values : list float) (cols : list (string * list float))
  : list (string * list float) :=
  match cols with
  | [] => [(name, values)]
  | (n, v) :: cols' =>
      if decide (n = name) then (n, values) :: cols' else (n, v) :: set_column name values cols'
  end.

(** [frame[name] = values]: the object the reference points to is changed in
    place. *)
Definition setitem (r : ref) (name : string) (values : list float) (s : Store) : Store :=
  alter (fun f => {| rows := rows f; assigned := set_column name values (assigned f) |}) r s.

(** Lines 171-173. *)
Definition coverage_map (filtered_df : ref) (s : Store) : M (Store * ref) :=
  let '(s, map_df) := copy filtered_df s in
  do lats <- for_each jitter_lat (map Region (rows (frame_at s map_df)));
  let s := setitem map_df "lat" lats s in
  do lons <- for_each jitter_lon (map Region (rows (frame_at s map_df)));
  let s := setitem map_df "lon" lons s in
  ret (s, map_df).

(** ** Regional analysis (tab 2) *)

Fixpoint insert_key (k : string) (ks : list string) : list string :=
  match ks with
  | [] => [k]
  | k' :: ks' =>
      match String_as_OT.compare k k' with
      | Lt => k :: ks
      | Eq => ks
      | Gt => k' :: insert_key k ks'
      end
  end.

(** The keys of [groupby('Region')]: the values present, each once, in
    ascending order. *)
Definition group_keys (df : DataFrame) : list string :=
  foldr insert_key [] (map Region df).

Definition groupby_Region (df : DataFrame) : list (string * DataFrame) :=
  map (fun k => (k, filter (fun r => Region r = k) df)) (group_keys df).

(** One row of [regional_avg]. *)
Record region_stats := {
  stats_Region : string;
  stats_Coverage_Percentage : float;
  stats_Connected_Users : Z;
  stats_State : Z
}.

(** Lines 211-215: [groupby('Region').agg({mean, sum, count}).reset_index()] *)
Definition regional_avg `{Runtime} (filtered_df : DataFrame) : list region_stats :=
  map (fun '(k, g) =>
         {| stats_Region := k;
            stats_Coverage_Percentage := series_mean (map Coverage_Percentage g);
            stats_Connected_Users := int64_sum (map Connected_Users g);
            stats_State := Z.of_nat (length g) |})
      (groupby_Region filtered_df).

(** Line 232: [groupby('Region')['Connected_Users'].sum().reset_index()] *)
Definition regional_users (filtered_df : DataFrame) : list (string * Z) :=
  map (fun '(k, g) => (k, int64_sum (map Connected_Users g))) (groupby_Region filtered_df).

(** ** Raw data (tab 4) *)

(** The seven columns selected for the table. *)
Record display_row := {
  d_Region : string;
  d_State : string;
  d_Coverage_Percentage : float;
  d_Connected_Users : Z;
  d_Avg_Speed_Mbps : float;
  d_Latency_ms : float;
  d_Last_Update : datetime
}.

Definition display_columns (r : Row) : display_row :=
  {| d_Region := Region r;
     d_State := State r;
     d_Coverage_Percentage := Coverage_Percentage r;
     d_Connected_Users := Connected_Users r;
     d_Avg_Speed_Mbps := Avg_Speed_Mbps r;
     d_Latency_ms := Latency_ms r;
     d_Last_Update := Last_Update r |}.

Section SortValues.
Context {A : Type} (key : A -> float).

Fixpoint insert_ascending (x : A) (l : list A) : list A :=
  match l with
  | [] => [x]
  | y :: l' => if (key x <=? key y)%float then x :: l else y :: insert_ascending x l'
  end.

(** An ascending sort of rows whose key is not [nan].  (pandas sorts with
    NumPy's quicksort by default, which leaves the order of equal keys open;
    this one keeps it.) *)
Definition sort_ascending (l : list A) : list A := foldr insert_ascending [] l.

(** [sort_values(by, ascending=False)], as pandas' [nargsort] does it: the
    rows without a key are set apart and come last; the others are reversed,
    sorted in ascending order and reversed again. *)
Definition sort_values_descending (l : list A) : list A :=
  let non_nans := filter (fun x => is_nan (key x) = false) l in
  let nans := filter (fun x => is_nan (key x) = true) l in
  rev (sort_ascending (rev non_nans)) ++ nans.

End SortValues.

(** Lines 277-283: what [st.dataframe] is given. *)
Definition raw_data_view (filtered_df : DataFrame) : list display_row :=
  sort_values_descending d_Coverage_Percentage (map display_columns filtered_df).

(** ** CSV export *)

Module Csv.

Definition quotechar : ascii := ascii_of_nat 34.

Definition special (c : ascii) : bool :=
  Ascii.eqb c ","%char || Ascii.eqb c quotechar
  || Ascii.eqb c "010"%char || Ascii.eqb c "013"%char.

Fixpoint double_quotes (s : string) : string :=
  match s with
  | EmptyString => EmptyString
  | String c s' =>
      if Ascii.eqb c quotechar then String c (String c (double_quotes s'))
      else String c (double_quotes s')
  end.

(** The [csv] module's minimal quoting of one field. *)
Definition quote_field (s : string) : string :=
  if existsb special (String.list_ascii_of_string s)
  then String quotechar (double_quotes s) +:+ String quotechar EmptyString
  else s.

(** [filtered_df.columns]: the keys of the dictionaries, in their order. *)
Definition columns : list string :=
  [ "Region"; "State"; "Population"; "Coverage_Percentage"; "Connected_Users";
    "Avg_Speed_Mbps"; "Latency_ms"; "Last_Update" ].

Definition cells `{Runtime} (r : Row) : list string :=
  [ Region r; State r; Text.str_int (Population r); csv_float (Coverage_Percentage r);
    Text.str_int (Connected_Users r); csv_float (Avg_Speed_Mbps r); csv_float (Latency_ms r);
    csv_datetime (Last_Update r) ].

(** One line of the document; the line terminator is that of a POSIX
    system. *)
Definition line (fields : list string) : string :=
  String.concat "," (map quote_field fields) +:+ Text.newline.

(** The lines of the document: the header, then one line per row. *)
Definition csv_lines `{Runtime} (df : DataFrame) : list string :=
  line columns :: map (fun r => line (cells r)) df.

(** [filtered_df.to_csv(index=False)] *)
Definition to_csv `{Runtime} (df : DataFrame) : string :=
  String.concat "" (csv_lines df).

(** The [file_name=] f-string of the download button. *)
Definition file_name (now : datetime) : string :=
  "nigcomsat_coverage_" +:+ Text.strftime_Ymd now +:+ ".csv".

End Csv.

(** ** Sidebar widgets *)

(** [Series.unique()]: the values of a column, each once, in order of first
    appearance. *)
Fixpoint unique_from (seen values : list string) : list string :=
  match values with
  | [] => []
  | x :: values' =>
      if decide (x ∈ seen) then unique_from seen values'
      else x :: unique_from (x :: seen) values'
  end.

Definition unique (values : list string) : list string := unique_from [] values.

(** Lines 89-92: the options of the region select box. *)
Definition region_options (df : DataFrame) : list string :=
  "All Regions" :: unique (map Region df).

(** Lines 95-100: the bounds and the start value of the coverage slider. *)
Record slider := { min_value : Z; max_value : Z; start_value : Z }.

Definition coverage_slider : slider := {| min_value := 0; max_value := 100; start_value := 0 |}.

(** [a <= b] on [datetime] values. *)
Definition datetime_leb (a b : datetime) : bool :=
  (ordinal a <? ordinal b) || ((ordinal a =? ordinal b) && (time_of_day a <=? time_of_day b)).

(** [Series.max()] of a datetime column: [None] is [NaT], the maximum of a
    column without a value. *)
Definition series_max (values : list datetime) : option datetime :=
  match values with
  | [] => None
  | t :: values' =>
      Some (fold_left (fun acc x => if datetime_leb acc x then x else acc) values' t)
  end.

(** [t.strftime('%Y-%m-%d %H:%M')] *)
Definition strftime_YmdHM (t : datetime) : string :=
  let '(year, month, day) := Text.ord2ymd (ordinal t) in
  let hour := time_of_day t / 3600000000 in
  let minute := time_of_day t / 60000000 mod 60 in
  Text.year_digits year +:+ "-" +:+ Text.fixed_digits 2 month +:+ "-"
  +:+ Text.fixed_digits 2 day +:+ " " +:+ Text.fixed_digits 2 hour +:+ ":"
  +:+ Text.fixed_digits 2 minute.

(** Line 105. *)
Definition latest_update (df : DataFrame) : option datetime :=
  series_max (map Last_Update df).

(** Line 106: the text of the sidebar box.  [NaT.strftime] raises
    [ValueError]. *)
Definition sidebar_info (df : DataFrame) : outcome string :=
  match latest_update df with
  | Some t => Ok ("🕒 " +:+ strftime_YmdHM t)
  | None => Raise ValueError
  end.

(** ** Footer *)

(** Lines 296-302: the markup of the footer. *)
Definition footer (now : datetime) : string :=
  "<div style='text-align: center; color: #666;'>"
  +:+ "📡 NIGCOMSAT Broadband Monitoring System | "
  +:+ "Last Updated: " +:+ strftime_YmdHM now
  +:+ "</div>".

(** ** Specification vocabulary *)

(** Dyadic numbers [m * 2^e] are compared after scaling by [2^L], which
    makes every exponent met in the proofs non-negative. *)
Definition L : Z := 1200.

Definition sval (m e : Z) : Z := m * 2 ^ (e + L).

(** The trace of [w'] is the trace of [w] with further calls. *)
Definition trace_extends (w w' : World) : Prop := exists calls, trace w' = calls ++ trace w.

(** The ranges of the data model, on one row. *)
Definition row_invariant (r : Row) : Prop :=
  500000 <= Population r < 8000000 /\
  0 <= Connected_Users r <= Population r /\
  (20 <=? Coverage_Percentage r)%float = true /\ (Coverage_Percentage r <? 95)%float = true /\
  (5 <=? Avg_Speed_Mbps r)%float = true /\ (Avg_Speed_Mbps r <? 50)%float = true /\
  (20 <=? Latency_ms r)%float = true /\ (Latency_ms r <? 150)%float = true.

(** The condition a row has to meet to pass the two masks of the filter. *)
Definition passes (selected_region : string) (coverage_threshold : Z) (r : Row) : Prop :=
  float_ge (Coverage_Percentage r) (float_of_Z coverage_threshold) = true /\
  (selected_region = "All Regions" \/ Region r = selected_region).

#[global] Instance passes_dec selected_region coverage_threshold r :
  Decision (passes selected_region coverage_threshold r).
Proof. unfold passes. apply _. Defined.

(** The sum of a list of integers, without wrap-around. *)
Definition sumZ (l : list Z) : Z := foldr Z.add 0 l.

(** The world after [n] more calls of [uniform(low, high)]. *)
Fixpoint after_uniforms (low high : float) (n : nat) (w : World) : World :=
  match n with
  | O => w
  | S n' => after_uniforms low high n' (called (Uniform low high (reals w (cursor w))) w)
  end.

(** Two consecutive rows of a table in descending order of coverage, the rows
    without a coverage value last. *)
Definition coverage_descending (a b : display_row) : Prop :=
  is_nan (d_Coverage_Percentage b) = true \/
  (d_Coverage_Percentage b <=? d_Coverage_Percentage a)%float = true.

(** A text made of decimal digits only. *)
Definition is_digit (c : ascii) : bool :=
  (48 <=? nat_of_ascii c)%nat && (nat_of_ascii c <=? 57)%nat.

Definition all_digits (s : string) : bool := forallb is_digit (String.list_ascii_of_string s).

(** The number a text of decimal digits denotes. *)
Definition decimal_value (s : string) : Z :=
  fold_left (fun acc c => 10 * acc + (Z.of_nat (nat_of_ascii c) - 48))
            (String.list_ascii_of_string s) 0.

(** The last day [datetime] can hold, 9999-12-31, as an ordinal. *)
Definition MAXORDINAL : Z := 3652059.

(** The ordinal of 1000-01-01, the first day of a year of four digits. *)
Definition ORDINAL_1000 : Z := 364878.

(** Table row [d] shows the seven display columns of row [r], as they are. *)
Definition shows (d : display_row) (r : Row) : Prop :=
  d_Region d = Region r /\ d_State d = State r /\
  d_Coverage_Percentage d = Coverage_Percentage r /\
  d_Connected_Users d = Connected_Users r /\
  d_Avg_Speed_Mbps d = Avg_Speed_Mbps r /\
  d_Latency_ms d = Latency_ms r /\
  d_Last_Update d = Last_Update r.

(** The (region, state) pairs of the [regions] table, in iteration order. *)
Definition region_state_pairs : list (string * string) :=
  flat_map (fun '(region, states) => map (pair region) states) regions.

(** ** Sample inputs *)

(** A random source and clock that keep to the documented ranges while the
    data set is generated. *)
Definition example_world : World :=
  {| integers := fun k => if (k mod 6 =? 0)%nat then 500000 + 1000 * Z.of_nat k
                          else Z.of_nat (k mod 30);
     reals := fun k => match (k mod 6)%nat with
                       | 1%nat => (20 + 0.25 * float_of_Z (Z.of_nat k))%float
                       | 2%nat => (5 + float_of_Z (Z.of_nat (k mod 40)))%float
                       | _ => (20 + float_of_Z (Z.of_nat (k mod 100)))%float
                       end;
     clock := fun k => {| ordinal := 739000; time_of_day := 1000000 * Z.of_nat k |};
     cursor := 0;
     trace := [] |}.

Definition example_date : datetime := {| ordinal := 738945; time_of_day := 0 |}.

Definition lagos : Row :=
  {| Region := "South West"; State := "Lagos"; Population := 6000000;
     Coverage_Percentage := 75; Connected_Users := 4500000;
     Avg_Speed_Mbps := 42.25; Latency_ms := 30.5; Last_Update := example_date |}.

Definition kano : Row :=
  {| Region := "North West"; State := "Kano"; Population := 4000000;
     Coverage_Percentage := 40.5; Connected_Users := 1620000;
     Avg_Speed_Mbps := 12.5; Latency_ms := 90.25; Last_Update := example_date |}.

Definition oyo : Row :=
  {| Region := "South West"; State := "Oyo"; Population := 2000000;
     Coverage_Percentage := 50; Connected_Users := 1000000;
     Avg_Speed_Mbps := 20.75; Latency_ms := 60.5; Last_Update := example_date |}.

Definition example_df : DataFrame := [lagos; kano; oyo].

(** A runtime to run the examples with: summation from left to right and
    placeholder texts. *)
Definition example_runtime : Runtime :=
  {| np_sum := fun l => fold_left PrimFloat.add l 0%float;
     format_1f := fun x => if is_nan x then "nan" else "#.#";
     csv_float := fun _ => "#.#";
     csv_datetime := fun _ => "####-##-##" |}.

(** A store with the data set and a filtered frame, and a random source
    whose draws lie in [[-1, 1)]. *)
Definition example_store : gmap ref Frame :=
  {[ 0%nat := {| rows := example_df; assigned := [] |};
     1%nat := {| rows := [lagos; oyo]; assigned := [] |} ]}.

Definition jitter_world : World :=
  {| integers := fun _ => 0;
     reals := fun k => (float_of_Z (Z.of_nat (k mod 8)) / 4 - 1)%float;
     clock := fun _ => example_date;
     cursor := 0;
     trace := [] |}.

(** ** Further vocabulary *)

(** The first row of a column that holds [x] is the one at index [p]. *)
Definition first_at (p : nat) (x : string) (values : list string) : Prop :=
  values !! p = Some x /\ forall k, (k < p)%nat -> values !! k <> Some x.

(** The random source and the clock of [w'] are those of [w]: only the
    cursor and the trace have moved. *)
Definition same_oracles (w w' : World) : Prop :=
  integers w' = integers w /\ reals w' = reals w /\ clock w' = clock w.

(** Row [r] is what the loop body builds for [region] and [state] from the
    six library calls numbered [n] to [n + 5]. *)
Definition row_drawn (w : World) (n : nat) (region state : string) (r : Row) : Prop :=
  Region r = region /\ State r = state /\
  Population r = integers w n /\
  Coverage_Percentage r = reals w (n + 1) /\
  (exists population_f,
     float_of_int (Population r) = Ok population_f /\
     int_of_float (population_f * (Coverage_Percentage r / 100)) = Ok (Connected_Users r)) /\
  Avg_Speed_Mbps r = reals w (n + 2) /\
  Latency_ms r = reals w (n + 3) /\
  Last_Update r = minus_days (clock w (n + 4)) (integers w (n + 5)).

(** ** Further sample inputs *)

(** A row whose region has no entry in [nigeria_coords], and a store with a
    frame that holds it between two rows that have one. *)
Definition abuja : Row :=
  {| Region := "Federal Capital Territory"; State := "FCT"; Population := 3000000;
     Coverage_Percentage := 80; Connected_Users := 2400000;
     Avg_Speed_Mbps := 35.5; Latency_ms := 25.25; Last_Update := example_date |}.

Definition stray_store : gmap ref Frame :=
  {[ 0%nat := {| rows := [lagos; abuja; oyo]; assigned := [] |} ]}.

(** A clock that does not run backwards. *)
Definition clock_nondecreasing (w : World) : Prop :=
  forall i j, (i <= j)%nat -> datetime_leb (clock w i) (clock w j) = true.

(** [lo] is exactly one below [c] and [hi] exactly one above it, all three
    positive. *)
Definition one_around (c lo hi : float) : bool :=
  match Prim2SF c, Prim2SF lo, Prim2SF hi with
  | S754_finite false mc ec, S754_finite false mlo elo, S754_finite false mhi ehi =>
      (sval (Z.pos mlo) elo + sval 1 0 =? sval (Z.pos mc) ec)
      && (sval (Z.pos mc) ec + sval 1 0 =? sval (Z.pos mhi) ehi)
      && (ec <=? ehi)
  | _, _, _ => false
  end.

(** A centroid whose neighbourhood of one degree is computed exactly and lies
    between the parallels 4 and 13 and the meridians 3 and 13.5. *)
Definition centroid_in_box (c : coords) : bool :=
  one_around (lat c) (lat c - 1) (lat c + 1) && one_around (lon c) (lon c - 1) (lon c + 1)
  && (4 <=? lat c - 1)%float && (lat c + 1 <=? 13)%float
  && (3 <=? lon c - 1)%float && (lon c + 1 <=? 13.5)%float.

(** * Proofs *)

(** ** Binary64 arithmetic *)

Module FloatFacts.

Lemma digits2_pos_bounds (p : positive) :
  2 ^ (Z.pos (digits2_pos p) - 1) <= Z.pos p < 2 ^ Z.pos (digits2_pos p).
Proof.
  induction p as [p IH|p IH|]; cbn [digits2_pos].
  - rewrite Pos2Z.inj_succ.
    replace (Z.succ (Z.pos (digits2_pos p)) - 1) with (Z.succ (Z.pos (digits2_pos p) - 1)) by lia.
    rewrite !Z.pow_succ_r by lia. lia.
  - rewrite Pos2Z.inj_succ.
    replace (Z.succ (Z.pos (digits2_pos p)) - 1) with (Z.succ (Z.pos (digits2_pos p) - 1)) by lia.
    rewrite !Z.pow_succ_r by lia. lia.
  - simpl. lia.
Qed.

Lemma Zdigits2_le (m k : Z) : 0 <= m -> 0 <= k -> m < 2 ^ k -> Zdigits2 m <= k.
Proof.
  intros Hm Hk Hlt. destruct m as [|p|p]; simpl; [lia| |lia].
  pose proof (digits2_pos_bounds p) as [Hlo _].
  destruct (Z_le_gt_dec (Z.pos (digits2_pos p)) k) as [|Hgt]; [done|].
  assert (2 ^ k <= 2 ^ (Z.pos (digits2_pos p) - 1)) by (apply Z.pow_le_mono_r; lia).
  lia.
Qed.

Lemma shr_1_m mrs : shr_m (shr_1 mrs) = Z.div2 (shr_m mrs) \/ shr_m mrs < 0.
Proof. destruct mrs as [[|[p|p|]|p] r s]; simpl; auto; lia. Qed.

Lemma shr_1_div mrs : 0 <= shr_m mrs -> shr_m (shr_1 mrs) = shr_m mrs / 2.
Proof.
  intros H. destruct (shr_1_m mrs) as [->|]; [|lia]. apply Z.div2_div.
Qed.

Lemma div_pow2_pow2 m a b : 0 <= a -> 0 <= b -> m / 2 ^ a / 2 ^ b = m / 2 ^ (a + b).
Proof.
  intros Ha Hb.
  assert (0 < 2 ^ a) by (apply Z.pow_pos_nonneg; lia).
  assert (0 < 2 ^ b) by (apply Z.pow_pos_nonneg; lia).
  rewrite Z.div_div by lia. now rewrite Z.pow_add_r.
Qed.

Lemma div_pow2_nonneg m a : 0 <= m -> 0 <= m / 2 ^ a.
Proof.
  intros Hm. destruct (Z_lt_le_dec a 0).
  - rewrite Z.pow_neg_r by done. now rewrite Z.div_0_r.
  - apply Z.div_pos; [done|]. apply Z.pow_pos_nonneg; lia.
Qed.

Lemma iter_shr_1_div p : forall mrs, 0 <= shr_m mrs ->
  shr_m (SpecFloat.iter_pos shr_1 p mrs) = shr_m mrs / 2 ^ Z.pos p.
Proof.
  induction p as [p IH|p IH|]; intros mrs Hm; cbn [SpecFloat.iter_pos].
  - assert (0 <= shr_m (shr_1 mrs)) by (rewrite shr_1_div by done; apply (div_pow2_nonneg _ 1); done).
    assert (0 <= shr_m (SpecFloat.iter_pos shr_1 p (shr_1 mrs)))
      by (rewrite IH by done; now apply div_pow2_nonneg).
    rewrite !IH, shr_1_div by done.
    change (shr_m mrs / 2) with (shr_m mrs / 2 ^ 1).
    rewrite !div_pow2_pow2 by lia. f_equal. f_equal. lia.
  - assert (0 <= shr_m (SpecFloat.iter_pos shr_1 p mrs))
      by (rewrite IH by done; now apply div_pow2_nonneg).
    rewrite !IH by done.
    rewrite !div_pow2_pow2 by lia. f_equal. f_equal. lia.
  - rewrite shr_1_div by done. reflexivity.
Qed.

(** [shr] only ever divides the mantissa by the power of two it adds to the
    exponent. *)
Lemma shr_spec mrs e n : 0 <= shr_m mrs ->
  let '(mrs', e') := shr mrs e n in
  e' = e + Z.max 0 n /\ shr_m mrs' = shr_m mrs / 2 ^ Z.max 0 n.
Proof.
  intros Hm. destruct n as [|p|p]; simpl.
  - rewrite Z.div_1_r. lia.
  - rewrite iter_shr_1_div by done. split; [lia|done].
  - rewrite Z.div_1_r. lia.
Qed.

Lemma shr_record_of_loc_m m l : shr_m (shr_record_of_loc m l) = m.
Proof. destruct l as [|[]]; reflexivity. Qed.

Lemma round_nearest_even_bounds m l : m <= round_nearest_even m l <= m + 1.
Proof. destruct l as [|[]]; simpl; try lia. destruct (Z.even m); lia. Qed.


Lemma pow2_pos k : 0 <= k -> 0 < 2 ^ k.
Proof. intros. apply Z.pow_pos_nonneg; lia. Qed.

Lemma sval_split m e e' : - L <= e <= e' -> sval m e' = m * 2 ^ (e' - e) * 2 ^ (e + L).
Proof.
  intros He. unfold sval. rewrite <- Z.mul_assoc, <- Z.pow_add_r by lia.
  do 2 f_equal. lia.
Qed.

(** Scaled comparison of two dyadic numbers, pushed to a common exponent. *)
Lemma sval_lt_inv m e K E : - L <= e <= E -> sval m e < sval K E -> m < K * 2 ^ (E - e).
Proof.
  intros He H. rewrite (sval_split K e E) in H by lia. unfold sval in H.
  pose proof (pow2_pos (e + L) ltac:(lia)). nia.
Qed.

Lemma sval_le_inv m e K E : - L <= e <= E -> sval m e <= sval K E -> m <= K * 2 ^ (E - e).
Proof.
  intros He H. rewrite (sval_split K e E) in H by lia. unfold sval in H.
  pose proof (pow2_pos (e + L) ltac:(lia)). nia.
Qed.

Lemma sval_le_intro m e K E : - L <= e <= E -> m <= K * 2 ^ (E - e) -> sval m e <= sval K E.
Proof.
  intros He H. rewrite (sval_split K e E) by lia. unfold sval.
  pose proof (pow2_pos (e + L) ltac:(lia)). nia.
Qed.

Lemma sval_lt_intro m e K E : - L <= e <= E -> m < K * 2 ^ (E - e) -> sval m e < sval K E.
Proof.
  intros He H. rewrite (sval_split K e E) by lia. unfold sval.
  pose proof (pow2_pos (e + L) ltac:(lia)). nia.
Qed.

Lemma shift_round_up m e e' K E :
  0 <= m -> - L <= e <= e' -> e' <= E ->
  sval m e < sval K E -> sval (m / 2 ^ (e' - e) + 1) e' <= sval K E.
Proof.
  intros Hm He He' H. apply sval_lt_inv in H; [|lia].
  apply sval_le_intro; [lia|].
  replace (E - e) with ((E - e') + (e' - e)) in H by lia.
  rewrite Z.pow_add_r in H by lia.
  pose proof (pow2_pos (e' - e) ltac:(lia)).
  assert (m / 2 ^ (e' - e) < K * 2 ^ (E - e')); [|lia].
  apply Z.div_lt_upper_bound; [done|]. lia.
Qed.

Lemma shift_round_down m e e' K E :
  0 <= m -> - L <= e <= e' -> e' <= E ->
  sval m e <= sval K E -> sval (m / 2 ^ (e' - e)) e' <= sval K E.
Proof.
  intros Hm He He' H. apply sval_le_inv in H; [|lia].
  apply sval_le_intro; [lia|].
  replace (E - e) with ((E - e') + (e' - e)) in H by lia.
  rewrite Z.pow_add_r in H by lia.
  pose proof (pow2_pos (e' - e) ltac:(lia)).
  pose proof (pow2_pos (E - e') ltac:(lia)).
  destruct (Z_le_gt_dec (m / 2 ^ (e' - e)) (K * 2 ^ (E - e'))) as [|Hgt]; [done|].
  pose proof (Z.mul_div_le m (2 ^ (e' - e)) ltac:(done)). nia.
Qed.

Lemma fexp_upper m e K E :
  0 <= m -> - L <= e <= E -> SpecFloat.emin prec emax <= E -> 0 < K < 2 ^ prec ->
  sval m e <= sval K E -> fexp prec emax (Zdigits2 m + e) <= E.
Proof.
  intros Hm He HE HK H. apply sval_le_inv in H; [|lia].
  pose proof (pow2_pos (E - e) ltac:(lia)).
  assert (m < 2 ^ (prec + (E - e))).
  { rewrite Z.pow_add_r by (unfold prec; lia). nia. }
  pose proof (Zdigits2_le m (prec + (E - e)) Hm ltac:(unfold prec; lia) ltac:(done)).
  unfold fexp. lia.
Qed.

Lemma shr_fexp_spec m e l : 0 <= m ->
  let '(mrs', e') := shr_fexp prec emax m e l in
  e' = Z.max e (fexp prec emax (Zdigits2 m + e)) /\ shr_m mrs' = m / 2 ^ (e' - e).
Proof.
  intros Hm. unfold shr_fexp.
  pose proof (shr_spec (shr_record_of_loc m l) e (fexp prec emax (Zdigits2 m + e) - e)) as Hs.
  rewrite shr_record_of_loc_m in Hs. specialize (Hs Hm).
  destruct (shr _ _ _) as [mrs' e']. destruct Hs as [-> ->].
  split; [lia|]. f_equal. f_equal. lia.
Qed.

(** Rounding never crosses a representable bound [K * 2^E] that lies strictly
    above the value being rounded. *)
Lemma binary_round_aux_upper s mx ex lx K E :
  0 <= mx -> - L <= ex <= E -> SpecFloat.emin prec emax <= E <= emax - prec ->
  0 < K < 2 ^ prec -> sval mx ex < sval K E ->
  match binary_round_aux prec emax s mx ex lx with
  | S754_zero s' => s' = s
  | S754_finite s' m e => s' = s /\ ex <= e <= E /\ sval (Z.pos m) e <= sval K E
  | _ => False
  end.
Proof.
  intros Hm He HE HK Hlt. unfold binary_round_aux.
  pose proof (shr_fexp_spec mx ex lx Hm) as H1.
  destruct (shr_fexp prec emax mx ex lx) as [mrs1 e1]. destruct H1 as [He1 Hm1].
  pose proof (fexp_upper mx ex K E Hm He ltac:(lia) HK ltac:(lia)) as Hf1.
  assert (ex <= e1 <= E) as He1' by lia.
  pose proof (shift_round_up mx ex e1 K E Hm ltac:(lia) ltac:(lia) Hlt) as Hup.
  rewrite <- Hm1 in Hup.
  pose proof (round_nearest_even_bounds (shr_m mrs1) (loc_of_shr_record mrs1)) as Hr.
  set (m1 := round_nearest_even (shr_m mrs1) (loc_of_shr_record mrs1)) in *.
  assert (0 <= shr_m mrs1) by (rewrite Hm1; now apply div_pow2_nonneg).
  assert (0 <= m1) as Hm1' by lia.
  assert (sval m1 e1 <= sval K E) as Hle1.
  { etransitivity; [|exact Hup]. unfold sval.
    pose proof (pow2_pos (e1 + L) ltac:(lia)). nia. }
  pose proof (shr_fexp_spec m1 e1 loc_Exact Hm1') as H2.
  destruct (shr_fexp prec emax m1 e1 loc_Exact) as [mrs2 e2]. destruct H2 as [He2 Hm2].
  pose proof (fexp_upper m1 e1 K E Hm1' ltac:(lia) ltac:(lia) HK Hle1) as Hf2.
  assert (e1 <= e2 <= E) as He2' by lia.
  pose proof (shift_round_down m1 e1 e2 K E Hm1' ltac:(lia) ltac:(lia) Hle1) as Hdn.
  rewrite <- Hm2 in Hdn.
  assert (0 <= shr_m mrs2) by (rewrite Hm2; now apply div_pow2_nonneg).
  destruct (shr_m mrs2) as [|p|p]; [done| |lia].
  destruct (Z.leb_spec e2 (emax - prec)); [|lia].
  repeat split; try lia.
Qed.

Lemma pos_iter_xO m d : Z.pos (Pos.iter xO m d) = Z.pos m * 2 ^ Z.pos d.
Proof.
  induction d as [|d IH] using Pos.peano_ind.
  - simpl. lia.
  - rewrite Pos.iter_succ, Pos2Z.inj_xO, IH, Pos2Z.inj_succ, Z.pow_succ_r by lia. lia.
Qed.

Lemma shl_align_spec mx ex ex' :
  let '(mz, ez) := shl_align mx ex ex' in
  ez = Z.min ex ex' /\ Z.pos mz = Z.pos mx * 2 ^ (ex - ez).
Proof.
  unfold shl_align. destruct (ex' - ex) as [|d|d] eqn:Hd.
  - split; [lia|]. rewrite Z.sub_diag. simpl. lia.
  - split; [lia|]. rewrite Z.sub_diag. simpl. lia.
  - split; [lia|]. rewrite pos_iter_xO. do 2 f_equal. lia.
Qed.

(** The conversion of an integer below [2^63] is a primitive operation, so
    its specification is what the primitive float holds. *)
Lemma normalize_roundtrip z : 0 <= z < 2 ^ 63 ->
  Prim2SF (SF2Prim (binary_normalize prec emax z 0 false)) = binary_normalize prec emax z 0 false.
Proof.
  intros Hz.
  pose proof (of_uint63_spec (Uint63.of_Z z)) as Hs.
  replace (Uint63Axioms.to_Z (Uint63.of_Z z)) with z in Hs.
  - rewrite <- Hs. now rewrite SF2Prim_Prim2SF.
  - rewrite Uint63.of_Z_spec. symmetry. apply Z.mod_small.
    change Uint63.wB with (2 ^ 63). lia.
Qed.

Lemma binary_normalize_upper z : 0 < z < 2 ^ 52 ->
  match binary_normalize prec emax z 0 false with
  | S754_zero _ => True
  | S754_finite s m e => s = false /\ - 52 <= e <= 0 /\ sval (Z.pos m) e <= sval (z + 1) 0
  | _ => False
  end.
Proof.
  intros Hz. destruct z as [|p|p]; try lia. cbn [binary_normalize]. unfold binary_round.
  pose proof (shl_align_spec p 0 (fexp prec emax (Z.pos (digits2_pos p) + 0))) as Ha.
  destruct (shl_align _ _ _) as [mz ez]. destruct Ha as [Hez Hmz].
  assert (0 < Z.pos (digits2_pos p)) by lia.
  assert (- 52 <= ez <= 0) as Hez'.
  { unfold fexp, SpecFloat.emin, emax, prec in Hez. lia. }
  assert (sval (Z.pos mz) ez < sval (Z.pos p + 1) 0) as Hlt.
  { apply sval_lt_intro; [unfold L; lia|]. rewrite Hmz.
    pose proof (pow2_pos (0 - ez) ltac:(lia)). nia. }
  pose proof (binary_round_aux_upper false (Z.pos mz) ez loc_Exact (Z.pos p + 1) 0
                ltac:(lia) ltac:(unfold L; lia)
                ltac:(unfold SpecFloat.emin, emax, prec; lia)
                ltac:(unfold prec; lia) Hlt) as Hr.
  destruct (binary_round_aux prec emax false (Z.pos mz) ez loc_Exact); try done.
  destruct Hr as (-> & He & Hv). repeat split; try lia.
Qed.

Lemma canonical_digits m e : - 1000 <= e ->
  valid_binary (S754_finite false m e) = true -> Z.pos m < 2 ^ 53.
Proof.
  intros He Hv. unfold SpecFloat.valid_binary, bounded, canonical_mantissa in Hv.
  apply andb_prop in Hv as [Hc _]. apply Z.eqb_eq in Hc.
  unfold fexp, SpecFloat.emin, emax, prec in Hc.
  pose proof (digits2_pos_bounds m) as [_ Hhi].
  replace (Z.pos (digits2_pos m)) with 53 in Hhi by lia. done.
Qed.

Lemma Prim2SF_20 : Prim2SF 20 = S754_finite false 5629499534213120 (-48).
Proof. vm_compute. reflexivity. Qed.

Lemma Prim2SF_95 : Prim2SF 95 = S754_finite false 6685030696878080 (-46).
Proof. vm_compute. reflexivity. Qed.

Lemma Prim2SF_100 : Prim2SF 100 = S754_finite false 7036874417766400 (-46).
Proof. vm_compute. reflexivity. Qed.

(** A coverage draw of [[20, 95)] is a positive normal number below 95. *)
Lemma coverage_draw_shape (cov : float) :
  (20 <=? cov)%float = true -> (cov <? 95)%float = true ->
  exists m e, Prim2SF cov = S754_finite false m e /\ - 48 <= e <= - 46 /\
              Z.pos m < 2 ^ 53 /\ sval (Z.pos m) e < sval 95 0.
Proof.
  intros Hlo Hhi. rewrite FloatAxioms.leb_spec in Hlo. rewrite FloatAxioms.ltb_spec in Hhi.
  pose proof (Prim2SF_valid cov) as Hv.
  rewrite Prim2SF_20 in Hlo. rewrite Prim2SF_95 in Hhi.
  destruct (Prim2SF cov) as [s|s| |s m e]; try discriminate; try (destruct s; discriminate).
  destruct s; [discriminate|].
  unfold SFleb, SFltb, SFcompare in Hlo, Hhi.
  exists m, e. split; [done|].
  assert (- 48 <= e <= - 46) as He.
  { destruct (Z.compare_spec (-48) e); try discriminate;
      destruct (Z.compare_spec e (-46)); try discriminate; lia. }
  assert (Z.pos m < 2 ^ 53) as Hm by (apply (canonical_digits m e); [lia|done]).
  split; [done|]. split; [done|].
  apply sval_lt_intro; [unfold L; lia|].
  destruct (Z.compare_spec e (-46)) as [He2|He2|He2]; try lia.
  - subst e. destruct (Z.compare_spec (-48) (-46)); try discriminate.
    rewrite Pos.compare_cont_spec in Hhi. simpl in Hhi.
    destruct (Pos.compare_spec m 6685030696878080) as [Hm'|Hm'|Hm']; try discriminate.
    apply Pos2Z.pos_lt_pos in Hm'. clear Hlo Hhi Hv.
    change (2 ^ (0 - -46)) with 70368744177664. lia.
  - assert (e = -48 \/ e = -47) as [-> | ->] by lia.
    + clear Hlo Hhi Hv. change (2 ^ (0 - -48)) with 281474976710656. lia.
    + clear Hlo Hhi Hv. change (2 ^ (0 - -47)) with 140737488355328. lia.
Qed.

Lemma coverage_fraction_upper m e :
  - 48 <= e <= - 46 -> Z.pos m < 2 ^ 53 -> sval (Z.pos m) e < sval 95 0 ->
  match SF64div (S754_finite false m e) (S754_finite false 7036874417766400 (-46)) with
  | S754_zero _ => True
  | S754_finite s mq eq => s = false /\ - 120 <= eq <= - 5 /\ sval (Z.pos mq) eq <= sval 31 (- 5)
  | _ => False
  end.
Proof.
  intros He Hm Hlt.
  unfold SF64div, SFdiv, SFdiv_core_binary.
  change (Zdigits2 (Z.pos 7036874417766400)) with 53.
  set (d := Zdigits2 (Z.pos m)).
  assert (1 <= d <= 53) as Hd.
  { subst d. split; [simpl; lia|]. apply Zdigits2_le; lia. }
  replace (fexp prec emax (d + e - (53 + -46))) with (d + e - 60)
    by (unfold fexp, SpecFloat.emin, emax, prec; lia).
  replace (Z.min (d + e - 60) (e - -46)) with (d + e - 60) by lia.
  replace (e - -46 - (d + e - 60)) with (106 - d) by lia.
  destruct (106 - d) as [|p|p] eqn:Hs; try lia. rewrite <- Hs. clear p Hs.
  rewrite Z.shiftl_mul_pow2 by lia.
  pose proof (Z_div_mod (Z.pos m * 2 ^ (106 - d)) 7036874417766400 ltac:(done)) as Hdiv.
  change IntDef.Z.div_eucl with Z.div_eucl.
  destruct (Z.div_eucl _ _) as [q r]. destruct Hdiv as [Hq Hr].
  apply sval_lt_inv in Hlt; [|unfold L; lia].
  pose proof (pow2_pos (106 - d) ltac:(lia)) as HS.
  pose proof (pow2_pos (0 - e) ltac:(lia)) as HU.
  pose proof (pow2_pos (55 - d - e) ltac:(lia)) as HT.
  assert (2 ^ (0 - e) * 2 ^ (106 - d) = 70368744177664 * 32 * 2 ^ (55 - d - e)) as Hpow.
  { change 70368744177664 with (2 ^ 46). change 32 with (2 ^ 5).
    rewrite <- !Z.pow_add_r by lia. f_equal. lia. }
  assert (Z.pos m * 2 ^ (106 - d) < 95 * (70368744177664 * 32 * 2 ^ (55 - d - e))) as Hnum.
  { rewrite <- Hpow. nia. }
  assert (0 <= q) as Hq0 by nia.
  assert (q < 31 * 2 ^ (55 - d - e)) as Hqlt by lia.
  assert (sval q (d + e - 60) < sval 31 (- 5)) as Hsv.
  { apply sval_lt_intro; [unfold L; lia|].
    replace (- 5 - (d + e - 60)) with (55 - d - e) by lia. done. }
  pose proof (binary_round_aux_upper false q (d + e - 60) (new_location 7036874417766400 r)
                31 (- 5) Hq0 ltac:(unfold L; lia)
                ltac:(unfold SpecFloat.emin, emax, prec; lia) ltac:(unfold prec; lia) Hsv) as Hup.
  simpl xorb.
  destruct (binary_round_aux _ _ _ _ _ _); try done.
  destruct Hup as (-> & He' & Hv). split; [done|]. split; [lia|done].
Qed.

Lemma product_upper pop mp ep mq eq :
  32 <= pop -> - 52 <= ep <= 0 -> - 120 <= eq <= - 5 ->
  sval (Z.pos mp) ep <= sval (pop + 1) 0 -> sval (Z.pos mq) eq <= sval 31 (- 5) ->
  sval (Z.pos (mp * mq)) (ep + eq) < sval pop 0.
Proof.
  intros Hpop Hep Heq Hp Hq.
  apply sval_le_inv in Hp; [|unfold L; lia]. apply sval_le_inv in Hq; [|unfold L; lia].
  apply sval_lt_intro; [unfold L; lia|].
  pose proof (pow2_pos (0 - ep) ltac:(lia)) as HA.
  pose proof (pow2_pos (- 5 - eq) ltac:(lia)) as HB.
  replace (0 - (ep + eq)) with ((0 - ep) + (- 5 - eq) + 5) by lia.
  rewrite !Z.pow_add_r by lia. change (2 ^ 5) with 32.
  rewrite Pos2Z.inj_mul.
  set (A := 2 ^ (0 - ep)) in *. set (B := 2 ^ (- 5 - eq)) in *.
  assert (Z.pos mp * Z.pos mq <= (pop + 1) * A * (31 * B)) as Hprod.
  { apply Z.mul_le_mono_nonneg; lia. }
  nia.
Qed.

Lemma truncation_bound m e pop :
  - L <= e <= 0 -> sval (Z.pos m) e <= sval pop 0 -> 0 <= Z.shiftl (Z.pos m) e <= pop.
Proof.
  intros He Hv. apply sval_le_inv in Hv; [|lia].
  pose proof (pow2_pos (0 - e) ltac:(lia)) as HA.
  replace e with (- (0 - e)) at 1 2 by lia.
  rewrite Z.shiftl_opp_r, Z.shiftr_div_pow2 by lia. split.
  - apply Z.div_pos; lia.
  - apply Z.div_le_upper_bound; lia.
Qed.

(** [int(population * (coverage / 100))] for a coverage draw of [[20, 95)]:
    the conversions succeed and the result does not exceed the population. *)
Lemma connected_users_bound (pop : Z) (cov : float) :
  32 <= pop < 2 ^ 52 -> (20 <=? cov)%float = true -> (cov <? 95)%float = true ->
  exists pf u, float_of_int pop = Ok pf /\
               int_of_float (pf * (cov / 100)) = Ok u /\ 0 <= u <= pop.
Proof.
  intros Hpop Hlo Hhi.
  destruct (coverage_draw_shape cov Hlo Hhi) as (mc & ec & Hcov & Hec & Hmc & Hsv).
  pose proof (coverage_fraction_upper mc ec Hec Hmc Hsv) as Hq.
  pose proof (binary_normalize_upper pop ltac:(lia)) as Hp.
  pose proof (normalize_roundtrip pop ltac:(lia)) as Hrt.
  unfold float_of_int, int_of_float.
  set (x := binary_normalize prec emax pop 0 false) in *.
  assert (Prim2SF (SF2Prim x * (cov / 100)) =
          SF64mul x (SF64div (S754_finite false mc ec)
                             (S754_finite false 7036874417766400 (-46)))) as Heq.
  { rewrite FloatAxioms.mul_spec, FloatAxioms.div_spec, Hrt, Hcov, Prim2SF_100. reflexivity. }
  destruct (SF64div _ _) as [sq|sq| |sq mq eq]; try done;
    destruct x as [sp|sp| |sp mp ep]; try done.
  - exists (SF2Prim (S754_zero sp)), 0. rewrite Heq. simpl. split; [done|]. split; [done|lia].
  - exists (SF2Prim (S754_finite sp mp ep)), 0. rewrite Heq. simpl.
    split; [done|]. split; [done|lia].
  - exists (SF2Prim (S754_zero sp)), 0. rewrite Heq. simpl. split; [done|]. split; [done|lia].
  - destruct Hq as (-> & Heq' & Hq). destruct Hp as (-> & Hep & Hp).
    pose proof (product_upper pop mp ep mq eq ltac:(lia) Hep Heq' Hp Hq) as Hprod.
    pose proof (binary_round_aux_upper false (Z.pos (mp * mq)) (ep + eq) loc_Exact pop 0
                  ltac:(lia) ltac:(unfold L; lia)
                  ltac:(unfold SpecFloat.emin, emax, prec; lia)
                  ltac:(unfold prec; lia) Hprod) as Hup.
    unfold SF64mul, SFmul in Heq. simpl xorb in Heq.
    destruct (binary_round_aux _ _ _ _ _ _) as [s|s| |s m e]; try done.
    + exists (SF2Prim (S754_finite false mp ep)), 0. rewrite Heq.
      split; [done|]. split; [done|lia].
    + destruct Hup as (-> & He & Hv).
      exists (SF2Prim (S754_finite false mp ep)), (Z.shiftl (Z.pos m) e). rewrite Heq.
      split; [done|]. split; [done|]. apply truncation_bound; [unfold L; lia|done].
Qed.

Lemma float_of_Z_100 : float_of_Z 100 = 100%float.
Proof. vm_compute. reflexivity. Qed.

Lemma float_of_Z_0 : float_of_Z 0 = 0%float.
Proof. vm_compute. reflexivity. Qed.

Lemma Prim2SF_0 : Prim2SF 0 = S754_zero false.
Proof. vm_compute. reflexivity. Qed.

(** No value below 95 reaches a threshold of 100. *)
Lemma below_95_not_ge_100 (cov : float) :
  (cov <? 95)%float = true -> float_ge cov (float_of_Z 100) = false.
Proof.
  intros Hhi. unfold float_ge. rewrite float_of_Z_100.
  rewrite FloatAxioms.ltb_spec, Prim2SF_95 in Hhi. rewrite FloatAxioms.leb_spec, Prim2SF_100.
  unfold SFltb, SFleb, SFcompare in *.
  destruct (Prim2SF cov) as [s|s| |s m e]; try discriminate; try (destruct s; done).
  destruct s; [done|].
  destruct (Z.compare_spec e (-46)) as [He|He|He]; try discriminate.
  - subst e. simpl. rewrite Pos.compare_cont_spec in *. simpl in *.
    destruct (Pos.compare_spec m 6685030696878080) as [Hm|Hm|Hm]; try discriminate.
    apply Pos2Z.pos_lt_pos in Hm.
    destruct (Pos.compare_spec 7036874417766400 m) as [Hm'|Hm'|Hm']; try done.
    + exfalso. apply (f_equal Z.pos) in Hm'. clear Hhi. lia.
    + exfalso. apply Pos2Z.pos_lt_pos in Hm'. clear Hhi. lia.
  - destruct (Z.compare_spec (-46) e); try done; lia.
Qed.

(** Every value from 20 upwards passes a threshold of 0. *)
Lemma from_20_ge_0 (cov : float) :
  (20 <=? cov)%float = true -> float_ge cov (float_of_Z 0) = true.
Proof.
  intros Hlo. unfold float_ge. rewrite float_of_Z_0.
  rewrite FloatAxioms.leb_spec, Prim2SF_20 in Hlo. rewrite FloatAxioms.leb_spec, Prim2SF_0.
  unfold SFleb, SFcompare in *.
  destruct (Prim2SF cov) as [s|s| |s m e]; try discriminate; destruct s; done.
Qed.

Lemma ltb_leb (x y : float) : (x <? y)%float = true -> (x <=? y)%float = true.
Proof.
  rewrite FloatAxioms.ltb_spec, FloatAxioms.leb_spec. unfold SFltb, SFleb.
  destruct (SFcompare _ _) as [[]|]; done.
Qed.

Lemma SFcompare_antisym x y c : SFcompare x y = Some c -> SFcompare y x = Some (CompOpp c).
Proof.
  destruct x as [sx|sx| |sx mx ex], y as [sy|sy| |sy my ey]; simpl; try discriminate;
    try (destruct sx; intros [= <-]; done); try (destruct sy; intros [= <-]; done);
    try (destruct sx, sy; intros [= <-]; done).
  intros [= <-]. change PosDef.Pos.compare_cont with Pos.compare_cont.
  rewrite (Z.compare_antisym ex ey), !Pos.compare_cont_spec. simpl.
  rewrite (Pos.compare_antisym mx my).
  destruct sx, sy; try done; destruct (ex ?= ey); simpl; try done;
    destruct (mx ?= my)%positive; done.
Qed.

Lemma is_nan_Prim2SF (x : float) : is_nan x = false -> Prim2SF x <> S754_nan.
Proof.
  unfold is_nan. rewrite FloatAxioms.eqb_spec. unfold SFeqb.
  intros H Hn. rewrite Hn in H. done.
Qed.

(** The order on floats is total away from [nan]. *)
Lemma leb_total (x y : float) :
  is_nan x = false -> is_nan y = false -> (x <=? y)%float = false -> (y <=? x)%float = true.
Proof.
  intros Hx%is_nan_Prim2SF Hy%is_nan_Prim2SF. rewrite !FloatAxioms.leb_spec. unfold SFleb.
  destruct (SFcompare (Prim2SF x) (Prim2SF y)) as [c|] eqn:Hc.
  - rewrite (SFcompare_antisym _ _ _ Hc). destruct c; done.
  - destruct (Prim2SF x), (Prim2SF y); done.
Qed.

End FloatFacts.

(** ** The random source and the script monad *)

Lemma trace_extends_refl w : trace_extends w w.
Proof. by exists []. Qed.

Lemma trace_extends_trans w1 w2 w3 :
  trace_extends w1 w2 -> trace_extends w2 w3 -> trace_extends w1 w3.
Proof. intros [c1 H1] [c2 H2]. exists (c2 ++ c1). by rewrite H2, H1, app_assoc. Qed.

Lemma trace_extends_called c w : trace_extends w (called c w).
Proof. by exists [c]. Qed.

Lemma contract_kept_called c w :
  contract_kept (called c w) = honours_contract c && contract_kept w.
Proof. reflexivity. Qed.

(** A contract kept to the end was kept at every earlier point. *)
Lemma contract_kept_earlier w w' :
  trace_extends w w' -> contract_kept w' = true -> contract_kept w = true.
Proof.
  intros [calls Hc]. unfold contract_kept. rewrite Hc, forallb_app.
  by intros [_ ?]%andb_prop.
Qed.

Lemma for_each_cons {A B} (f : A -> M B) x l w :
  for_each f (x :: l) w =
  match f x w with
  | (Ok y, w1) =>
      match for_each f l w1 with
      | (Ok ys, w2) => (Ok (y :: ys), w2)
      | (Raise e, w2) => (Raise e, w2)
      end
  | (Raise e, w1) => (Raise e, w1)
  end.
Proof. reflexivity. Qed.

(** What a loop body guarantees, lifted to the loop: if every run of the body
    only adds calls to the trace and, the contract kept, returns a value
    related to its input, then so does the loop, element by element. *)
Lemma for_each_spec {A B} (f : A -> M B) (P : A -> B -> Prop) :
  (forall x w, trace_extends w (f x w).2 /\
               (contract_kept (f x w).2 = true -> exists y, (f x w).1 = Ok y /\ P x y)) ->
  forall l w, trace_extends w (for_each f l w).2 /\
              (contract_kept (for_each f l w).2 = true ->
               exists ys, (for_each f l w).1 = Ok ys /\ Forall2 P l ys).
Proof.
  intros Hf l. induction l as [|x l IH]; intros w.
  - split; [apply trace_extends_refl|]. intros _. exists []. split; [done|constructor].
  - rewrite for_each_cons. destruct (Hf x w) as [Hext1 Hok1].
    destruct (f x w) as [[y|e] w1]; cbn [fst snd] in *.
    + destruct (IH w1) as [Hext2 Hok2].
      destruct (for_each f l w1) as [[ys|e] w2]; cbn [fst snd] in *.
      * split; [by eapply trace_extends_trans|]. intros Hk.
        destruct (Hok2 Hk) as (ys' & [= <-] & Hys).
        destruct (Hok1 (contract_kept_earlier _ _ Hext2 Hk)) as (y' & [= <-] & Hy).
        exists (y :: ys). split; [done|by constructor].
      * split; [by eapply trace_extends_trans|]. intros Hk.
        by destruct (Hok2 Hk) as (ys' & ? & _).
    + split; [done|]. intros Hk. by destruct (Hok1 Hk) as (y' & ? & _).
Qed.

(** ** The generated data set *)

(** One pass of the loop body: six calls are added to the trace and, where
    they kept to their ranges, the conversions do not raise and the row
    built is within the ranges of the data model. *)
Lemma sample_row_spec region state w :
  trace_extends w (sample_row region state w).2 /\
  (contract_kept (sample_row region state w).2 = true ->
   exists r, (sample_row region state w).1 = Ok r /\
             (Region r = region /\ State r = state /\ row_invariant r)).
Proof.
  cbv beta iota zeta delta [sample_row bind randint uniform lift datetime_now ret].
  set (pop := integers w (cursor w)).
  set (w1 := called (Randint 500000 8000000 pop) w).
  set (cov := reals w1 (cursor w1)).
  set (w2 := called (Uniform 20 95 cov) w1).
  assert (trace_extends w w2) as Hw2.
  { eapply trace_extends_trans; apply trace_extends_called. }
  assert (contract_kept w2 = true -> exists pf u,
            float_of_int pop = Ok pf /\ int_of_float (pf * (cov / 100)) = Ok u /\
            0 <= u <= pop /\ 500000 <= pop < 8000000 /\
            (20 <=? cov)%float = true /\ (cov <? 95)%float = true) as Hconv.
  { unfold w2, w1. rewrite !contract_kept_called. cbn [honours_contract].
    intros [[Hc1 Hc2]%andb_prop [[Hp1 Hp2]%andb_prop _]%andb_prop]%andb_prop.
    apply Z.leb_le in Hp1. apply Z.ltb_lt in Hp2.
    destruct (FloatFacts.connected_users_bound pop cov ltac:(lia) Hc1 Hc2) as (pf & u & ? & ? & ?).
    exists pf, u. repeat split; try done; lia. }
  destruct (float_of_int pop) as [pf|e] eqn:Hpf; cbn [fst snd].
  2:{ split; [done|]. intros Hk. destruct (Hconv Hk) as (? & ? & ? & _). done. }
  destruct (int_of_float (pf * (cov / 100))) as [u|e] eqn:Hu; cbn [fst snd].
  2:{ split; [done|]. intros Hk. destruct (Hconv Hk) as (? & ? & [= <-] & ? & _). congruence. }
  set (speed := reals w2 (cursor w2)).
  set (w3 := called (Uniform 5 50 speed) w2).
  set (latency := reals w3 (cursor w3)).
  set (w4 := called (Uniform 20 150 latency) w3).
  set (now := clock w4 (cursor w4)).
  set (w5 := called (Now now) w4).
  set (days := integers w5 (cursor w5)).
  set (w6 := called (Randint 0 30 days) w5).
  assert (trace_extends w2 w6) as Hw6.
  { by exists [Randint 0 30 days; Now now; Uniform 20 150 latency; Uniform 5 50 speed]. }
  split; [exact (trace_extends_trans w w2 w6 Hw2 Hw6)|]. intros Hk.
  destruct (Hconv (contract_kept_earlier _ _ Hw6 Hk))
    as (pf' & u' & [= <-] & Hu' & Hrange & Hpop & Hc1 & Hc2).
  rewrite Hu in Hu'. injection Hu' as <-.
  unfold w6, w5, w4, w3 in Hk. rewrite !contract_kept_called in Hk. cbn [honours_contract] in Hk.
  destruct (andb_prop _ _ Hk) as [_ Hk1]. destruct (andb_prop _ _ Hk1) as [_ Hk2].
  destruct (andb_prop _ _ Hk2) as [[Hl1 Hl2]%andb_prop Hk3].
  destruct (andb_prop _ _ Hk3) as [[Hs1 Hs2]%andb_prop _].
  eexists. split; [reflexivity|]. unfold row_invariant.
  cbn [Region State Population Coverage_Percentage Connected_Users Avg_Speed_Mbps Latency_ms].
  repeat split; try done; lia.
Qed.

Lemma region_state_pairs_length : length region_state_pairs = 37%nat.
Proof. reflexivity. Qed.

Lemma region_sizes : map (fun '(_, states) => length states) regions = [7; 6; 7; 5; 6; 6]%nat.
Proof. reflexivity. Qed.

Lemma rows_of_region region states rows :
  Forall2 (fun state r => Region r = region /\ State r = state /\ row_invariant r) states rows ->
  map (fun r => (Region r, State r)) rows = map (pair region) states /\
  Forall row_invariant rows.
Proof.
  induction 1 as [|state r states rows (Hr & Hs & Hinv) _ [IHm IHf]]; [done|].
  cbn [map]. rewrite IHm, Hr, Hs. split; [done|by constructor].
Qed.

Lemma rows_of_regions (table : list (string * list string)) (per_region : list (list Row)) :
  Forall2 (fun '(region, states) rows =>
             Forall2 (fun state r => Region r = region /\ State r = state /\ row_invariant r)
                     states rows) table per_region ->
  map (fun r => (Region r, State r)) (concat per_region)
  = flat_map (fun '(region, states) => map (pair region) states) table /\
  Forall row_invariant (concat per_region).
Proof.
  induction 1 as [|[region states] rows table per_region Hrows _ [IHm IHf]]; [done|].
  apply rows_of_region in Hrows as [Hm Hf].
  cbn [concat flat_map]. rewrite map_app, Hm, IHm. split; [done|by apply Forall_app].
Qed.

(** The loops of [generate_sample_data], run to the end: one list of rows per
    entry of the [regions] table, one row per state, each within the ranges. *)
Lemma generate_sample_data_run (w w' : World) (res : outcome DataFrame) :
  generate_sample_data w = (res, w') ->
  contract_kept w' = true ->
  exists per_region,
    res = Ok (concat per_region) /\
    Forall2 (fun '(region, states) rows =>
               Forall2 (fun state r => Region r = region /\ State r = state /\ row_invariant r)
                       states rows) regions per_region.
Proof.
  intros Hrun Hk. unfold generate_sample_data, bind in Hrun.
  pose proof (for_each_spec
                (fun '(region, states) => for_each (sample_row region) states)
                (fun '(region, states) rows =>
                   Forall2 (fun state r => Region r = region /\ State r = state /\ row_invariant r)
                           states rows)) as Hloop.
  destruct (Hloop (fun '(region, states) w0 =>
                     for_each_spec (sample_row region) _ (sample_row_spec region) states w0)
                  regions w) as [_ Hok].
  destruct (for_each _ regions w) as [[per_region|e] w1]; cbn [fst snd] in *.
  - injection Hrun as <- <-. destruct (Hok Hk) as (per_region' & [= <-] & Hall).
    by exists per_region.
  - injection Hrun as <- <-. by destruct (Hok Hk) as (? & ? & _).
Qed.

(** C4: whatever the random source returns within its documented ranges,
    [generate_sample_data] returns 37 rows, paired with regions and states as
    the [regions] table lists them, and in every row the connected users do
    not exceed the population and population, coverage, speed and latency lie
    in [[500000, 8000000)], [[20, 95)], [[5, 50)] and [[20, 150)]. *)
Theorem generate_sample_data_invariants (w w' : World) (res : outcome DataFrame) :
  generate_sample_data w = (res, w') ->
  contract_kept w' = true ->
  exists df, res = Ok df /\
             length df = 37%nat /\
             map (fun r => (Region r, State r)) df = region_state_pairs /\
             Forall row_invariant df.
Proof.
  intros Hrun Hk.
  destruct (generate_sample_data_run w w' res Hrun Hk) as (per_region & -> & Hall).
  apply rows_of_regions in Hall as [Hm Hf]. fold region_state_pairs in Hm.
  exists (concat per_region). split; [done|]. split; [|done].
  rewrite <- region_state_pairs_length, <- Hm. by rewrite length_map.
Qed.

Lemma generate_sample_data_invariants_witness :
  contract_kept (generate_sample_data example_world).2 = true /\
  exists df, (generate_sample_data example_world).1 = Ok df /\
             length df = 37%nat /\
             map (fun r => (Region r, State r)) df = region_state_pairs /\
             Forall row_invariant df.
Proof.
  split; [vm_compute; reflexivity|].
  apply (generate_sample_data_invariants example_world (generate_sample_data example_world).2).
  - apply surjective_pairing.
  - vm_compute; reflexivity.
Defined.

(** ** The sidebar filter *)

(** The two masks amount to one filter on their conjunction. *)
Lemma filter_records_unfold (df : DataFrame) (selected_region : string) (coverage_threshold : Z) :
  filter_records df selected_region coverage_threshold
  = filter (passes selected_region coverage_threshold) df.
Proof.
  unfold filter_records. destruct (decide (selected_region <> "All Regions")) as [Hne|Heq].
  - rewrite list_filter_filter. apply list_filter_iff. unfold passes. tauto.
  - apply dec_stable in Heq. apply list_filter_iff. unfold passes. tauto.
Qed.

Lemma filter_all {A} (P : A -> Prop) `{!forall r, Decision (P r)} (df : list A) :
  Forall P df -> filter P df = df.
Proof.
  induction 1 as [|r df Hr _ IH]; [done|]. by rewrite filter_cons_True, IH.
Qed.

Lemma filter_none {A} (P : A -> Prop) `{!forall r, Decision (P r)} (df : list A) :
  filter P df = [] <-> Forall (fun r => ~ P r) df.
Proof.
  induction df as [|r df IH]; [by split; [constructor|]|].
  rewrite filter_cons, Forall_cons. destruct (decide (P r)); [|tauto].
  split; [done|tauto].
Qed.

(** C1: a row is in the filtered frame exactly when it is a row of the data
    set whose coverage is at least the threshold and whose region is the
    selected one, or any region when "All Regions" is selected. *)
Theorem filter_records_spec (df : DataFrame) (selected_region : string) (coverage_threshold : Z)
    (r : Row) :
  r ∈ filter_records df selected_region coverage_threshold <->
  r ∈ df /\
  float_ge (Coverage_Percentage r) (float_of_Z coverage_threshold) = true /\
  (selected_region = "All Regions" \/ Region r = selected_region).
Proof.
  unfold filter_records. rewrite list_elem_of_filter.
  destruct (decide (selected_region <> "All Regions")) as [Hne|Heq].
  - rewrite list_elem_of_filter. tauto.
  - apply dec_stable in Heq. tauto.
Qed.

(** C7: the filtered frame is a subsequence of the data set, so the rows
    that pass keep their relative order; it is empty exactly when no row
    passes, and the filter returns it like any other frame. *)
Theorem filter_records_stable (df : DataFrame) (selected_region : string) (coverage_threshold : Z) :
  filter_records df selected_region coverage_threshold `sublist_of` df /\
  (filter_records df selected_region coverage_threshold = [] <->
   Forall (fun r => ~ passes selected_region coverage_threshold r) df).
Proof.
  rewrite filter_records_unfold. split; [apply sublist_filter|apply filter_none].
Qed.

(** C6: on a data set whose coverage values are not below zero, as those of
    the data model are, the filter with "All Regions" and threshold 0
    returns the data set itself, rows and order. *)
Theorem filter_all_regions_zero (df : DataFrame) :
  Forall (fun r => float_ge (Coverage_Percentage r) (float_of_Z 0) = true) df ->
  filter_records df "All Regions" 0 = df.
Proof.
  intros Hall. rewrite filter_records_unfold. apply filter_all.
  eapply Forall_impl; [exact Hall|]. intros r Hr. split; [exact Hr|by left].
Qed.

Lemma filter_all_regions_zero_witness :
  Forall (fun r => float_ge (Coverage_Percentage r) (float_of_Z 0) = true) example_df /\
  filter_records example_df "All Regions" 0 = example_df.
Proof.
  assert (Forall (fun r => float_ge (Coverage_Percentage r) (float_of_Z 0) = true) example_df)
    as Hall by (repeat constructor).
  split; [exact Hall|]. exact (filter_all_regions_zero example_df Hall).
Defined.

(** The rows of a generated data set, for the lemmas on generated data. *)
Lemma generated_rows (w w' : World) (df : DataFrame) :
  generate_sample_data w = (Ok df, w') -> contract_kept w' = true -> Forall row_invariant df.
Proof.
  intros Hrun Hk.
  destruct (generate_sample_data_run w w' (Ok df) Hrun Hk) as (per_region & [= ->] & Hall).
  by apply rows_of_regions in Hall as [_ Hf].
Qed.

(** Every generated data set has coverage values from 20 upwards, so the
    filter with "All Regions" and threshold 0 returns it whole. *)
Lemma generated_filter_identity (w w' : World) (df : DataFrame) :
  generate_sample_data w = (Ok df, w') -> contract_kept w' = true ->
  filter_records df "All Regions" 0 = df.
Proof.
  intros Hrun Hk. rewrite filter_records_unfold. apply filter_all.
  eapply Forall_impl; [exact (generated_rows w w' df Hrun Hk)|].
  intros r (_ & _ & Hlo & _). split; [by apply FloatFacts.from_20_ge_0|by left].
Qed.

(** ** Key metrics *)

Lemma series_mean_nil `{Runtime} : series_mean [] = nan.
Proof. reflexivity. Qed.

(** Threshold 100 leaves nothing of a generated data set. *)
Lemma generated_filter_100 (w w' : World) (df : DataFrame) (selected_region : string) :
  generate_sample_data w = (Ok df, w') -> contract_kept w' = true ->
  filter_records df selected_region 100 = [].
Proof.
  intros Hrun Hk. rewrite filter_records_unfold. apply filter_none.
  eapply Forall_impl; [exact (generated_rows w w' df Hrun Hk)|].
  intros r (_ & _ & _ & Hhi & _) [Hge _].
  rewrite (FloatFacts.below_95_not_ge_100 _ Hhi) in Hge. discriminate.
Qed.

(** C5: with the threshold at 100 the filter leaves no row of a generated
    data set, whatever region is selected; on the empty frame the three
    means are [nan] and the sum of connected users is 0, and the four cards
    are built from them as from any other values. *)
Theorem empty_selection_metrics `{Runtime} (w w' : World) (res : outcome DataFrame)
    (selected_region : string) :
  generate_sample_data w = (res, w') ->
  contract_kept w' = true ->
  exists df, res = Ok df /\
             filter_records df selected_region 100 = [] /\
             total_coverage [] = nan /\ total_users [] = 0 /\
             avg_speed [] = nan /\ avg_latency [] = nan /\
             map value (key_metrics df (filter_records df selected_region 100))
             = [format_1f nan +:+ "%"; "0"; format_1f nan +:+ " Mbps"; format_1f nan +:+ " ms"].
Proof.
  intros Hrun Hk.
  destruct (generate_sample_data_run w w' res Hrun Hk) as (per_region & -> & _).
  exists (concat per_region). split; [done|].
  rewrite (generated_filter_100 w w' (concat per_region) selected_region Hrun Hk).
  repeat split; reflexivity.
Qed.

Lemma empty_selection_metrics_witness :
  contract_kept (generate_sample_data example_world).2 = true /\
  exists df, (generate_sample_data example_world).1 = Ok df /\
             filter_records df "South West" 100 = [] /\
             @total_coverage example_runtime [] = nan /\ total_users [] = 0 /\
             @avg_speed example_runtime [] = nan /\ @avg_latency example_runtime [] = nan /\
             map value (@key_metrics example_runtime df (filter_records df "South West" 100))
             = ["nan%"; "0"; "nan Mbps"; "nan ms"].
Proof.
  split; [vm_compute; reflexivity|].
  apply (@empty_selection_metrics example_runtime example_world
           (generate_sample_data example_world).2 (generate_sample_data example_world).1
           "South West").
  - apply surjective_pairing.
  - vm_compute; reflexivity.
Defined.

(** C3 (as amended): the four cards, left to right.  The value of each is
    its metric over the filtered frame: the mean coverage, the sum of the
    connected users, the mean speed and the mean latency.  The deltas of the
    coverage, speed and latency cards are that same metric over the filtered
    frame minus the metric of the same column over the full data set; the
    delta of the connected-users card is the filtered total divided by
    1,000,000. *)
Theorem key_metrics_deltas `{Runtime} (df filtered_df : DataFrame) :
  key_metrics df filtered_df =
  [ {| label := "Average Coverage";
       value := format_1f (series_mean (map Coverage_Percentage filtered_df)) +:+ "%";
       delta := format_1f (series_mean (map Coverage_Percentage filtered_df)
                           - series_mean (map Coverage_Percentage df)) +:+ "%";
       delta_color := "normal" |};
    {| label := "Total Connected Users";
       value := Text.format_grouped (int64_sum (map Connected_Users filtered_df));
       delta := format_1f (float_of_Z (int64_sum (map Connected_Users filtered_df))
                           / float_of_Z 1000000) +:+ "M";
       delta_color := "normal" |};
    {| label := "Average Speed";
       value := format_1f (series_mean (map Avg_Speed_Mbps filtered_df)) +:+ " Mbps";
       delta := format_1f (series_mean (map Avg_Speed_Mbps filtered_df)
                           - series_mean (map Avg_Speed_Mbps df)) +:+ " Mbps";
       delta_color := "normal" |};
    {| label := "Average Latency";
       value := format_1f (series_mean (map Latency_ms filtered_df)) +:+ " ms";
       delta := format_1f (series_mean (map Latency_ms filtered_df)
                           - series_mean (map Latency_ms df)) +:+ " ms";
       delta_color := "inverse" |} ].
Proof. reflexivity. Qed.

(** With "South West" selected on the sample frame, the connected-users card
    shows 5.5 (millions) as its delta, where the filtered total minus the
    full total is -1,620,000. *)
Lemma users_delta_not_a_difference :
  users_delta (filter_records example_df "South West" 0) = 5.5%float /\
  float_of_Z (total_users (filter_records example_df "South West" 0) - total_users example_df)
  = (-1620000)%float /\
  (5.5 =? -1620000)%float = false.
Proof. repeat split; vm_compute; reflexivity. Qed.

(** ** Regional analysis *)

Lemma wrap64_add_l a b : wrap64 (wrap64 a + b) = wrap64 (a + b).
Proof.
  unfold wrap64. f_equal.
  replace ((a + 2 ^ 63) mod 2 ^ 64 - 2 ^ 63 + b + 2 ^ 63) with ((a + 2 ^ 63) mod 2 ^ 64 + b) by lia.
  rewrite Zplus_mod_idemp_l. f_equal. lia.
Qed.

Lemma wrap64_add_r a b : wrap64 (a + wrap64 b) = wrap64 (a + b).
Proof. rewrite (Z.add_comm a), wrap64_add_l. f_equal. lia. Qed.

Lemma wrap64_small z : - 2 ^ 63 <= z < 2 ^ 63 -> wrap64 z = z.
Proof. intros Hz. unfold wrap64. rewrite Z.mod_small; lia. Qed.

Lemma sumZ_cons x l : sumZ (x :: l) = x + sumZ l.
Proof. reflexivity. Qed.

(** Wrapping at every addition is wrapping the exact sum once. *)
Lemma int64_sum_wrap l : int64_sum l = wrap64 (sumZ l).
Proof.
  unfold int64_sum.
  assert (forall acc, fold_left (fun acc x => wrap64 (acc + x)) l (wrap64 acc)
                      = wrap64 (acc + sumZ l)) as Hgen.
  { induction l as [|x l IH]; intros acc; cbn [fold_left].
    - f_equal. cbn. lia.
    - rewrite wrap64_add_l, IH, sumZ_cons. f_equal. lia. }
  specialize (Hgen 0). by rewrite (wrap64_small 0) in Hgen by lia.
Qed.

Lemma wrap64_sumZ_map l : wrap64 (sumZ (map wrap64 l)) = wrap64 (sumZ l).
Proof.
  induction l as [|x l IH]; [done|]. cbn [map]. rewrite !sumZ_cons.
  rewrite wrap64_add_l, <- wrap64_add_r, IH, wrap64_add_r. done.
Qed.

Lemma insert_key_spec k ks :
  StronglySorted String_as_OT.lt ks ->
  StronglySorted String_as_OT.lt (insert_key k ks) /\
  (forall k', k' ∈ insert_key k ks <-> k' = k \/ k' ∈ ks).
Proof.
  induction 1 as [|k0 ks Hs IH Hall]; cbn [insert_key].
  - split; [repeat constructor|]. intros k'. rewrite list_elem_of_singleton, elem_of_nil. tauto.
  - destruct IH as [IHs IHm].
    destruct (String_as_OT.compare_spec k k0) as [Heq|Hlt|Hgt].
    + unfold String_as_OT.eq in Heq. subst k0.
      split; [by constructor|]. intros k'. rewrite !elem_of_cons. tauto.
    + split.
      * constructor; [by constructor|]. constructor; [done|].
        eapply Forall_impl; [exact Hall|]. intros k' Hk'. by etransitivity.
      * intros k'. rewrite !elem_of_cons. tauto.
    + split.
      * constructor; [done|]. apply Forall_forall. intros k' Hk'.
        apply IHm in Hk' as [->|Hk']; [done|].
        rewrite Forall_forall in Hall. by apply Hall.
      * intros k'. rewrite !elem_of_cons, IHm. tauto.
Qed.

(** The keys of the groups: the regions present in the frame, in ascending
    order, each once. *)
Lemma group_keys_spec (df : DataFrame) :
  StronglySorted String_as_OT.lt (group_keys df) /\
  (forall k, k ∈ group_keys df <-> exists r, r ∈ df /\ Region r = k).
Proof.
  unfold group_keys. induction df as [|r df [IHs IHm]]; cbn [map foldr].
  - split; [constructor|]. intros k. split; [by intros ?%not_elem_of_nil|].
    by intros (r & ?%not_elem_of_nil & _).
  - destruct (insert_key_spec (Region r) _ IHs) as [Hs Hm]. split; [done|].
    intros k. rewrite Hm, IHm. split.
    + intros [->|(r' & Hr' & <-)]; [exists r; split; [left|done]|].
      exists r'. split; [by right|done].
    + intros (r' & [->|Hr']%elem_of_cons & <-); [by left|]. right. by exists r'.
Qed.

Lemma sorted_keys_NoDup ks : StronglySorted String_as_OT.lt ks -> NoDup ks.
Proof.
  induction 1 as [|k ks _ IH Hall]; constructor; [|done].
  intros Hin. rewrite Forall_forall in Hall.
  apply Hall in Hin. by apply (irreflexivity String_as_OT.lt k).
Qed.

Lemma sum_single_key (ks : list string) (x : string) (v : Z) :
  NoDup ks -> x ∈ ks -> sumZ (map (fun k => if decide (x = k) then v else 0) ks) = v.
Proof.
  induction 1 as [|k ks Hk _ IH]; [by intros ?%not_elem_of_nil|].
  intros Hx. cbn [map]. rewrite sumZ_cons.
  destruct (decide (x = k)) as [->|Hne].
  - assert (sumZ (map (fun k0 => if decide (k = k0) then v else 0) ks) = 0) as ->; [|lia].
    clear IH Hx. induction ks as [|k' ks IH]; [done|]. cbn [map]. rewrite sumZ_cons.
    rewrite not_elem_of_cons in Hk. destruct Hk as [Hne Hk].
    destruct (decide (k = k')); [done|]. rewrite IH by done. lia.
  - apply elem_of_cons in Hx as [->|Hx]; [done|]. rewrite IH by done. lia.
Qed.

(** Every row is counted in the group of its region and in no other. *)
Lemma group_sums_total (ks : list string) (df : DataFrame) :
  NoDup ks -> Forall (fun r => Region r ∈ ks) df ->
  sumZ (map (fun k => sumZ (map Connected_Users (filter (fun r => Region r = k) df))) ks)
  = sumZ (map Connected_Users df).
Proof.
  intros Hnd. induction 1 as [|r df Hr _ IH].
  - clear Hnd. induction ks as [|k ks IHk]; [done|]. cbn [map]. rewrite sumZ_cons, IHk. done.
  - cbn [map]. rewrite sumZ_cons, <- IH.
    rewrite <- (sum_single_key ks (Region r) (Connected_Users r) Hnd Hr) at 1.
    clear. induction ks as [|k ks IHk]; [done|]. cbn [map]. rewrite !sumZ_cons, IHk.
    rewrite filter_cons.
    destruct (decide (Region r = k)); cbn [map]; rewrite ?sumZ_cons; lia.
Qed.

Lemma regional_users_values (df : DataFrame) :
  map snd (regional_users df)
  = map (fun k => int64_sum (map Connected_Users (filter (fun r => Region r = k) df)))
        (group_keys df).
Proof.
  unfold regional_users, groupby_Region. rewrite !map_map. by apply map_ext.
Qed.

Lemma regional_users_keys (df : DataFrame) : map fst (regional_users df) = group_keys df.
Proof.
  unfold regional_users, groupby_Region. rewrite !map_map. cbn. apply map_id.
Qed.

Lemma regional_avg_users `{Runtime} (df : DataFrame) :
  map (fun s => (stats_Region s, stats_Connected_Users s)) (regional_avg df) = regional_users df.
Proof.
  unfold regional_avg, regional_users. rewrite map_map. by apply map_ext; intros [k g].
Qed.

Lemma regional_totals (df : DataFrame) :
  int64_sum (map snd (regional_users df)) = int64_sum (map Connected_Users df).
Proof.
  destruct (group_keys_spec df) as [Hs Hm].
  rewrite regional_users_values, !int64_sum_wrap.
  rewrite (map_ext _ (fun k => wrap64 (sumZ (map Connected_Users
                                                 (filter (fun r => Region r = k) df)))))
    by (intros k; apply int64_sum_wrap).
  rewrite <- (map_map _ wrap64), wrap64_sumZ_map. f_equal.
  apply group_sums_total; [by apply sorted_keys_NoDup|].
  apply Forall_forall. intros r Hr. apply Hm. by exists r.
Qed.

(** C8: the per-region sums of connected users add up to the sum over the
    whole filtered frame, in the [int64] arithmetic of the columns, for the
    pie chart's frame and for the bar chart's alike; and a region is a key of
    the aggregation exactly when a row of the frame has it, so a region
    without a surviving row is absent. *)
Theorem regional_users_total `{Runtime} (filtered_df : DataFrame) :
  int64_sum (map snd (regional_users filtered_df))
  = int64_sum (map Connected_Users filtered_df) /\
  int64_sum (map stats_Connected_Users (regional_avg filtered_df))
  = int64_sum (map Connected_Users filtered_df) /\
  map stats_Region (regional_avg filtered_df) = map fst (regional_users filtered_df) /\
  (forall k, k ∈ map fst (regional_users filtered_df) <->
             exists r, r ∈ filtered_df /\ Region r = k).
Proof.
  pose proof (regional_avg_users filtered_df) as Havg.
  assert (map stats_Connected_Users (regional_avg filtered_df)
          = map snd (regional_users filtered_df)) as Hu.
  { rewrite <- Havg, map_map. done. }
  assert (map stats_Region (regional_avg filtered_df)
          = map fst (regional_users filtered_df)) as Hr.
  { rewrite <- Havg, map_map. done. }
  rewrite Hu. repeat split; try apply regional_totals; try done.
  - rewrite regional_users_keys. apply group_keys_spec.
  - rewrite regional_users_keys. apply group_keys_spec.
Qed.

Lemma sumZ_nonneg l : Forall (fun x => 0 <= x) l -> 0 <= sumZ l.
Proof. induction 1; [done|]. rewrite sumZ_cons. lia. Qed.

Lemma sumZ_filter_le (P : Row -> Prop) `{!forall r, Decision (P r)} (df : DataFrame) :
  Forall (fun r => 0 <= Connected_Users r) df ->
  0 <= sumZ (map Connected_Users (filter P df)) <= sumZ (map Connected_Users df).
Proof.
  induction 1 as [|r df Hr _ IH]; [done|]. rewrite filter_cons.
  destruct (decide (P r)); cbn [map]; rewrite ?sumZ_cons; lia.
Qed.

(** Where no sum leaves the [int64] range, as with the populations of the
    data model, the per-region values are the exact sums and add up to the
    exact total. *)
Lemma regional_users_exact (df : DataFrame) :
  Forall (fun r => 0 <= Connected_Users r) df ->
  sumZ (map Connected_Users df) < 2 ^ 63 ->
  sumZ (map snd (regional_users df)) = sumZ (map Connected_Users df) /\
  int64_sum (map Connected_Users df) = sumZ (map Connected_Users df).
Proof.
  intros Hpos Hfit. destruct (group_keys_spec df) as [Hs Hm]. split.
  - rewrite regional_users_values.
    rewrite (map_ext _ (fun k => sumZ (map Connected_Users (filter (fun r => Region r = k) df)))).
    + apply group_sums_total; [by apply sorted_keys_NoDup|].
      apply Forall_forall. intros r Hr. apply Hm. by exists r.
    + intros k. rewrite int64_sum_wrap. apply wrap64_small.
      pose proof (sumZ_filter_le (fun r => Region r = k) df Hpos). lia.
  - rewrite int64_sum_wrap. apply wrap64_small.
    pose proof (sumZ_nonneg (map Connected_Users df)) as Hn.
    rewrite Forall_map in Hn. specialize (Hn Hpos). lia.
Qed.

(** ** The coverage map *)

Lemma after_uniforms_oracles low high n w :
  cursor (after_uniforms low high n w) = (cursor w + n)%nat /\
  reals (after_uniforms low high n w) = reals w.
Proof.
  revert w. induction n as [|n IH]; intros w; cbn [after_uniforms].
  - split; [lia|done].
  - destruct (IH (called (Uniform low high (reals w (cursor w))) w)) as [-> ->].
    cbn [cursor reals called]. split; [lia|done].
Qed.

Lemma after_uniforms_contract low high n w :
  contract_kept (after_uniforms low high n w) = true ->
  contract_kept w = true /\
  forall i, (i < n)%nat ->
            (low <=? reals w (cursor w + i))%float = true /\
            (reals w (cursor w + i) <? high)%float = true.
Proof.
  revert w. induction n as [|n IH]; intros w; cbn [after_uniforms].
  - intros Hk. split; [done|]. intros i Hi. lia.
  - intros Hk. apply IH in Hk as [Hk Hrest].
    rewrite contract_kept_called in Hk. apply andb_prop in Hk as [Hc Hk].
    split; [done|]. intros [|i] Hi.
    + rewrite Nat.add_0_r. cbn [honours_contract] in Hc. by apply andb_prop in Hc.
    + specialize (Hrest i ltac:(lia)). cbn [cursor reals called] in Hrest.
      by replace (cursor w + S i)%nat with (S (cursor w) + i)%nat by lia.
Qed.

(** One pass of [Series.map] with a jitter lambda over a column of regions
    that all have an entry in the table: a draw per row, in row order. *)
Lemma jitter_loop (proj : coords -> float) (f : string -> M float) :
  (forall x w, f x w = match nigeria_coords !! x with
                       | Some c => (Ok (proj c + reals w (cursor w))%float,
                                    called (Uniform (-1) 1 (reals w (cursor w))) w)
                       | None => (Raise (KeyError x), w)
                       end) ->
  forall xs w, Forall (fun x => is_Some (nigeria_coords !! x)) xs ->
  exists ys, for_each f xs w = (Ok ys, after_uniforms (-1) 1 (length xs) w) /\
             length ys = length xs /\
             forall i x, xs !! i = Some x ->
                         exists c, nigeria_coords !! x = Some c /\
                                   ys !! i = Some (proj c + reals w (cursor w + i))%float.
Proof.
  intros Hf xs. induction xs as [|x xs IH]; intros w Hkeys.
  - exists []. split; [done|]. split; [done|]. intros i x Hx. done.
  - apply Forall_cons in Hkeys as [[c Hc] Hkeys].
    destruct (IH (called (Uniform (-1) 1 (reals w (cursor w))) w) Hkeys) as (ys & Hrun & Hlen & Hys).
    exists ((proj c + reals w (cursor w))%float :: ys).
    rewrite for_each_cons, Hf, Hc, Hrun. split; [done|]. split; [by rewrite !length_cons, Hlen|].
    intros [|i] x' Hx'.
    + injection Hx' as <-. exists c. by rewrite Nat.add_0_r.
    + destruct (Hys i x' Hx') as (c' & Hc' & Hy). exists c'. split; [done|].
      cbn [cursor reals called] in Hy.
      by replace (cursor w + S i)%nat with (S (cursor w) + i)%nat by lia.
Qed.

Lemma jitter_lat_run x w :
  jitter_lat x w = match nigeria_coords !! x with
                   | Some c => (Ok (lat c + reals w (cursor w))%float,
                                called (Uniform (-1) 1 (reals w (cursor w))) w)
                   | None => (Raise (KeyError x), w)
                   end.
Proof. unfold jitter_lat, getitem, bind. by destruct (nigeria_coords !! x). Qed.

Lemma jitter_lon_run x w :
  jitter_lon x w = match nigeria_coords !! x with
                   | Some c => (Ok (lon c + reals w (cursor w))%float,
                                called (Uniform (-1) 1 (reals w (cursor w))) w)
                   | None => (Raise (KeyError x), w)
                   end.
Proof. unfold jitter_lon, getitem, bind. by destruct (nigeria_coords !! x). Qed.

Lemma nigeria_coords_size : size nigeria_coords = 6%nat.
Proof. vm_compute. reflexivity. Qed.

(** Every region of the [regions] table has its centroid. *)
Lemma regions_have_coords :
  Forall (fun region => is_Some (nigeria_coords !! region)) (map fst regions).
Proof. repeat constructor; eexists; vm_compute; reflexivity. Qed.

(** C9: on a filtered frame whose regions are those of the table of six
    centroids, the map code allocates a new frame with the rows of the
    filtered one and two added columns.  Row by row, [lat] is the centroid latitude of the row's
    region plus one draw of [uniform(-1, 1)] and [lon] the centroid longitude
    plus another draw, each draw a call of its own within [[-1, 1]]; the
    rows themselves are carried over as they are, and every object that was
    in the store, the data set and the filtered frame among them, is left as
    it was. *)
Theorem coverage_map_spec (s : gmap ref Frame) (filtered_df : ref) (f : Frame)
    (w w' : World) (res : outcome (gmap ref Frame * ref)) :
  s !! filtered_df = Some f ->
  Forall (fun r => is_Some (nigeria_coords !! Region r)) (rows f) ->
  coverage_map filtered_df s w = (res, w') ->
  contract_kept w' = true ->
  size nigeria_coords = 6%nat /\
  exists s' map_df lats lons,
    res = Ok (s', map_df) /\
    s !! map_df = None /\
    (forall r, r <> map_df -> s' !! r = s !! r) /\
    s' !! map_df
    = Some {| rows := rows f;
              assigned := set_column "lon" lons (set_column "lat" lats (assigned f)) |} /\
    length lats = length (rows f) /\ length lons = length (rows f) /\
    forall i r, rows f !! i = Some r ->
      exists c jlat jlon,
        nigeria_coords !! Region r = Some c /\
        jlat = reals w (cursor w + i) /\
        jlon = reals w (cursor w + length (rows f) + i) /\
        lats !! i = Some (lat c + jlat)%float /\
        lons !! i = Some (lon c + jlon)%float /\
        (-1 <=? jlat)%float = true /\ (jlat <=? 1)%float = true /\
        (-1 <=? jlon)%float = true /\ (jlon <=? 1)%float = true.
Proof.
  intros Hf Hkeys Hrun Hk. split; [exact nigeria_coords_size|].
  set (map_df := fresh (dom s)).
  assert (s !! map_df = None) as Hfresh by apply not_elem_of_dom, is_fresh.
  unfold coverage_map, copy, bind in Hrun. fold map_df in Hrun.
  assert (frame_at s filtered_df = f) as Hat by (unfold frame_at; by rewrite Hf).
  rewrite Hat in Hrun.
  assert (frame_at (<[map_df:=f]> s) map_df = f) as Hat1
    by (unfold frame_at; by rewrite lookup_insert_eq).
  rewrite Hat1 in Hrun.
  assert (Forall (fun x => is_Some (nigeria_coords !! x)) (map Region (rows f))) as Hkeys'
    by (by apply Forall_map).
  destruct (jitter_loop lat jitter_lat jitter_lat_run (map Region (rows f)) w Hkeys')
    as (lats & Hlats & Hlen1 & Hlat).
  rewrite Hlats in Hrun. rewrite length_map in *.
  set (n := length (rows f)) in *. set (w1 := after_uniforms (-1) 1 n w) in *.
  set (s2 := setitem map_df "lat" lats (<[map_df:=f]> s)) in *.
  assert (s2 !! map_df = Some {| rows := rows f; assigned := set_column "lat" lats (assigned f) |})
    as Hs2 by (unfold s2, setitem; by rewrite lookup_alter_eq, lookup_insert_eq).
  assert (frame_at s2 map_df
          = {| rows := rows f; assigned := set_column "lat" lats (assigned f) |}) as Hat2
    by (unfold frame_at; by rewrite Hs2).
  rewrite Hat2 in Hrun. cbn [rows] in Hrun.
  destruct (jitter_loop lon jitter_lon jitter_lon_run (map Region (rows f)) w1 Hkeys')
    as (lons & Hlons & Hlen2 & Hlon).
  rewrite Hlons in Hrun. rewrite length_map in *. fold n in Hrun, Hlen2.
  unfold ret in Hrun. injection Hrun as <- <-.
  destruct (after_uniforms_oracles (-1) 1 n w) as [Hc1 Hr1]. fold w1 in Hc1, Hr1.
  apply after_uniforms_contract in Hk as [Hk1 Hj2].
  apply after_uniforms_contract in Hk1 as [_ Hj1].
  exists (setitem map_df "lon" lons s2), map_df, lats, lons.
  split; [done|]. split; [done|]. split; [|split; [|split; [done|split; [done|]]]].
  - intros r Hr. unfold setitem, s2, setitem.
    by rewrite !lookup_alter_ne, lookup_insert_ne.
  - unfold setitem at 1. by rewrite lookup_alter_eq, Hs2.
  - intros i r Hi.
    assert (map Region (rows f) !! i = Some (Region r)) as Hi'
      by (by rewrite list_lookup_fmap, Hi).
    assert (i < n)%nat as Hlt by (by apply lookup_lt_Some in Hi).
    destruct (Hlat i _ Hi') as (c & Hc & Hla). destruct (Hlon i _ Hi') as (c' & Hc' & Hlo).
    rewrite Hc in Hc'. injection Hc' as <-. rewrite Hc1, Hr1 in Hlo.
    destruct (Hj1 i Hlt) as [Hj1a Hj1b]. destruct (Hj2 i Hlt) as [Hj2a Hj2b].
    rewrite Hc1, Hr1 in Hj2a, Hj2b.
    exists c, (reals w (cursor w + i)), (reals w (cursor w + n + i)).
    repeat split; try done; by apply FloatFacts.ltb_leb.
Qed.

Lemma coverage_map_spec_witness :
  example_store !! 1%nat = Some {| rows := [lagos; oyo]; assigned := [] |} /\
  Forall (fun r => is_Some (nigeria_coords !! Region r)) [lagos; oyo] /\
  contract_kept (coverage_map 1%nat example_store jitter_world).2 = true /\
  size nigeria_coords = 6%nat /\
  exists s' map_df lats lons,
    (coverage_map 1%nat example_store jitter_world).1 = Ok (s', map_df) /\
    example_store !! map_df = None /\
    (forall r, r <> map_df -> s' !! r = example_store !! r) /\
    s' !! map_df = Some {| rows := [lagos; oyo]; assigned := [("lat", lats); ("lon", lons)] |} /\
    length lats = 2%nat /\ length lons = 2%nat /\
    forall i r, [lagos; oyo] !! i = Some r ->
      exists c jlat jlon,
        nigeria_coords !! Region r = Some c /\
        jlat = reals jitter_world (0 + i) /\
        jlon = reals jitter_world (0 + 2 + i) /\
        lats !! i = Some (lat c + jlat)%float /\
        lons !! i = Some (lon c + jlon)%float /\
        (-1 <=? jlat)%float = true /\ (jlat <=? 1)%float = true /\
        (-1 <=? jlon)%float = true /\ (jlon <=? 1)%float = true.
Proof.
  assert (example_store !! 1%nat = Some {| rows := [lagos; oyo]; assigned := [] |}) as Hf
    by (vm_compute; reflexivity).
  assert (Forall (fun r => is_Some (nigeria_coords !! Region r)) [lagos; oyo]) as Hkeys
    by (repeat constructor; eexists; vm_compute; reflexivity).
  assert (contract_kept (coverage_map 1%nat example_store jitter_world).2 = true) as Hk
    by (vm_compute; reflexivity).
  split; [exact Hf|]. split; [exact Hkeys|]. split; [exact Hk|].
  exact (coverage_map_spec example_store 1%nat _ jitter_world _ _ Hf Hkeys
           (surjective_pairing _) Hk).
Defined.

(** The frames the script hands to the map code meet the hypothesis on the
    regions: every region of a generated data set has its centroid. *)
Lemma generated_regions_have_coords (w w' : World) (df : DataFrame)
    (selected_region : string) (coverage_threshold : Z) :
  generate_sample_data w = (Ok df, w') -> contract_kept w' = true ->
  Forall (fun r => is_Some (nigeria_coords !! Region r))
         (filter_records df selected_region coverage_threshold).
Proof.
  intros Hrun Hk.
  destruct (generate_sample_data_run w w' (Ok df) Hrun Hk) as (per_region & [= ->] & Hall).
  apply rows_of_regions in Hall as [Hm _]. fold region_state_pairs in Hm.
  assert (Forall (fun p => is_Some (nigeria_coords !! p.1)) region_state_pairs) as Hpairs
    by (repeat constructor; eexists; vm_compute; reflexivity).
  rewrite <- Hm, Forall_map in Hpairs. cbn [fst] in Hpairs.
  rewrite filter_records_unfold. apply Forall_forall. intros r Hr.
  apply list_elem_of_filter in Hr as [_ Hr]. rewrite Forall_forall in Hpairs. by apply Hpairs.
Qed.

(** ** The raw-data table *)

Section SortFacts.
Context {A : Type} (key : A -> float).

Lemma insert_ascending_perm x l : insert_ascending key x l ≡ₚ x :: l.
Proof.
  induction l as [|y l IH]; cbn [insert_ascending]; [done|].
  destruct (key x <=? key y)%float; [done|]. by rewrite IH, Permutation_swap.
Qed.

Lemma sort_ascending_perm l : sort_ascending key l ≡ₚ l.
Proof.
  induction l as [|x l IH]; [done|]. cbn [sort_ascending foldr].
  fold (sort_ascending key l). by rewrite insert_ascending_perm, IH.
Qed.

Lemma insert_ascending_HdRel a x l :
  (key a <=? key x)%float = true ->
  HdRel (fun a b => (key a <=? key b)%float = true) a l ->
  HdRel (fun a b => (key a <=? key b)%float = true) a (insert_ascending key x l).
Proof.
  intros Hax Hal. destruct l as [|y l]; cbn [insert_ascending]; [by constructor|].
  destruct (key x <=? key y)%float; constructor; [done|]. by inversion Hal.
Qed.

Lemma insert_ascending_sorted x l :
  is_nan (key x) = false -> Forall (fun y => is_nan (key y) = false) l ->
  Sorted (fun a b => (key a <=? key b)%float = true) l ->
  Sorted (fun a b => (key a <=? key b)%float = true) (insert_ascending key x l).
Proof.
  intros Hx Hl Hs. induction Hs as [|y l Hs IH Hhd]; cbn [insert_ascending].
  - by repeat constructor.
  - apply Forall_cons in Hl as [Hy Hl].
    destruct (key x <=? key y)%float eqn:Hxy.
    + constructor; [by constructor|by constructor].
    + constructor; [by apply IH|].
      apply insert_ascending_HdRel; [|done]. by apply FloatFacts.leb_total.
Qed.

Lemma sort_ascending_sorted l :
  Forall (fun y => is_nan (key y) = false) l ->
  Sorted (fun a b => (key a <=? key b)%float = true) (sort_ascending key l).
Proof.
  induction 1 as [|x l Hx Hl IH]; [constructor|]. cbn [sort_ascending foldr].
  fold (sort_ascending key l). apply insert_ascending_sorted; [done| |done].
  by rewrite sort_ascending_perm.
Qed.

End SortFacts.

Lemma Sorted_snoc {A} (R : A -> A -> Prop) l x :
  Sorted R l -> (forall a, last l = Some a -> R a x) -> Sorted R (l ++ [x]).
Proof.
  induction 1 as [|y l Hs IH Hhd]; intros Hlast; cbn [app].
  - by repeat constructor.
  - constructor.
    + apply IH. intros a Ha. apply Hlast. destruct l; [done|]. exact Ha.
    + destruct Hhd as [|z l Hyz]; cbn [app]; constructor; [|done].
      by apply Hlast.
Qed.

Lemma Sorted_rev {A} (R : A -> A -> Prop) l : Sorted R l -> Sorted (flip R) (rev l).
Proof.
  induction 1 as [|x l Hs IH Hhd]; cbn [rev]; [constructor|].
  apply Sorted_snoc; [done|]. intros a Ha.
  assert (head l = Some a) as Hh.
  { rewrite <- (rev_involutive l), <- Ha. clear. destruct (rev l) as [|b k] using rev_ind; [done|].
    rewrite rev_app_distr. cbn. by rewrite last_snoc. }
  destruct Hhd as [|z l Hxz]; [done|]. by injection Hh as <-.
Qed.

Lemma Sorted_weaken {A} (R R' : A -> A -> Prop) l :
  (forall a b, R a b -> R' a b) -> Sorted R l -> Sorted R' l.
Proof.
  intros HR. induction 1 as [|x l Hs IH Hhd]; constructor; [done|].
  destruct Hhd; constructor. by apply HR.
Qed.

Lemma Sorted_app_last {A} (R : A -> A -> Prop) (Q : A -> Prop) l1 l2 :
  (forall a b, Q b -> R a b) -> Sorted R l1 -> Forall Q l2 -> Sorted R (l1 ++ l2).
Proof.
  intros HQ Hs1 Hq.
  assert (Sorted R l2) as Hs2.
  { induction Hq as [|b l2 Hb Hq IH]; constructor; [done|].
    destruct Hq; constructor. by apply HQ. }
  induction Hs1 as [|x l1 Hs1 IH Hhd]; cbn [app]; [done|].
  constructor; [done|]. destruct Hhd; cbn [app]; [|by constructor].
  destruct Hq; constructor. by apply HQ.
Qed.

Lemma sort_values_descending_perm {A} (key : A -> float) l :
  sort_values_descending key l ≡ₚ l.
Proof.
  unfold sort_values_descending.
  assert (filter (fun x => is_nan (key x) = true) l
          = filter (fun x => ~ is_nan (key x) = false) l) as ->.
  { apply list_filter_iff. intros x. by destruct (is_nan (key x)). }
  rewrite <- Permutation_rev, sort_ascending_perm, <- Permutation_rev.
  apply filter_app_complement.
Qed.

Lemma sort_values_descending_sorted {A} (key : A -> float) l :
  Sorted (fun a b => is_nan (key b) = true \/ (key b <=? key a)%float = true)
         (sort_values_descending key l).
Proof.
  unfold sort_values_descending.
  apply (Sorted_app_last _ (fun b => is_nan (key b) = true)).
  - intros a b Hb. by left.
  - apply (Sorted_weaken (flip (fun a b => (key a <=? key b)%float = true))).
    { intros a b Hab. by right. }
    apply Sorted_rev, sort_ascending_sorted.
    apply Forall_forall. intros x Hx.
    apply list_elem_of_In, in_rev, list_elem_of_In, list_elem_of_filter in Hx. tauto.
  - apply Forall_forall. intros x Hx. apply list_elem_of_filter in Hx. tauto.
Qed.

Lemma display_columns_shows (rows : DataFrame) :
  Forall2 shows (map display_columns rows) rows.
Proof. induction rows as [|r rows IH]; constructor; [by repeat split|done]. Qed.

(** C10: the table shown is the filtered frame in another order, each row
    reduced to its seven display columns with the values it had: it is a
    permutation of the projected rows, row for row it shows a rearrangement
    of the filtered rows, and it is in descending order of coverage (a row
    without a coverage value, which the data model does not have, would come
    last); of the empty frame it is the empty table. *)
Theorem raw_data_view_sorted_permutation (filtered_df : DataFrame) :
  raw_data_view filtered_df ≡ₚ map display_columns filtered_df /\
  Sorted coverage_descending (raw_data_view filtered_df) /\
  raw_data_view [] = [] /\
  exists rows, rows ≡ₚ filtered_df /\ Forall2 shows (raw_data_view filtered_df) rows.
Proof.
  pose proof (sort_values_descending_perm d_Coverage_Percentage
                (map display_columns filtered_df)) as Hperm.
  split; [exact Hperm|].
  split; [apply sort_values_descending_sorted|]. split; [done|].
  apply Permutation_map_inv in Hperm as (rows & Heq & Hrows).
  exists rows. split; [by symmetry|].
  unfold raw_data_view. rewrite Heq. apply display_columns_shows.
Qed.

(** On a frame whose coverage values are all present, the order is the plain
    descending one. *)
Lemma raw_data_view_descending (filtered_df : DataFrame) :
  Forall (fun r => is_nan (Coverage_Percentage r) = false) filtered_df ->
  Sorted (fun a b => (d_Coverage_Percentage b <=? d_Coverage_Percentage a)%float = true)
         (raw_data_view filtered_df).
Proof.
  intros Hall. unfold raw_data_view, sort_values_descending.
  assert (Forall (fun x => is_nan (d_Coverage_Percentage x) = false)
                 (map display_columns filtered_df)) as Hall'.
  { apply Forall_map. eapply Forall_impl; [exact Hall|]. by intros r Hr. }
  rewrite (proj2 (filter_none (fun x => is_nan (d_Coverage_Percentage x) = true) _)).
  2:{ eapply Forall_impl; [exact Hall'|]. intros x Hx. cbn. by rewrite Hx. }
  rewrite app_nil_r.
  apply (Sorted_rev (fun a b => (d_Coverage_Percentage a <=? d_Coverage_Percentage b)%float = true)).
  apply sort_ascending_sorted. apply Forall_forall. intros x Hx.
  apply list_elem_of_In, in_rev, list_elem_of_In, list_elem_of_filter in Hx. tauto.
Qed.

(** ** Dates *)

(** The date of an ordinal [datetime] can hold: a year of at most four digits,
    a month and a day of the month. *)
Lemma ord2ymd_ranges (n : Z) :
  1 <= n <= MAXORDINAL ->
  1 <= (Text.ord2ymd n).1.1 <= 9999 /\
  1 <= (Text.ord2ymd n).1.2 <= 12 /\
  1 <= (Text.ord2ymd n).2 <= 31.
Proof.
  intros Hn. unfold MAXORDINAL in Hn. unfold Text.ord2ymd.
  set (n0 := n - 1).
  pose proof (Z.div_mod n0 146097 ltac:(lia)) as E400.
  pose proof (Z.mod_pos_bound n0 146097 ltac:(lia)) as B400.
  set (q400 := n0 / 146097) in *. set (r400 := n0 mod 146097) in *.
  pose proof (Z.div_mod r400 36524 ltac:(lia)) as E100.
  pose proof (Z.mod_pos_bound r400 36524 ltac:(lia)) as B100.
  set (q100 := r400 / 36524) in *. set (r100 := r400 mod 36524) in *.
  pose proof (Z.div_mod r100 1461 ltac:(lia)) as E4.
  pose proof (Z.mod_pos_bound r100 1461 ltac:(lia)) as B4.
  set (q4 := r100 / 1461) in *. set (r4 := r100 mod 1461) in *.
  pose proof (Z.div_mod r4 365 ltac:(lia)) as E1.
  pose proof (Z.mod_pos_bound r4 365 ltac:(lia)) as B1.
  set (q1 := r4 / 365) in *. set (r1 := r4 mod 365) in *.
  assert (0 <= q400 /\ 0 <= q100 <= 4 /\ 0 <= q4 <= 24 /\ 0 <= q1 <= 4) as Hq by (subst n0; lia).
  assert (1 <= q400 * 400 + 1 + q100 * 100 + q4 * 4 + q1
               - (if (q1 =? 4) || (q100 =? 4) then 1 else 0) <= 9999) as Hy.
  { destruct (Z.eqb_spec q1 4), (Z.eqb_spec q100 4); cbn [orb]; subst n0; lia. }
  destruct ((q1 =? 4) || (q100 =? 4)) eqn:Hend.
  { cbn [fst snd]. lia. }
  apply orb_false_elim in Hend as [Hq1 Hq100]. apply Z.eqb_neq in Hq1, Hq100.
  rewrite Z.shiftr_div_pow2 by lia. change (2 ^ 5) with 32.
  pose proof (Z.div_mod (r1 + 50) 32 ltac:(lia)) as Em.
  pose proof (Z.mod_pos_bound (r1 + 50) 32 ltac:(lia)) as Bm.
  set (month := (r1 + 50) / 32) in *.
  assert (1 <= month <= 12) as Hm by lia.
  set (leap := (q1 =? 3) && (negb (q4 =? 24) || (q100 =? 3))).
  assert (month = 1 \/ month = 2 \/ month = 3 \/ month = 4 \/ month = 5 \/ month = 6 \/
          month = 7 \/ month = 8 \/ month = 9 \/ month = 10 \/ month = 11 \/ month = 12) as Hcases
    by lia.
  clearbody leap month.
  destruct Hcases as [->|[->|[->|[->|[->|[->|[->|[->|[->|[->|[->| ->]]]]]]]]]]];
    destruct leap;
    repeat match goal with
           | |- context [nth (Z.to_nat ?k) ?t 0] =>
               let v := eval vm_compute in (nth (Z.to_nat k) t 0) in
               change (nth (Z.to_nat k) t 0) with v
           | |- context [if ?b then 1 else 0] =>
               let v := eval vm_compute in b in
               change (if b then 1 else 0) with (if v then 1 else 0); cbv iota
           end;
    match goal with
    | |- context [if ?a >? ?b then _ else _] => destruct (Z.gtb_spec a b)
    end; cbn [fst snd]; lia.
Qed.

(** From the first day of the year 1000 on, the year has four digits. *)
Lemma ord2ymd_year_1000 (n : Z) :
  ORDINAL_1000 <= n <= MAXORDINAL -> 1000 <= (Text.ord2ymd n).1.1.
Proof.
  intros Hn. unfold MAXORDINAL, ORDINAL_1000 in Hn. unfold Text.ord2ymd.
  set (n0 := n - 1).
  pose proof (Z.div_mod n0 146097 ltac:(lia)) as E400.
  pose proof (Z.mod_pos_bound n0 146097 ltac:(lia)) as B400.
  set (q400 := n0 / 146097) in *. set (r400 := n0 mod 146097) in *.
  pose proof (Z.div_mod r400 36524 ltac:(lia)) as E100.
  pose proof (Z.mod_pos_bound r400 36524 ltac:(lia)) as B100.
  set (q100 := r400 / 36524) in *. set (r100 := r400 mod 36524) in *.
  pose proof (Z.div_mod r100 1461 ltac:(lia)) as E4.
  pose proof (Z.mod_pos_bound r100 1461 ltac:(lia)) as B4.
  set (q4 := r100 / 1461) in *. set (r4 := r100 mod 1461) in *.
  pose proof (Z.div_mod r4 365 ltac:(lia)) as E1.
  pose proof (Z.mod_pos_bound r4 365 ltac:(lia)) as B1.
  set (q1 := r4 / 365) in *. set (r1 := r4 mod 365) in *.
  assert (0 <= q400 /\ 0 <= q100 <= 4 /\ 0 <= q4 <= 24 /\ 0 <= q1 <= 4) as Hq by (subst n0; lia).
  assert (1000 <= q400 * 400 + 1 + q100 * 100 + q4 * 4 + q1
                  - (if (q1 =? 4) || (q100 =? 4) then 1 else 0)) as Hy.
  { destruct (Z.eqb_spec q1 4), (Z.eqb_spec q100 4); cbn [orb]; subst n0; lia. }
  destruct ((q1 =? 4) || (q100 =? 4)) eqn:Hend; [cbn [fst snd]; lia|].
  cbv zeta. match goal with |- context [if ?b then _ else _] => destruct b end;
    cbn [fst snd]; lia.
Qed.

Lemma year_digits_four (year : Z) : 1000 <= year -> Text.year_digits year = Text.fixed_digits 4 year.
Proof.
  intros Hy. unfold Text.year_digits.
  destruct (Z.ltb_spec year 10); [lia|]. destruct (Z.ltb_spec year 100); [lia|].
  destruct (Z.ltb_spec year 1000); [lia|done].
Qed.

Lemma string_length_app s1 s2 :
  String.length (s1 +:+ s2) = (String.length s1 + String.length s2)%nat.
Proof. induction s1 as [|c s1 IH]; simpl; [done|by f_equal]. Qed.

Lemma all_digits_app s1 s2 : all_digits (s1 +:+ s2) = all_digits s1 && all_digits s2.
Proof.
  unfold all_digits. induction s1 as [|c s1 IH]; simpl; [done|].
  by rewrite IH, andb_assoc.
Qed.

Lemma digit_char_is_digit d : 0 <= d <= 9 -> is_digit (Text.digit_char d) = true.
Proof.
  intros Hd.
  assert (d = 0 \/ d = 1 \/ d = 2 \/ d = 3 \/ d = 4 \/ d = 5 \/ d = 6 \/ d = 7 \/ d = 8 \/ d = 9)
    as [->|[->|[->|[->|[->|[->|[->|[->|[->| ->]]]]]]]]] by lia; reflexivity.
Qed.

(** A field of fixed width has that many characters, all of them digits. *)
Lemma fixed_digits_shape width z :
  String.length (Text.fixed_digits width z) = width /\
  all_digits (Text.fixed_digits width z) = true.
Proof.
  revert z. induction width as [|width IH]; intros z; cbn [Text.fixed_digits]; [done|].
  destruct (IH (z / 10)) as [Hl Hd].
  rewrite string_length_app, all_digits_app, Hl, Hd. split; [cbn; lia|].
  cbn. rewrite digit_char_is_digit; [done|]. pose proof (Z.mod_pos_bound z 10). lia.
Qed.

Lemma list_ascii_app s1 s2 :
  String.list_ascii_of_string (s1 +:+ s2)
  = String.list_ascii_of_string s1 ++ String.list_ascii_of_string s2.
Proof. induction s1 as [|c s1 IH]; simpl; [done|by f_equal]. Qed.

(** A number that fits the width is the number its field denotes. *)
Lemma fixed_digits_value width z :
  0 <= z < 10 ^ Z.of_nat width -> decimal_value (Text.fixed_digits width z) = z.
Proof.
  revert z. induction width as [|width IH]; intros z Hz.
  - cbn in *. lia.
  - cbn [Text.fixed_digits]. unfold decimal_value in *.
    rewrite list_ascii_app, fold_left_app, IH.
    + cbn [String.list_ascii_of_string fold_left]. unfold Text.digit_char.
      rewrite nat_ascii_embedding.
      * pose proof (Z.mod_pos_bound z 10 ltac:(lia)).
        pose proof (Z.div_mod z 10 ltac:(lia)). lia.
      * pose proof (Z.mod_pos_bound z 10 ltac:(lia)). lia.
    + rewrite Nat2Z.inj_succ, Z.pow_succ_r in Hz by lia.
      split; [apply Z.div_pos; lia|]. apply Z.div_lt_upper_bound; lia.
Qed.

Lemma strftime_Ymd_digits (t : datetime) :
  ORDINAL_1000 <= ordinal t <= MAXORDINAL ->
  String.length (Text.strftime_Ymd t) = 8%nat /\ all_digits (Text.strftime_Ymd t) = true.
Proof.
  intros Hy%ord2ymd_year_1000.
  unfold Text.strftime_Ymd. destruct (Text.ord2ymd (ordinal t)) as [[y m] d].
  cbn [fst] in Hy. rewrite (year_digits_four y Hy).
  destruct (fixed_digits_shape 4 y) as [Hy1 Hy2].
  destruct (fixed_digits_shape 2 m) as [Hm1 Hm2].
  destruct (fixed_digits_shape 2 d) as [Hd1 Hd2].
  rewrite !string_length_app, !all_digits_app, Hy1, Hy2, Hm1, Hm2, Hd1, Hd2. done.
Qed.

(** ** CSV export *)

Lemma lookup_map {A B} (f : A -> B) (l : list A) (i : nat) : map f l !! i = f <$> l !! i.
Proof. revert i. induction l as [|x l IH]; intros [|i]; cbn; auto. Qed.

(** C2 (as amended): the export has the eight columns of the data set, in
    the order of the dictionary keys, [Population] among them: a header line
    with their names and one comma-separated line per row of the filtered
    frame, in row order; and, the current date being one of the years 1000
    to 9999, the file is named [nigcomsat_coverage_], then the year of the
    date in four digits, its month in two and its day in two, then [.csv]. *)
Theorem csv_export_format `{Runtime} (filtered_df : DataFrame) (now : datetime) :
  Csv.columns = [ "Region"; "State"; "Population"; "Coverage_Percentage"; "Connected_Users";
                  "Avg_Speed_Mbps"; "Latency_ms"; "Last_Update" ] /\
  Csv.to_csv filtered_df = String.concat "" (Csv.csv_lines filtered_df) /\
  length (Csv.csv_lines filtered_df) = S (length filtered_df) /\
  Csv.csv_lines filtered_df !! 0%nat
  = Some ("Region,State,Population,Coverage_Percentage,Connected_Users,Avg_Speed_Mbps,Latency_ms,Last_Update"
          +:+ Text.newline) /\
  (forall i r, filtered_df !! i = Some r ->
     Csv.csv_lines filtered_df !! S i
     = Some (String.concat "," (map Csv.quote_field
               [ Region r; State r; Text.str_int (Population r);
                 csv_float (Coverage_Percentage r); Text.str_int (Connected_Users r);
                 csv_float (Avg_Speed_Mbps r); csv_float (Latency_ms r);
                 csv_datetime (Last_Update r) ]) +:+ Text.newline)) /\
  (ORDINAL_1000 <= ordinal now <= MAXORDINAL ->
   exists yyyy mm dd,
     Csv.file_name now = "nigcomsat_coverage_" +:+ (yyyy +:+ mm +:+ dd) +:+ ".csv" /\
     String.length yyyy = 4%nat /\ String.length mm = 2%nat /\ String.length dd = 2%nat /\
     String.length (yyyy +:+ mm +:+ dd) = 8%nat /\ all_digits (yyyy +:+ mm +:+ dd) = true /\
     Text.ord2ymd (ordinal now) = (decimal_value yyyy, decimal_value mm, decimal_value dd)).
Proof.
  split; [done|]. split; [done|]. split.
  { unfold Csv.csv_lines. by rewrite length_cons, length_map. }
  split; [done|]. split.
  { intros i r Hi. unfold Csv.csv_lines.
    etransitivity; [exact (lookup_map (fun r => Csv.line (Csv.cells r)) filtered_df i)|].
    by rewrite Hi. }
  intros Hnow.
  assert (1 <= ordinal now <= MAXORDINAL) as Hvalid by (unfold ORDINAL_1000 in Hnow; lia).
  pose proof (ord2ymd_ranges (ordinal now) Hvalid) as (Hy & Hm & Hd).
  pose proof (ord2ymd_year_1000 (ordinal now) Hnow) as Hy4.
  pose proof (strftime_Ymd_digits now Hnow) as [Hlen Hdig].
  unfold Csv.file_name. unfold Text.strftime_Ymd in *.
  destruct (Text.ord2ymd (ordinal now)) as [[y m] d]. cbn [fst snd] in *.
  rewrite (year_digits_four y Hy4) in *.
  exists (Text.fixed_digits 4 y), (Text.fixed_digits 2 m), (Text.fixed_digits 2 d).
  split; [done|].
  split; [apply fixed_digits_shape|]. split; [apply fixed_digits_shape|].
  split; [apply fixed_digits_shape|]. split; [done|]. split; [done|].
  rewrite !fixed_digits_value by (cbn; lia). done.
Qed.

Lemma csv_export_format_witness :
  ORDINAL_1000 <= ordinal example_date <= MAXORDINAL /\
  @Csv.to_csv example_runtime [lagos]
  = "Region,State,Population,Coverage_Percentage,Connected_Users,Avg_Speed_Mbps,Latency_ms,Last_Update"
    +:+ Text.newline
    +:+ "South West,Lagos,6000000,#.#,4500000,#.#,#.#,####-##-##" +:+ Text.newline /\
  Csv.file_name example_date = "nigcomsat_coverage_20240229.csv" /\
  length (@Csv.csv_lines example_runtime [lagos]) = 2%nat /\
  exists yyyy mm dd,
    Csv.file_name example_date = "nigcomsat_coverage_" +:+ (yyyy +:+ mm +:+ dd) +:+ ".csv" /\
    String.length yyyy = 4%nat /\ String.length mm = 2%nat /\ String.length dd = 2%nat /\
    (decimal_value yyyy, decimal_value mm, decimal_value dd) = (2024, 2, 29).
Proof.
  assert (ORDINAL_1000 <= ordinal example_date <= MAXORDINAL) as Hnow
    by (vm_compute; split; discriminate).
  pose proof (@csv_export_format example_runtime [lagos] example_date)
    as (_ & _ & Hlen & _ & _ & Hname).
  destruct (Hname Hnow) as (yyyy & mm & dd & Hfile & Hy & Hm & Hd & _ & _ & Hdate).
  split; [exact Hnow|]. split; [vm_compute; reflexivity|]. split; [vm_compute; reflexivity|].
  split; [exact Hlen|]. exists yyyy, mm, dd.
  split; [exact Hfile|]. split; [exact Hy|]. split; [exact Hm|]. split; [exact Hd|].
  rewrite <- Hdate. vm_compute. reflexivity.
Defined.

(** The export of an empty selection is the header alone, and its third
    column is [Population], which the list of seven columns does not have. *)
Lemma csv_export_has_population :
  @Csv.to_csv example_runtime []
  = "Region,State,Population,Coverage_Percentage,Connected_Users,Avg_Speed_Mbps,Latency_ms,Last_Update"
    +:+ Text.newline /\
  length Csv.columns = 8%nat /\
  Csv.columns !! 2%nat = Some "Population" /\
  bool_decide (Csv.columns = [ "Region"; "State"; "Coverage_Percentage"; "Connected_Users";
                               "Avg_Speed_Mbps"; "Latency_ms"; "Last_Update" ]) = false.
Proof. repeat split; vm_compute; reflexivity. Qed.

(** * Further properties of the script *)

(** ** The order on binary64 values *)

Module FloatOrder.

Lemma SFleb_trans x y z : SFleb x y = true -> SFleb y z = true -> SFleb x z = true.
Proof.
  unfold SFleb.
  destruct x as [sx|sx| |sx mx ex], y as [sy|sy| |sy my ey], z as [sz|sz| |sz mz ez];
    cbn [SFcompare]; try discriminate; try done;
    try (destruct sx; try done; destruct sy; try done; destruct sz; done);
    try (destruct sx; try done; destruct sz; done);
    try (destruct sy; try done; destruct sz; done);
    try (destruct sx; try done; destruct sy; done).
  change PosDef.Pos.compare_cont with Pos.compare_cont.
  rewrite !Pos.compare_cont_spec. cbn [Pos.switch_Eq].
  destruct sx, sy, sz; try done;
    destruct (Z.compare_spec ex ey), (Z.compare_spec ey ez), (Z.compare_spec ex ez);
    try done; try lia; subst;
    destruct (Pos.compare_spec mx my), (Pos.compare_spec my mz), (Pos.compare_spec mx mz);
    try done; try lia.
Qed.

(** [<=] on floats is transitive. *)
Lemma leb_trans (x y z : float) :
  (x <=? y)%float = true -> (y <=? z)%float = true -> (x <=? z)%float = true.
Proof. rewrite !FloatAxioms.leb_spec. apply SFleb_trans. Qed.

(** A comparison that holds has no [nan] on either side. *)
Lemma leb_not_nan (x y : float) :
  (x <=? y)%float = true -> is_nan x = false /\ is_nan y = false.
Proof.
  rewrite FloatAxioms.leb_spec. unfold is_nan. rewrite !FloatAxioms.eqb_spec.
  unfold SFleb, SFeqb. destruct (Prim2SF x) as [[]|[]| |[] ? ?], (Prim2SF y) as [[]|[]| |[] ? ?];
    cbn [SFcompare]; try discriminate; intros _; split; try done;
    change PosDef.Pos.compare_cont with Pos.compare_cont;
    rewrite ?Z.compare_refl, ?Pos.compare_cont_spec, ?Pos.compare_refl; done.
Qed.

(** Away from [nan] every value is at most itself. *)
Lemma leb_refl (x : float) : is_nan x = false -> (x <=? x)%float = true.
Proof.
  intros Hx. destruct (x <=? x)%float eqn:Hle; [done|].
  by rewrite (FloatFacts.leb_total x x Hx Hx Hle) in Hle.
Qed.

End FloatOrder.

Module SliderFacts.

(** The conversions of the slider values, in ascending order. *)
Lemma float_of_Z_steps :
  forallb (fun k => (float_of_Z (Z.of_nat k) <=? float_of_Z (Z.of_nat (S k)))%float) (seq 0 100)
  = true.
Proof. vm_compute. reflexivity. Qed.

Lemma float_of_Z_step t : 0 <= t < 100 -> (float_of_Z t <=? float_of_Z (t + 1))%float = true.
Proof.
  intros Ht. pose proof float_of_Z_steps as Hall. rewrite forallb_forall in Hall.
  specialize (Hall (Z.to_nat t)). rewrite Nat2Z.inj_succ, Z2Nat.id in Hall by lia.
  apply Hall, in_seq. lia.
Qed.

(** On the range of the slider the conversion to binary64 keeps the order. *)
Lemma float_of_Z_monotone t1 t2 :
  0 <= t1 <= t2 -> t2 <= 100 -> (float_of_Z t1 <=? float_of_Z t2)%float = true.
Proof.
  intros Ht1 Ht2. replace t2 with (t1 + Z.of_nat (Z.to_nat (t2 - t1))) in * by lia.
  induction (Z.to_nat (t2 - t1)) as [|n IH].
  - rewrite Z.add_0_r.
    destruct (Z.eq_dec t1 0) as [->|Hne].
    + vm_compute. reflexivity.
    + pose proof (float_of_Z_step (t1 - 1) ltac:(lia)) as Hs.
      replace (t1 - 1 + 1) with t1 in Hs by lia.
      apply FloatOrder.leb_not_nan in Hs as [_ Hs]. by apply FloatOrder.leb_refl.
  - eapply FloatOrder.leb_trans; [apply IH; lia|].
    replace (t1 + Z.of_nat (S n)) with (t1 + Z.of_nat n + 1) by lia.
    apply float_of_Z_step. lia.
Qed.

End SliderFacts.

(** ** Columns, keys and the rows that have them *)

Lemma unique_from_spec (seen values : list string) :
  NoDup (unique_from seen values) /\
  forall x, x ∈ unique_from seen values <-> x ∈ values /\ x ∉ seen.
Proof.
  revert seen. induction values as [|v values IH]; intros seen; cbn [unique_from].
  - split; [constructor|]. intros x. rewrite !elem_of_nil. tauto.
  - destruct (decide (v ∈ seen)) as [Hin|Hout].
    + destruct (IH seen) as [Hnd Hm]. split; [done|]. intros x. rewrite Hm, elem_of_cons.
      split; [tauto|]. intros [[->|Hx] Hs]; tauto.
    + destruct (IH (v :: seen)) as [Hnd Hm]. split.
      * constructor; [|done]. rewrite Hm, elem_of_cons. tauto.
      * intros x. rewrite !elem_of_cons, Hm, elem_of_cons.
        destruct (decide (x = v)) as [->|Hne]; tauto.
Qed.

Lemma unique_spec (values : list string) :
  NoDup (unique values) /\ forall x, x ∈ unique values <-> x ∈ values.
Proof.
  destruct (unique_from_spec [] values) as [Hnd Hm]. split; [done|].
  intros x. rewrite Hm, elem_of_nil. tauto.
Qed.

(** One more element under one key of a list of keys without duplicates. *)
Lemma concat_map_cons_at {A} (f : string -> list A) (x : A) (k0 : string) (ks : list string) :
  NoDup ks -> k0 ∈ ks ->
  concat (map (fun k => if decide (k0 = k) then x :: f k else f k) ks)
  ≡ₚ x :: concat (map f ks).
Proof.
  induction 1 as [|k ks Hk Hnd IH]; [by intros ?%elem_of_nil|].
  intros Hin. cbn [map concat]. destruct (decide (k0 = k)) as [->|Hne].
  - cbn. assert (map (fun k' => if decide (k = k') then x :: f k' else f k') ks = map f ks) as ->; [|done].
    apply map_ext_in. intros k' Hk'%list_elem_of_In.
    destruct (decide (k = k')) as [->|]; done.
  - apply elem_of_cons in Hin as [?|Hin]; [done|].
    rewrite (IH Hin). by rewrite Permutation_middle.
Qed.

(** Splitting a frame by region, over keys that cover its rows and have no
    duplicates, loses and repeats no row. *)
Lemma concat_filter_keys (ks : list string) (df : DataFrame) :
  NoDup ks -> Forall (fun r => Region r ∈ ks) df ->
  concat (map (fun k => filter (fun r => Region r = k) df) ks) ≡ₚ df.
Proof.
  intros Hnd. induction 1 as [|r df Hr _ IH].
  - induction ks as [|k ks IHk]; [done|]. cbn. apply IHk. by inversion Hnd.
  - etransitivity; [|apply Permutation_skip, IH].
    rewrite <- (concat_map_cons_at _ r (Region r) ks Hnd Hr).
    assert (forall (f g : string -> list Row), (forall k, f k = g k) ->
              concat (map f ks) ≡ₚ concat (map g ks)) as Hext.
    { intros f g Hfg. by rewrite (map_ext f g Hfg). }
    apply Hext. intros k. rewrite filter_cons.
    destruct (decide (Region r = k)) as [Heq|Hne], (decide (Region r = k)); done.
Qed.

(** ** The filter as an operation on frames *)

Lemma passes_weaken (s : string) (t1 t2 : Z) (r : Row) :
  0 <= t1 <= t2 -> t2 <= 100 -> passes s t2 r -> passes s t1 r.
Proof.
  intros Ht1 Ht2 [Hc Hr]. split; [|done]. unfold float_ge in *.
  eapply FloatOrder.leb_trans; [|exact Hc]. by apply SliderFacts.float_of_Z_monotone.
Qed.

Lemma filter_records_twice (df : DataFrame) (s1 s2 : string) (t1 t2 : Z) :
  filter_records (filter_records df s1 t1) s2 t2
  = filter (fun r => passes s1 t1 r /\ passes s2 t2 r) df.
Proof.
  rewrite !filter_records_unfold, list_filter_filter. apply list_filter_iff. tauto.
Qed.

(** X1: filtering a filtered frame again with the same selection changes
    nothing, and two selections applied one after the other give the same
    frame in either order. *)
Theorem filter_records_idempotent (df : DataFrame) (s1 s2 : string) (t1 t2 : Z) :
  filter_records (filter_records df s1 t1) s1 t1 = filter_records df s1 t1 /\
  filter_records (filter_records df s1 t1) s2 t2
  = filter_records (filter_records df s2 t2) s1 t1.
Proof.
  rewrite !filter_records_twice. split.
  - rewrite filter_records_unfold. apply list_filter_iff. tauto.
  - apply list_filter_iff. tauto.
Qed.

(** X2: on the range of the slider, raising the threshold only removes rows:
    the frame for the higher threshold is the frame for the lower one
    filtered once more, hence a subsequence of it. *)
Theorem filter_records_threshold_monotone (df : DataFrame) (s : string) (t1 t2 : Z) :
  min_value coverage_slider <= t1 <= t2 -> t2 <= max_value coverage_slider ->
  filter_records df s t2 = filter_records (filter_records df s t1) s t2 /\
  filter_records df s t2 `sublist_of` filter_records df s t1 /\
  (length (filter_records df s t2) <= length (filter_records df s t1))%nat.
Proof.
  cbn [min_value max_value coverage_slider]. intros Ht1 Ht2.
  assert (filter_records df s t2 = filter_records (filter_records df s t1) s t2) as Heq.
  { rewrite filter_records_twice, filter_records_unfold. apply list_filter_iff.
    intros r. pose proof (passes_weaken s t1 t2 r Ht1 Ht2). tauto. }
  split; [done|]. rewrite Heq. generalize (filter_records df s t1). intros f1.
  rewrite (filter_records_unfold f1). split; [apply sublist_filter|apply length_filter].
Qed.

Lemma filter_records_threshold_monotone_witness :
  min_value coverage_slider <= 30 <= 45 /\ 45 <= max_value coverage_slider /\
  filter_records example_df "South West" 45 `sublist_of` filter_records example_df "South West" 30.
Proof.
  assert (min_value coverage_slider <= 30 <= 45) as H1 by (cbn; lia).
  assert (45 <= max_value coverage_slider) as H2 by (cbn; lia).
  split; [exact H1|]. split; [exact H2|].
  exact (proj1 (proj2 (filter_records_threshold_monotone example_df "South West" 30 45 H1 H2))).
Defined.

Lemma filter_region_of_all (df : DataFrame) (s : string) (t : Z) :
  s <> "All Regions" ->
  filter_records df s t = filter (fun r => Region r = s) (filter_records df "All Regions" t).
Proof.
  intros Hs. rewrite !filter_records_unfold, list_filter_filter. apply list_filter_iff.
  unfold passes. intros r. split; [tauto|]. intros [Hr [Hc _]]. auto.
Qed.

(** X3: selecting a region gives the rows of that region among those the
    same threshold leaves under "All Regions", in the same order. *)
Theorem filter_records_region_refines (df : DataFrame) (s : string) (t : Z) :
  s <> "All Regions" ->
  filter_records df s t = filter (fun r => Region r = s) (filter_records df "All Regions" t) /\
  filter_records df s t `sublist_of` filter_records df "All Regions" t.
Proof.
  intros Hs. pose proof (filter_region_of_all df s t Hs) as Heq.
  split; [done|]. rewrite Heq. apply sublist_filter.
Qed.

Lemma filter_records_region_refines_witness :
  bool_decide ("South West" = "All Regions") = false /\
  filter_records example_df "South West" 45
  = filter (fun r => Region r = "South West") (filter_records example_df "All Regions" 45).
Proof.
  split; [reflexivity|].
  refine (proj1 (filter_records_region_refines example_df "South West" 45 _)). discriminate.
Defined.

(** X4: in a frame without a region named "All Regions", the frames of the
    regions the select box offers, taken together, are the frame of "All
    Regions" for the same threshold: no row is lost and none is counted
    twice. *)
Theorem filter_records_partition (df : DataFrame) (t : Z) :
  "All Regions" ∉ map Region df ->
  concat (map (fun s => filter_records df s t) (unique (map Region df)))
  ≡ₚ filter_records df "All Regions" t.
Proof.
  intros Hall. destruct (unique_spec (map Region df)) as [Hnd Hm].
  assert (map (fun s => filter_records df s t) (unique (map Region df))
          = map (fun s => filter (fun r => Region r = s) (filter_records df "All Regions" t))
                (unique (map Region df))) as ->.
  { apply map_ext_in. intros s Hs%list_elem_of_In%Hm.
    apply filter_region_of_all. by intros ->. }
  apply concat_filter_keys; [done|].
  apply Forall_forall. intros r Hr. apply Hm.
  rewrite filter_records_unfold in Hr. apply list_elem_of_filter in Hr as [_ Hr].
  apply list_elem_of_fmap. by exists r.
Qed.

Lemma filter_records_partition_witness :
  ("All Regions" ∉ map Region example_df) /\
  (concat (map (fun s => filter_records example_df s 45) (unique (map Region example_df)))
   ≡ₚ filter_records example_df "All Regions" 45).
Proof.
  assert ("All Regions" ∉ map Region example_df) as Hall.
  { cbn. rewrite !elem_of_cons, elem_of_nil. intros [?|[?|[?|?]]]; done. }
  split; [exact Hall|]. exact (filter_records_partition example_df 45 Hall).
Defined.

(** ** The generator, call by call *)

Lemma same_oracles_refl w : same_oracles w w.
Proof. done. Qed.

Lemma same_oracles_trans w1 w2 w3 :
  same_oracles w1 w2 -> same_oracles w2 w3 -> same_oracles w1 w3.
Proof. intros (H1 & H2 & H3) (H4 & H5 & H6). repeat split; congruence. Qed.

Lemma for_each_app {A B} (f : A -> M B) l1 l2 w :
  for_each f (l1 ++ l2) w =
  match for_each f l1 w with
  | (Ok ys, w1) =>
      match for_each f l2 w1 with
      | (Ok zs, w2) => (Ok (ys ++ zs), w2)
      | (Raise e, w2) => (Raise e, w2)
      end
  | (Raise e, w1) => (Raise e, w1)
  end.
Proof.
  revert w. induction l1 as [|x l1 IH]; intros w.
  - cbn [app]. change (for_each f [] w) with (Ok (@nil B), w). cbv beta iota.
    by destruct (for_each f l2 w) as [[zs|e] w2].
  - cbn [app]. rewrite !for_each_cons. destruct (f x w) as [[y|e] w1]; [|done].
    rewrite IH. destruct (for_each f l1 w1) as [[ys|e] w2]; [|done].
    by destruct (for_each f l2 w2) as [[zs|e] w3].
Qed.

Lemma for_each_map {A B C} (f : B -> M C) (g : A -> B) l w :
  for_each f (map g l) w = for_each (fun x => f (g x)) l w.
Proof.
  revert w. induction l as [|x l IH]; intros w; [done|].
  cbn [map]. rewrite !for_each_cons. destruct (f (g x) w) as [[y|e] w1]; [|done].
  by rewrite IH.
Qed.

(** The two nested loops are one loop over the (region, state) pairs. *)
Lemma nested_loops_flat (table : list (string * list string)) (w : World) :
  (do per_region <- for_each (fun '(region, states) => for_each (sample_row region) states) table;
   ret (concat per_region)) w
  = for_each (fun p => sample_row p.1 p.2)
             (flat_map (fun '(region, states) => map (pair region) states) table) w.
Proof.
  revert w. induction table as [|[region states] table IH]; intros w; [done|].
  cbn [flat_map]. rewrite for_each_app, for_each_map. cbn [fst snd].
  unfold bind in *. rewrite for_each_cons.
  change (fun x => sample_row region x) with (sample_row region).
  destruct (for_each (sample_row region) states w) as [[ys|e] w1]; [|done].
  rewrite <- IH.
  by destruct (for_each _ table w1) as [[zs|e] w2].
Qed.

Lemma generate_sample_data_flat (w : World) :
  generate_sample_data w = for_each (fun p => sample_row p.1 p.2) region_state_pairs w.
Proof. apply nested_loops_flat. Qed.

(** A loop whose body makes [k] library calls on every pass that returns:
    the pass at index [i] starts after [k * i] calls. *)
Lemma for_each_runs {A B} (f : A -> M B) (k : nat) :
  (forall x w y w', f x w = (Ok y, w') ->
     cursor w' = (cursor w + k)%nat /\ same_oracles w w' /\ trace_extends w w') ->
  forall l w ys w', for_each f l w = (Ok ys, w') ->
    cursor w' = (cursor w + k * length l)%nat /\ same_oracles w w' /\ trace_extends w w' /\
    length ys = length l /\
    forall i x, l !! i = Some x ->
      exists y wi wi', ys !! i = Some y /\ f x wi = (Ok y, wi') /\
                       cursor wi = (cursor w + k * i)%nat /\ same_oracles w wi /\
                       trace_extends wi' w'.
Proof.
  intros Hf l. induction l as [|x l IH]; intros w ys w' Hrun.
  - injection Hrun as <- <-. cbn [length]. split; [lia|]. split; [done|].
    split; [apply trace_extends_refl|]. split; [done|]. intros i x Hx. done.
  - rewrite for_each_cons in Hrun. destruct (f x w) as [[y|e] w1] eqn:Hx; [|done].
    destruct (for_each f l w1) as [[ys'|e] w2] eqn:Hl; [|done]. injection Hrun as <- <-.
    destruct (Hf x w y w1 Hx) as (Hc1 & Ho1 & Ht1).
    destruct (IH w1 ys' w2 Hl) as (Hc2 & Ho2 & Ht2 & Hlen & Hrest).
    cbn [length]. split; [lia|]. split; [by eapply same_oracles_trans|].
    split; [by eapply trace_extends_trans|]. split; [by rewrite Hlen|].
    intros [|i] x' Hx'.
    + injection Hx' as <-. exists y, w, w1. split; [done|]. split; [done|].
      split; [lia|]. split; [done|done].
    + destruct (Hrest i x' Hx') as (y' & wi & wi' & Hy' & Hrun' & Hci & Hoi & Hti).
      exists y', wi, wi'. split; [done|]. split; [done|]. split; [lia|].
      split; [by eapply same_oracles_trans|done].
Qed.

(** One pass of the loop body that returns: the six calls it has made, in
    order, and the row built from what they returned. *)
Lemma sample_row_run region state w r w' :
  sample_row region state w = (Ok r, w') ->
  row_drawn w (cursor w) region state r /\
  w' = called (Randint 0 30 (integers w (cursor w + 5)))
         (called (Now (clock w (cursor w + 4)))
            (called (Uniform 20 150 (reals w (cursor w + 3)))
               (called (Uniform 5 50 (reals w (cursor w + 2)))
                  (called (Uniform 20 95 (reals w (cursor w + 1)))
                     (called (Randint 500000 8000000 (integers w (cursor w))) w))))).
Proof.
  cbv beta iota zeta delta [sample_row bind randint uniform lift datetime_now ret].
  cbn [cursor integers reals clock called].
  replace (S (cursor w)) with (cursor w + 1)%nat by lia.
  replace (S (cursor w + 1)) with (cursor w + 2)%nat by lia.
  replace (S (cursor w + 2)) with (cursor w + 3)%nat by lia.
  replace (S (cursor w + 3)) with (cursor w + 4)%nat by lia.
  replace (S (cursor w + 4)) with (cursor w + 5)%nat by lia.
  destruct (float_of_int (integers w (cursor w))) as [pf|e] eqn:Hpf; [|done].
  destruct (int_of_float _) as [u|e] eqn:Hu; [|done].
  intros [= <- <-]. split; [|done]. unfold row_drawn.
  cbn [Region State Population Coverage_Percentage Connected_Users Avg_Speed_Mbps Latency_ms
       Last_Update].
  repeat split; try done. by exists pf.
Qed.

Lemma sample_row_advance region state w r w' :
  sample_row region state w = (Ok r, w') ->
  cursor w' = (cursor w + 6)%nat /\ same_oracles w w' /\ trace_extends w w'.
Proof.
  intros [_ ->]%sample_row_run. cbn [cursor called]. split; [lia|]. split; [done|].
  by eexists [_; _; _; _; _; _].
Qed.

Lemma row_drawn_oracles w w0 n region state r :
  same_oracles w w0 -> row_drawn w0 n region state r -> row_drawn w n region state r.
Proof. intros (Hi & Hr & Hc). unfold row_drawn. by rewrite Hi, Hr, Hc. Qed.

(** The pass of the loop that builds the row at index [i] of the data set. *)
Lemma generated_row_run (w w' : World) (df : DataFrame) :
  generate_sample_data w = (Ok df, w') ->
  cursor w' = (cursor w + 222)%nat /\ same_oracles w w' /\ length df = 37%nat /\
  forall i p, region_state_pairs !! i = Some p ->
    exists r wi wi', df !! i = Some r /\ sample_row p.1 p.2 wi = (Ok r, wi') /\
                     cursor wi = (cursor w + 6 * i)%nat /\ same_oracles w wi /\
                     trace_extends wi' w'.
Proof.
  rewrite generate_sample_data_flat. intros Hrun.
  destruct (for_each_runs (fun p => sample_row p.1 p.2) 6
              (fun p w0 r w1 => sample_row_advance p.1 p.2 w0 r w1)
              region_state_pairs w df w' Hrun) as (Hc & Ho & _ & Hlen & Hrows).
  rewrite region_state_pairs_length in Hc, Hlen. split; [lia|]. split; [done|]. split; [done|].
  exact Hrows.
Qed.

(** The sample random source lets the generator run to the end. *)
Lemma example_world_run :
  exists df, generate_sample_data example_world
             = (Ok df, (generate_sample_data example_world).2).
Proof.
  destruct (generate_sample_data example_world) as [[df|e] w'] eqn:Hrun; [by exists df|].
  exfalso. apply (f_equal (fun p => match p.1 with Ok _ => true | Raise _ => false end)) in Hrun.
  vm_compute in Hrun. discriminate.
Qed.

Lemma example_world_contract :
  contract_kept (generate_sample_data example_world).2 = true.
Proof. vm_compute. reflexivity. Qed.

(** X5: a run of [generate_sample_data] that returns has made 222 library
    calls, six for each of the 37 (region, state) pairs in the order of the
    table, and has left the random source as it was.  The row at index [i]
    holds what the calls [6 i] to [6 i + 5] returned: the population, the
    coverage, the speed, the latency, and the clock reading moved back by
    the days drawn; its connected users are the truncation of the product of
    its own population and coverage fraction. *)
Theorem generate_sample_data_draws (w w' : World) (df : DataFrame) :
  generate_sample_data w = (Ok df, w') ->
  cursor w' = (cursor w + 222)%nat /\ same_oracles w w' /\ length df = 37%nat /\
  forall i region state, region_state_pairs !! i = Some (region, state) ->
    exists r, df !! i = Some r /\ row_drawn w (cursor w + 6 * i) region state r.
Proof.
  intros Hrun. destruct (generated_row_run w w' df Hrun) as (Hc & Ho & Hlen & Hrows).
  split; [done|]. split; [done|]. split; [done|]. intros i region state Hi.
  destruct (Hrows i _ Hi) as (r & wi & wi' & Hr & Hrow & Hci & Hoi & _). cbn [fst snd] in Hrow.
  exists r. split; [done|]. apply (row_drawn_oracles w wi); [done|].
  rewrite <- Hci. by apply sample_row_run in Hrow as [? _].
Qed.

Lemma generate_sample_data_draws_witness :
  exists df w',
    generate_sample_data example_world = (Ok df, w') /\
    cursor w' = 222%nat /\ length df = 37%nat /\
    exists r, df !! 8%nat = Some r /\ row_drawn example_world 48 "North East" "Bauchi" r.
Proof.
  destruct example_world_run as [df Hrun].
  destruct (generate_sample_data_draws example_world _ df Hrun) as (Hc & _ & Hlen & Hrows).
  exists df, (generate_sample_data example_world).2.
  split; [exact Hrun|]. split; [exact Hc|]. split; [exact Hlen|].
  exact (Hrows 8%nat "North East" "Bauchi" eq_refl).
Defined.

Lemma generated_last_update (w w' : World) (df : DataFrame) (i : nat) (r : Row) :
  generate_sample_data w = (Ok df, w') -> contract_kept w' = true ->
  df !! i = Some r ->
  time_of_day (Last_Update r) = time_of_day (clock w (cursor w + 6 * i + 4)) /\
  ordinal (clock w (cursor w + 6 * i + 4)) - 29 <= ordinal (Last_Update r)
  <= ordinal (clock w (cursor w + 6 * i + 4)).
Proof.
  intros Hrun Hk Hr. destruct (generated_row_run w w' df Hrun) as (_ & _ & Hlen & Hrows).
  assert (i < length region_state_pairs)%nat as Hi.
  { rewrite region_state_pairs_length, <- Hlen. by apply lookup_lt_Some in Hr. }
  apply lookup_lt_is_Some in Hi as [p Hp].
  destruct (Hrows i p Hp) as (r' & wi & wi' & Hr' & Hrow & Hci & (Hoi & _ & Hoc) & Hti).
  rewrite Hr in Hr'. injection Hr' as <-.
  apply sample_row_run in Hrow as [(_ & _ & _ & _ & _ & _ & _ & Hlast) Hwi'].
  apply (contract_kept_earlier _ _ Hti) in Hk. rewrite Hwi', contract_kept_called in Hk.
  apply andb_prop in Hk as [Hdays _]. cbn [honours_contract] in Hdays.
  apply andb_prop in Hdays as [Hd1%Z.leb_le Hd2%Z.ltb_lt].
  rewrite Hoi, Hoc, Hci in *. rewrite Hlast. cbn [minus_days time_of_day ordinal].
  split; [done|]. lia.
Qed.

(** X6: in a generated data set the [Last_Update] of the row at index [i] is
    the clock reading of that row's pass moved back by 0 to 29 whole days:
    the time of day is the reading's, and the day is at most 29 days before
    the reading's and never after it. *)
Theorem last_update_window (w w' : World) (df : DataFrame) (i : nat) (r : Row) :
  generate_sample_data w = (Ok df, w') -> contract_kept w' = true ->
  df !! i = Some r ->
  time_of_day (Last_Update r) = time_of_day (clock w (cursor w + 6 * i + 4)) /\
  ordinal (clock w (cursor w + 6 * i + 4)) - 29 <= ordinal (Last_Update r)
  <= ordinal (clock w (cursor w + 6 * i + 4)).
Proof.
  exact (generated_last_update w w' df i r).
Qed.

Lemma last_update_window_witness :
  exists df w' r,
    generate_sample_data example_world = (Ok df, w') /\ contract_kept w' = true /\
    df !! 8%nat = Some r /\
    time_of_day (Last_Update r) = time_of_day (clock example_world 52) /\
    ordinal (clock example_world 52) - 29 <= ordinal (Last_Update r)
    <= ordinal (clock example_world 52).
Proof.
  destruct example_world_run as [df Hrun].
  pose proof example_world_contract as Hk.
  assert (is_Some (df !! 8%nat)) as [r Hr].
  { apply lookup_lt_is_Some. destruct (generated_row_run _ _ _ Hrun) as (_ & _ & -> & _). lia. }
  exists df, (generate_sample_data example_world).2, r.
  split; [exact Hrun|]. split; [exact Hk|]. split; [exact Hr|].
  exact (last_update_window example_world _ df 8 r Hrun Hk Hr).
Defined.

(** ** The region select box *)

Lemma unique_from_sublist (seen values : list string) :
  unique_from seen values `sublist_of` values.
Proof.
  revert seen. induction values as [|v values IH]; intros seen; cbn [unique_from]; [done|].
  destruct (decide (v ∈ seen)); [apply sublist_cons|apply sublist_skip]; apply IH.
Qed.

Lemma first_at_cons (p : nat) (x v : string) (values : list string) :
  x <> v -> first_at p x values -> first_at (S p) x (v :: values).
Proof.
  intros Hne [Hp Hbefore]. split; [done|]. intros [|k] Hk; cbn.
  - by intros [= ->].
  - apply Hbefore. lia.
Qed.

Lemma first_at_exists (x : string) (values : list string) :
  x ∈ values -> exists q, first_at q x values.
Proof.
  induction values as [|v values IH]; [by intros ?%elem_of_nil|].
  intros Hin. destruct (decide (x = v)) as [->|Hne].
  - exists 0%nat. split; [done|]. intros k Hk. lia.
  - apply elem_of_cons in Hin as [?|Hin]; [done|]. destruct (IH Hin) as [q Hq].
    exists (S q). by apply first_at_cons.
Qed.

(** The values kept come in the order of their first rows. *)
Lemma unique_from_order (seen values : list string) (i j : nat) (x y : string) :
  unique_from seen values !! i = Some x -> unique_from seen values !! j = Some y ->
  (i < j)%nat ->
  exists p q, (p < q)%nat /\ first_at p x values /\ first_at q y values.
Proof.
  revert seen i j. induction values as [|v values IH]; intros seen i j; cbn [unique_from];
    [done|].
  destruct (decide (v ∈ seen)) as [Hin|Hout].
  - intros Hx Hy Hij. destruct (IH seen i j Hx Hy Hij) as (p & q & Hpq & Hp & Hq).
    apply list_elem_of_lookup_2, (unique_from_spec seen values) in Hx as [_ Hx'].
    apply list_elem_of_lookup_2, (unique_from_spec seen values) in Hy as [_ Hy'].
    exists (S p), (S q). split; [lia|].
    split; apply first_at_cons; try done; by intros ->.
  - intros Hx Hy Hij. destruct j as [|j]; [lia|]. cbn in Hy.
    pose proof Hy as Hy'.
    apply list_elem_of_lookup_2, (unique_from_spec (v :: seen) values) in Hy' as [Hyin Hyout].
    assert (y <> v) as Hyv by (intros ->; apply Hyout; by left).
    destruct i as [|i].
    + injection Hx as <-. destruct (first_at_exists y values Hyin) as [q Hq].
      exists 0%nat, (S q). split; [lia|]. split; [|by apply first_at_cons].
      split; [done|]. intros k Hk. lia.
    + cbn in Hx. pose proof Hx as Hx'.
      apply list_elem_of_lookup_2, (unique_from_spec (v :: seen) values) in Hx' as [_ Hxout].
      assert (x <> v) as Hxv by (intros ->; apply Hxout; by left).
      destruct (IH (v :: seen) i j Hx Hy ltac:(lia)) as (p & q & Hpq & Hp & Hq).
      exists (S p), (S q). split; [lia|]. split; by apply first_at_cons.
Qed.

(** X7: after "All Regions" the select box offers the regions of the data
    set, each once, in the order in which the rows first show them: of two
    options the one listed first is the one whose first row comes first.  A
    region is offered exactly when some row has it, and a selection that is
    not among the options leaves no row, whatever the threshold. *)
Theorem region_options_spec (df : DataFrame) :
  region_options df !! 0%nat = Some "All Regions" /\
  NoDup (tail (region_options df)) /\
  tail (region_options df) `sublist_of` map Region df /\
  (forall s, s ∈ region_options df <-> s = "All Regions" \/ exists r, r ∈ df /\ Region r = s) /\
  (forall s t, s ∉ region_options df -> filter_records df s t = []) /\
  (forall i j x y,
     tail (region_options df) !! i = Some x -> tail (region_options df) !! j = Some y ->
     (i < j)%nat ->
     exists p q, (p < q)%nat /\ first_at p x (map Region df) /\ first_at q y (map Region df)).
Proof.
  unfold region_options. cbn [tail]. destruct (unique_spec (map Region df)) as [Hnd Hm].
  split; [done|]. split; [done|]. split; [apply unique_from_sublist|].
  assert (forall s, s ∈ "All Regions" :: unique (map Region df)
                    <-> s = "All Regions" \/ exists r, r ∈ df /\ Region r = s) as Hopt.
  { intros s. rewrite elem_of_cons, Hm, list_elem_of_fmap.
    split; (intros [?|(r & ? & ?)]; [by left|right; by exists r]). }
  split; [exact Hopt|]. split.
  - intros s t Hs. rewrite Hopt in Hs.
    rewrite filter_records_unfold. apply filter_none, Forall_forall.
    intros r Hr [_ [->|Hreg]]; apply Hs; [by left|right; by exists r].
  - intros i j x y. apply unique_from_order.
Qed.

(** The regions and states of a generated data set are those of the table,
    whatever the random source returns. *)
Lemma generated_regions_states (w w' : World) (df : DataFrame) :
  generate_sample_data w = (Ok df, w') ->
  map (fun r => (Region r, State r)) df = region_state_pairs.
Proof.
  intros Hrun. destruct (generated_row_run w w' df Hrun) as (_ & _ & Hlen & Hrows).
  apply list_eq. intros i. etransitivity; [exact (lookup_map _ df i)|].
  destruct (region_state_pairs !! i) as [p|] eqn:Hp.
  - destruct (Hrows i p Hp) as (r & wi & wi' & -> & Hrow & _).
    apply sample_row_run in Hrow as [(Hreg & Hst & _) _]. cbn. rewrite Hreg, Hst. by destruct p.
  - apply lookup_ge_None in Hp. rewrite region_state_pairs_length, <- Hlen in Hp.
    apply lookup_ge_None in Hp. by rewrite Hp.
Qed.

Lemma generated_regions (w w' : World) (df : DataFrame) :
  generate_sample_data w = (Ok df, w') -> map Region df = map fst region_state_pairs.
Proof.
  intros Hrun. rewrite <- (generated_regions_states w w' df Hrun), map_map. done.
Qed.

Lemma generated_region_options_list (w w' : World) (df : DataFrame) :
  generate_sample_data w = (Ok df, w') ->
  region_options df
  = [ "All Regions"; "North Central"; "North East"; "North West"; "South East"; "South South";
      "South West" ] /\
  tail (region_options df) = map fst regions.
Proof.
  intros Hrun. unfold region_options. rewrite (generated_regions w w' df Hrun).
  split; vm_compute; reflexivity.
Qed.

(** X8: for every generated data set the select box has seven options:
    "All Regions" and the six regions in the order of the [regions]
    table. *)
Theorem generated_region_options (w w' : World) (df : DataFrame) :
  generate_sample_data w = (Ok df, w') ->
  region_options df
  = [ "All Regions"; "North Central"; "North East"; "North West"; "South East"; "South South";
      "South West" ] /\
  tail (region_options df) = map fst regions.
Proof.
  exact (generated_region_options_list w w' df).
Qed.

Lemma generated_region_options_witness :
  exists df w',
    generate_sample_data example_world = (Ok df, w') /\
    length (region_options df) = 7%nat /\
    tail (region_options df) = map fst regions.
Proof.
  destruct example_world_run as [df Hrun].
  destruct (generated_region_options example_world _ df Hrun) as [Hopt Htail].
  exists df, (generate_sample_data example_world).2.
  split; [exact Hrun|]. split; [by rewrite Hopt|exact Htail].
Defined.

(** ** Selections of a generated data set *)

Lemma float_of_Z_20 : float_of_Z 20 = 20%float.
Proof. vm_compute. reflexivity. Qed.

(** A threshold of at most 20 is met by every coverage from 20 upwards. *)
Lemma from_20_ge_low (t : Z) (cov : float) :
  0 <= t <= 20 -> (20 <=? cov)%float = true -> float_ge cov (float_of_Z t) = true.
Proof.
  intros Ht Hcov. unfold float_ge. eapply FloatOrder.leb_trans; [|exact Hcov].
  rewrite <- float_of_Z_20. apply SliderFacts.float_of_Z_monotone; lia.
Qed.

Lemma generated_filter_low (w w' : World) (df : DataFrame) (t : Z) :
  generate_sample_data w = (Ok df, w') -> contract_kept w' = true -> 0 <= t <= 20 ->
  filter_records df "All Regions" t = df.
Proof.
  intros Hrun Hk Ht. rewrite filter_records_unfold. apply filter_all.
  eapply Forall_impl; [exact (generated_rows w w' df Hrun Hk)|].
  intros r (_ & _ & Hlo & _). split; [by apply from_20_ge_low|by left].
Qed.

Lemma map_State_filter_region (k : string) (df : DataFrame) :
  map State (filter (fun r => Region r = k) df)
  = map snd (filter (fun p => p.1 = k) (map (fun r => (Region r, State r)) df)).
Proof.
  induction df as [|r df IH]; [done|]. cbn [map]. rewrite !filter_cons. cbn [fst].
  destruct (decide (Region r = k)); cbn [map snd]; by rewrite IH.
Qed.

(** X9: the coverage of a generated row is 20 or more, so a threshold of at
    most 20 hides nothing: "All Regions" shows the whole data set, and a
    region of the [regions] table shows the states the table lists for it,
    in the order of the table. *)
Theorem generated_region_selection (w w' : World) (df : DataFrame) (t : Z)
    (region : string) (states : list string) :
  generate_sample_data w = (Ok df, w') -> contract_kept w' = true ->
  0 <= t <= 20 -> (region, states) ∈ regions ->
  filter_records df "All Regions" t = df /\
  map State (filter_records df region t) = states /\
  Forall (fun r => Region r = region) (filter_records df region t).
Proof.
  intros Hrun Hk Ht Hreg. pose proof (generated_filter_low w w' df t Hrun Hk Ht) as Hall.
  split; [done|].
  assert (region <> "All Regions") as Hne.
  { intros ->. unfold regions in Hreg. rewrite !elem_of_cons, elem_of_nil in Hreg.
    destruct Hreg as [?|[?|[?|[?|[?|[?|?]]]]]]; done. }
  rewrite (filter_region_of_all df region t Hne), Hall. split.
  - rewrite map_State_filter_region, (generated_regions_states w w' df Hrun).
    unfold regions in Hreg. rewrite !elem_of_cons, elem_of_nil in Hreg.
    destruct Hreg as [[= -> ->]|[[= -> ->]|[[= -> ->]|[[= -> ->]|[[= -> ->]|[[= -> ->]|[]]]]]]];
      vm_compute; reflexivity.
  - apply Forall_forall. intros r Hr. by apply list_elem_of_filter in Hr as [? _].
Qed.

Lemma generated_region_selection_witness :
  exists df w',
    generate_sample_data example_world = (Ok df, w') /\ contract_kept w' = true /\
    0 <= 15 <= 20 /\
    map State (filter_records df "South East" 15) = ["Abia"; "Anambra"; "Ebonyi"; "Enugu"; "Imo"].
Proof.
  destruct example_world_run as [df Hrun].
  pose proof example_world_contract as Hk.
  assert (0 <= 15 <= 20) as Ht by lia.
  assert (("South East", ["Abia"; "Anambra"; "Ebonyi"; "Enugu"; "Imo"]) ∈ regions) as Hreg.
  { unfold regions. rewrite !elem_of_cons. do 3 right. by left. }
  exists df, (generate_sample_data example_world).2.
  split; [exact Hrun|]. split; [exact Hk|]. split; [exact Ht|].
  exact (proj1 (proj2 (generated_region_selection example_world _ df 15 _ _ Hrun Hk Ht Hreg))).
Defined.

(** ** The frames of the regional charts *)

Lemma groups_partition (df : DataFrame) : concat (map snd (groupby_Region df)) ≡ₚ df.
Proof.
  unfold groupby_Region. rewrite map_map. cbn [snd].
  destruct (group_keys_spec df) as [Hs Hm].
  apply concat_filter_keys; [by apply sorted_keys_NoDup|].
  apply Forall_forall. intros r Hr. apply Hm. by exists r.
Qed.

Lemma sumZ_lengths {A} (gs : list (list A)) :
  sumZ (map (fun g => Z.of_nat (length g)) gs) = Z.of_nat (length (concat gs)).
Proof.
  induction gs as [|g gs IH]; [done|]. cbn [map concat]. rewrite sumZ_cons, length_app, IH. lia.
Qed.

Lemma regional_avg_rows `{Runtime} (df : DataFrame) :
  map (fun s => (stats_Region s, stats_State s)) (regional_avg df)
  = map (fun k => (k, Z.of_nat (length (filter (fun r => Region r = k) df)))) (group_keys df).
Proof. unfold regional_avg, groupby_Region. rewrite !map_map. done. Qed.

(** X10: in the frame of the bar chart the regions come in ascending order
    without repetition, every region listed has at least one state, and the
    [State] counts add up to the number of rows of the filtered frame. *)
Theorem regional_avg_counts `{Runtime} (filtered_df : DataFrame) :
  StronglySorted String_as_OT.lt (map stats_Region (regional_avg filtered_df)) /\
  Forall (fun s => 1 <= stats_State s) (regional_avg filtered_df) /\
  sumZ (map stats_State (regional_avg filtered_df)) = Z.of_nat (length filtered_df).
Proof.
  destruct (group_keys_spec filtered_df) as [Hs Hm].
  assert (map stats_Region (regional_avg filtered_df) = group_keys filtered_df) as Hkeys.
  { unfold regional_avg, groupby_Region. rewrite !map_map. cbn. apply map_id. }
  assert (map stats_State (regional_avg filtered_df)
          = map (fun g => Z.of_nat (length g)) (map snd (groupby_Region filtered_df))) as Hcounts.
  { unfold regional_avg. rewrite !map_map. apply map_ext. by intros [k g]. }
  split; [by rewrite Hkeys|]. split.
  - unfold regional_avg, groupby_Region. rewrite map_map. apply Forall_map, Forall_forall.
    intros k Hk. cbn [stats_State]. apply Hm in Hk as (r & Hr & Hreg).
    assert (r ∈ filter (fun r0 => Region r0 = k) filtered_df) as Hin
      by (by apply list_elem_of_filter).
    destruct (filter _ filtered_df); [by apply elem_of_nil in Hin|]. cbn [length]. lia.
  - rewrite Hcounts, sumZ_lengths. f_equal. apply Permutation_length, groups_partition.
Qed.

Lemma insert_key_same (k : string) : insert_key k [k] = [k].
Proof.
  cbn [insert_key]. destruct (String_as_OT.compare_spec k k) as [_|Hlt|Hlt]; [done| |];
    by apply (irreflexivity String_as_OT.lt) in Hlt.
Qed.

Lemma group_keys_single (s : string) (df : DataFrame) :
  Forall (fun r => Region r = s) df ->
  group_keys df = match df with [] => [] | _ :: _ => [s] end.
Proof.
  unfold group_keys. induction 1 as [|r df Hr Hall IH]; [done|].
  cbn [map foldr]. rewrite IH, Hr. destruct df; [done|apply insert_key_same].
Qed.

(** X11: with a region selected, the frames of the two regional charts have
    one row, that of the selected region, with the number of rows of the
    filtered frame as its count and their connected users as its sum; they
    have no row when the filtered frame is empty. *)
Theorem regional_charts_one_region `{Runtime} (df : DataFrame) (selected_region : string)
    (coverage_threshold : Z) :
  selected_region <> "All Regions" ->
  let filtered_df := filter_records df selected_region coverage_threshold in
  map (fun s => (stats_Region s, stats_State s)) (regional_avg filtered_df)
  = match filtered_df with
    | [] => []
    | _ :: _ => [(selected_region, Z.of_nat (length filtered_df))]
    end /\
  regional_users filtered_df
  = match filtered_df with
    | [] => []
    | _ :: _ => [(selected_region, int64_sum (map Connected_Users filtered_df))]
    end.
Proof.
  intros Hne filtered_df.
  assert (Forall (fun r => Region r = selected_region) filtered_df) as Hall.
  { unfold filtered_df. rewrite (filter_region_of_all _ _ _ Hne).
    apply Forall_forall. intros r Hr. by apply list_elem_of_filter in Hr as [? _]. }
  pose proof (group_keys_single selected_region filtered_df Hall) as Hkeys.
  rewrite regional_avg_rows. unfold regional_users, groupby_Region. rewrite map_map, Hkeys.
  generalize dependent filtered_df. intros [|r rest] Hall _; [done|].
  cbn [map]. rewrite (filter_all _ _ Hall). done.
Qed.

Lemma regional_charts_one_region_witness :
  bool_decide ("South West" = "All Regions") = false /\
  @regional_users (filter_records example_df "South West" 45)
  = [("South West", 5500000)] /\
  map stats_State (@regional_avg example_runtime (filter_records example_df "South West" 45))
  = [2].
Proof.
  assert ("South West" <> "All Regions") as Hne by discriminate.
  destruct (@regional_charts_one_region example_runtime example_df "South West" 45 Hne)
    as [Havg Husers].
  split; [reflexivity|]. split.
  - etransitivity; [exact Husers|]. vm_compute. reflexivity.
  - apply (f_equal (map snd)) in Havg. rewrite map_map in Havg.
    etransitivity; [exact Havg|]. vm_compute. reflexivity.
Defined.

Lemma length_filter_column (k : string) (df : DataFrame) :
  length (filter (fun r => Region r = k) df) = length (filter (fun x => x = k) (map Region df)).
Proof.
  induction df as [|r df IH]; [done|]. cbn [map]. rewrite !filter_cons.
  destruct (decide (Region r = k)); cbn [length]; by rewrite IH.
Qed.

(** X12: while the threshold is at most 20 and "All Regions" is selected,
    the frame of the bar chart of a generated data set lists the six
    regions in alphabetical order with 7, 6, 7, 5, 6 and 6 states. *)
Theorem generated_regional_counts `{Runtime} (w w' : World) (df : DataFrame) (t : Z) :
  generate_sample_data w = (Ok df, w') -> contract_kept w' = true -> 0 <= t <= 20 ->
  map (fun s => (stats_Region s, stats_State s)) (regional_avg (filter_records df "All Regions" t))
  = [ ("North Central", 7); ("North East", 6); ("North West", 7); ("South East", 5);
      ("South South", 6); ("South West", 6) ].
Proof.
  intros Hrun Hk Ht. rewrite (generated_filter_low w w' df t Hrun Hk Ht), regional_avg_rows.
  unfold group_keys.
  rewrite (map_ext _ (fun k => (k, Z.of_nat (length (filter (fun x => x = k) (map Region df))))))
    by (intros k; by rewrite length_filter_column).
  rewrite (generated_regions w w' df Hrun). vm_compute. reflexivity.
Qed.

Lemma generated_regional_counts_witness :
  exists df w',
    generate_sample_data example_world = (Ok df, w') /\ contract_kept w' = true /\
    0 <= 0 <= 20 /\
    map stats_State (@regional_avg example_runtime (filter_records df "All Regions" 0))
    = [7; 6; 7; 5; 6; 6].
Proof.
  destruct example_world_run as [df Hrun].
  pose proof example_world_contract as Hk.
  assert (0 <= 0 <= 20) as Ht by lia.
  pose proof (@generated_regional_counts example_runtime example_world _ df 0 Hrun Hk Ht) as Hc.
  apply (f_equal (map snd)) in Hc. rewrite map_map in Hc.
  exists df, (generate_sample_data example_world).2.
  split; [exact Hrun|]. split; [exact Hk|]. split; [exact Ht|]. exact Hc.
Defined.

(** ** The coverage map and regions without a centroid *)

(** A pass of [Series.map] with a jitter lambda that meets a region without
    an entry: the rows before it have had their draw, the [KeyError] names
    the region, and no further call is made. *)
Lemma jitter_loop_missing (proj : coords -> float) (f : string -> M float) :
  (forall x w, f x w = match nigeria_coords !! x with
                       | Some c => (Ok (proj c + reals w (cursor w))%float,
                                    called (Uniform (-1) 1 (reals w (cursor w))) w)
                       | None => (Raise (KeyError x), w)
                       end) ->
  forall pre x post w,
    Forall (fun x => is_Some (nigeria_coords !! x)) pre -> nigeria_coords !! x = None ->
    for_each f (pre ++ x :: post) w
    = (Raise (KeyError x), after_uniforms (-1) 1 (length pre) w).
Proof.
  intros Hf pre x post w Hpre Hx. rewrite for_each_app.
  destruct (jitter_loop proj f Hf pre w Hpre) as (ys & -> & _).
  by rewrite for_each_cons, Hf, Hx.
Qed.

(** Either every row has a known region, or there is a first one that has
    not. *)
Lemma first_missing_region (l : list Row) :
  Forall (fun r => is_Some (nigeria_coords !! Region r)) l \/
  exists pre r post, l = pre ++ r :: post /\
                     Forall (fun r => is_Some (nigeria_coords !! Region r)) pre /\
                     nigeria_coords !! Region r = None.
Proof.
  induction l as [|r l [IH|(pre & r' & post & -> & Hpre & Hr')]].
  - by left.
  - destruct (nigeria_coords !! Region r) as [c|] eqn:Hr.
    + left. constructor; [by exists c|done].
    + right. by exists [], r, l.
  - destruct (nigeria_coords !! Region r) as [c|] eqn:Hr.
    + right. exists (r :: pre), r', post. split; [done|]. split; [|done].
      constructor; [by exists c|done].
    + right. by exists [], r, (pre ++ r' :: post).
Qed.

(** A run of the map code on a frame whose regions all have a centroid: the
    new frame, its two columns, and the draw behind each of their values. *)
Lemma coverage_map_columns (s : gmap ref Frame) (filtered_df : ref) (f : Frame) (w : World) :
  s !! filtered_df = Some f ->
  Forall (fun r => is_Some (nigeria_coords !! Region r)) (rows f) ->
  exists s' map_df lats lons,
    coverage_map filtered_df s w
    = (Ok (s', map_df),
       after_uniforms (-1) 1 (length (rows f)) (after_uniforms (-1) 1 (length (rows f)) w)) /\
    s !! map_df = None /\
    (forall r, r <> map_df -> s' !! r = s !! r) /\
    s' !! map_df
    = Some {| rows := rows f;
              assigned := set_column "lon" lons (set_column "lat" lats (assigned f)) |} /\
    forall i r, rows f !! i = Some r ->
      exists c, nigeria_coords !! Region r = Some c /\
                lats !! i = Some (lat c + reals w (cursor w + i))%float /\
                lons !! i = Some (lon c + reals w (cursor w + length (rows f) + i))%float.
Proof.
  intros Hf Hkeys. set (map_df := fresh (dom s)).
  assert (s !! map_df = None) as Hfresh by apply not_elem_of_dom, is_fresh.
  unfold coverage_map, copy, bind. fold map_df.
  assert (frame_at s filtered_df = f) as -> by (unfold frame_at; by rewrite Hf).
  assert (frame_at (<[map_df:=f]> s) map_df = f) as ->
    by (unfold frame_at; by rewrite lookup_insert_eq).
  assert (Forall (fun x => is_Some (nigeria_coords !! x)) (map Region (rows f))) as Hkeys'
    by (by apply Forall_map).
  destruct (jitter_loop lat jitter_lat jitter_lat_run (map Region (rows f)) w Hkeys')
    as (lats & -> & _ & Hlat).
  set (s2 := setitem map_df "lat" lats (<[map_df:=f]> s)).
  assert (s2 !! map_df = Some {| rows := rows f; assigned := set_column "lat" lats (assigned f) |})
    as Hs2 by (unfold s2, setitem; by rewrite lookup_alter_eq, lookup_insert_eq).
  assert (frame_at s2 map_df
          = {| rows := rows f; assigned := set_column "lat" lats (assigned f) |}) as ->
    by (unfold frame_at; by rewrite Hs2).
  cbn [rows]. rewrite length_map.
  destruct (jitter_loop lon jitter_lon jitter_lon_run (map Region (rows f))
              (after_uniforms (-1) 1 (length (rows f)) w) Hkeys') as (lons & -> & _ & Hlon).
  rewrite length_map. exists (setitem map_df "lon" lons s2), map_df, lats, lons.
  split; [done|]. split; [done|]. split; [|split].
  - intros r Hr. unfold setitem, s2, setitem. by rewrite !lookup_alter_ne, lookup_insert_ne.
  - unfold setitem at 1. by rewrite lookup_alter_eq, Hs2.
  - intros i r Hi.
    assert (map Region (rows f) !! i = Some (Region r)) as Hi'
      by (by rewrite list_lookup_fmap, Hi).
    destruct (Hlat i _ Hi') as (c & Hc & Hla). destruct (Hlon i _ Hi') as (c' & Hc' & Hlo).
    rewrite Hc in Hc'. injection Hc' as <-.
    destruct (after_uniforms_oracles (-1) 1 (length (rows f)) w) as [Hc1 Hr1].
    rewrite Hc1, Hr1 in Hlo. by exists c.
Qed.

Lemma coverage_map_run (s : gmap ref Frame) (filtered_df : ref) (f : Frame) (w : World) :
  s !! filtered_df = Some f ->
  Forall (fun r => is_Some (nigeria_coords !! Region r)) (rows f) ->
  exists s' map_df,
    coverage_map filtered_df s w
    = (Ok (s', map_df),
       after_uniforms (-1) 1 (length (rows f)) (after_uniforms (-1) 1 (length (rows f)) w)) /\
    s !! map_df = None /\
    (forall r, r <> map_df -> s' !! r = s !! r) /\
    rows (frame_at s' map_df) = rows f.
Proof.
  intros Hf Hkeys.
  destruct (coverage_map_columns s filtered_df f w Hf Hkeys)
    as (s' & map_df & lats & lons & Hrun & Hnew & Hold & Hframe & _).
  exists s', map_df. split; [done|]. split; [done|]. split; [done|].
  unfold frame_at. by rewrite Hframe.
Qed.

Lemma coverage_map_raise (s : gmap ref Frame) (filtered_df : ref) (f : Frame) (w : World)
    (pre post : list Row) (r : Row) :
  s !! filtered_df = Some f ->
  rows f = pre ++ r :: post ->
  Forall (fun r => is_Some (nigeria_coords !! Region r)) pre ->
  nigeria_coords !! Region r = None ->
  coverage_map filtered_df s w
  = (Raise (KeyError (Region r)), after_uniforms (-1) 1 (length pre) w).
Proof.
  intros Hf Hrows Hpre Hr. unfold coverage_map, copy, bind.
  assert (frame_at s filtered_df = f) as -> by (unfold frame_at; by rewrite Hf).
  assert (frame_at (<[fresh (dom s):=f]> s) (fresh (dom s)) = f) as ->
    by (unfold frame_at; by rewrite lookup_insert_eq).
  rewrite Hrows, map_app. cbn [map].
  rewrite (jitter_loop_missing lat jitter_lat jitter_lat_run (map Region pre) (Region r)
             (map Region post) w); [by rewrite length_map| |done].
  by apply Forall_map.
Qed.

(** X13: when a row of the filtered frame has a region without an entry in
    [nigeria_coords], the map code raises [KeyError] with the first such
    region as its key.  It does so in the pass for the [lat] column, after
    one jitter draw for each row before that one: no draw is made for the
    [lon] column. *)
Theorem coverage_map_missing_region (s : gmap ref Frame) (filtered_df : ref) (f : Frame)
    (w : World) (pre post : list Row) (r : Row) :
  s !! filtered_df = Some f ->
  rows f = pre ++ r :: post ->
  Forall (fun r => is_Some (nigeria_coords !! Region r)) pre ->
  nigeria_coords !! Region r = None ->
  (coverage_map filtered_df s w).1 = Raise (KeyError (Region r)) /\
  (coverage_map filtered_df s w).2 = after_uniforms (-1) 1 (length pre) w /\
  cursor (coverage_map filtered_df s w).2 = (cursor w + length pre)%nat.
Proof.
  intros Hf Hrows Hpre Hr. rewrite (coverage_map_raise s filtered_df f w pre post r Hf Hrows Hpre Hr).
  split; [done|]. split; [done|]. cbn [snd]. apply after_uniforms_oracles.
Qed.

Lemma coverage_map_missing_region_witness :
  stray_store !! 0%nat = Some {| rows := [lagos; abuja; oyo]; assigned := [] |} /\
  Forall (fun r => is_Some (nigeria_coords !! Region r)) [lagos] /\
  nigeria_coords !! Region abuja = None /\
  (coverage_map 0%nat stray_store jitter_world).1
  = Raise (KeyError "Federal Capital Territory") /\
  cursor (coverage_map 0%nat stray_store jitter_world).2 = 1%nat.
Proof.
  assert (stray_store !! 0%nat = Some {| rows := [lagos; abuja; oyo]; assigned := [] |}) as Hf
    by (vm_compute; reflexivity).
  assert (Forall (fun r => is_Some (nigeria_coords !! Region r)) [lagos]) as Hpre
    by (repeat constructor; eexists; vm_compute; reflexivity).
  assert (nigeria_coords !! Region abuja = None) as Hr by (vm_compute; reflexivity).
  destruct (coverage_map_missing_region stray_store 0%nat _ jitter_world [lagos] [oyo] abuja
              Hf eq_refl Hpre Hr) as (Hres & _ & Hcur).
  split; [exact Hf|]. split; [exact Hpre|]. split; [exact Hr|]. split; [exact Hres|exact Hcur].
Defined.

(** X14: whether the map code returns depends on the regions of the
    filtered frame alone, not on the random source: it returns exactly when
    every row has a region of [nigeria_coords]; it has then made two draws
    per row and nothing else, and the frame it returns has the rows of the
    filtered one. *)
Theorem coverage_map_returns_iff (s : gmap ref Frame) (filtered_df : ref) (f : Frame)
    (w : World) :
  s !! filtered_df = Some f ->
  ((exists res, (coverage_map filtered_df s w).1 = Ok res) <->
   Forall (fun r => is_Some (nigeria_coords !! Region r)) (rows f)) /\
  (Forall (fun r => is_Some (nigeria_coords !! Region r)) (rows f) ->
   exists s' map_df,
     (coverage_map filtered_df s w).1 = Ok (s', map_df) /\
     rows (frame_at s' map_df) = rows f /\
     (coverage_map filtered_df s w).2
     = after_uniforms (-1) 1 (length (rows f)) (after_uniforms (-1) 1 (length (rows f)) w) /\
     cursor (coverage_map filtered_df s w).2 = (cursor w + 2 * length (rows f))%nat).
Proof.
  intros Hf. split; [split|].
  - intros [res Hres]. destruct (first_missing_region (rows f))
      as [Hall|(pre & r & post & Hrows & Hpre & Hr)]; [done|].
    rewrite (coverage_map_raise s filtered_df f w pre post r Hf Hrows Hpre Hr) in Hres. done.
  - intros Hall. destruct (coverage_map_run s filtered_df f w Hf Hall) as (s' & m & -> & _).
    by eexists.
  - intros Hall.
    destruct (coverage_map_run s filtered_df f w Hf Hall) as (s' & m & -> & _ & _ & Hrows).
    exists s', m. split; [done|]. split; [done|]. split; [done|]. cbn [snd].
    destruct (after_uniforms_oracles (-1) 1 (length (rows f))
                (after_uniforms (-1) 1 (length (rows f)) w)) as [-> _].
    destruct (after_uniforms_oracles (-1) 1 (length (rows f)) w) as [-> _]. lia.
Qed.

Lemma coverage_map_returns_iff_witness :
  example_store !! 1%nat = Some {| rows := [lagos; oyo]; assigned := [] |} /\
  Forall (fun r => is_Some (nigeria_coords !! Region r)) [lagos; oyo] /\
  exists s' map_df,
    (coverage_map 1%nat example_store jitter_world).1 = Ok (s', map_df) /\
    rows (frame_at s' map_df) = [lagos; oyo] /\
    cursor (coverage_map 1%nat example_store jitter_world).2 = 4%nat.
Proof.
  assert (example_store !! 1%nat = Some {| rows := [lagos; oyo]; assigned := [] |}) as Hf
    by (vm_compute; reflexivity).
  assert (Forall (fun r => is_Some (nigeria_coords !! Region r)) [lagos; oyo]) as Hkeys
    by (repeat constructor; eexists; vm_compute; reflexivity).
  destruct (proj2 (coverage_map_returns_iff example_store 1%nat _ jitter_world Hf) Hkeys)
    as (s' & map_df & Hres & Hrows & _ & Hcur).
  split; [exact Hf|]. split; [exact Hkeys|]. exists s', map_df.
  split; [exact Hres|]. split; [exact Hrows|exact Hcur].
Defined.

(** ** The table, from top to bottom *)

Lemma descending_transitive :
  Relations_1.Transitive
    (fun a b : display_row => (d_Coverage_Percentage b <=? d_Coverage_Percentage a)%float = true).
Proof. intros a b c Hab Hbc. by eapply FloatOrder.leb_trans. Qed.

(** X15: on a filtered frame whose coverage values are all present, every
    row of the table has a coverage at least that of every row below it, and
    the first row of the table has the highest coverage of the frame. *)
Theorem raw_data_view_top (filtered_df : DataFrame) :
  Forall (fun r => is_nan (Coverage_Percentage r) = false) filtered_df ->
  StronglySorted (fun a b => (d_Coverage_Percentage b <=? d_Coverage_Percentage a)%float = true)
                 (raw_data_view filtered_df) /\
  match raw_data_view filtered_df with
  | [] => filtered_df = []
  | top :: _ =>
      Forall (fun r => (Coverage_Percentage r <=? d_Coverage_Percentage top)%float = true)
             filtered_df
  end.
Proof.
  intros Hall.
  pose proof (Sorted_StronglySorted descending_transitive
                (raw_data_view_descending filtered_df Hall)) as Hss.
  split; [done|].
  pose proof (sort_values_descending_perm d_Coverage_Percentage
                (map display_columns filtered_df)) as Hperm.
  fold (raw_data_view filtered_df) in Hperm.
  destruct (raw_data_view filtered_df) as [|top rest].
  - apply Permutation_nil_l in Hperm. by destruct filtered_df.
  - apply StronglySorted_inv in Hss as [_ Hrest]. apply Forall_forall. intros r Hr.
    assert (display_columns r ∈ top :: rest) as Hin.
    { rewrite Hperm. apply list_elem_of_fmap. by exists r. }
    apply elem_of_cons in Hin as [<-|Hin].
    + cbn [display_columns d_Coverage_Percentage]. apply FloatOrder.leb_refl.
      rewrite Forall_forall in Hall. by apply Hall.
    + rewrite Forall_forall in Hrest. apply Hrest in Hin. done.
Qed.

Lemma raw_data_view_top_witness :
  Forall (fun r => is_nan (Coverage_Percentage r) = false) example_df /\
  map d_State (raw_data_view example_df) = ["Lagos"; "Oyo"; "Kano"] /\
  StronglySorted (fun a b => (d_Coverage_Percentage b <=? d_Coverage_Percentage a)%float = true)
                 (raw_data_view example_df).
Proof.
  assert (Forall (fun r => is_nan (Coverage_Percentage r) = false) example_df) as Hall
    by (repeat constructor).
  split; [exact Hall|]. split; [vm_compute; reflexivity|].
  exact (proj1 (raw_data_view_top example_df Hall)).
Defined.

(** ** The date of the sidebar *)

Lemma datetime_leb_refl a : datetime_leb a a = true.
Proof.
  unfold datetime_leb. rewrite Z.eqb_refl, Z.leb_refl. by rewrite orb_true_r.
Qed.

Lemma datetime_leb_trans a b c :
  datetime_leb a b = true -> datetime_leb b c = true -> datetime_leb a c = true.
Proof.
  unfold datetime_leb. intros H1 H2.
  destruct (Z.ltb_spec (ordinal a) (ordinal b)), (Z.eqb_spec (ordinal a) (ordinal b)),
    (Z.leb_spec (time_of_day a) (time_of_day b)); try done;
  destruct (Z.ltb_spec (ordinal b) (ordinal c)), (Z.eqb_spec (ordinal b) (ordinal c)),
    (Z.leb_spec (time_of_day b) (time_of_day c)); try done;
  destruct (Z.ltb_spec (ordinal a) (ordinal c)), (Z.eqb_spec (ordinal a) (ordinal c)),
    (Z.leb_spec (time_of_day a) (time_of_day c)); try done; lia.
Qed.

Lemma datetime_leb_total a b : datetime_leb a b = false -> datetime_leb b a = true.
Proof.
  unfold datetime_leb.
  destruct (Z.ltb_spec (ordinal a) (ordinal b)), (Z.eqb_spec (ordinal a) (ordinal b)),
    (Z.leb_spec (time_of_day a) (time_of_day b)); try done;
  destruct (Z.ltb_spec (ordinal b) (ordinal a)), (Z.eqb_spec (ordinal b) (ordinal a)),
    (Z.leb_spec (time_of_day b) (time_of_day a)); try done; lia.
Qed.

Lemma running_max (values : list datetime) (t : datetime) :
  let m := fold_left (fun acc x => if datetime_leb acc x then x else acc) values t in
  m ∈ t :: values /\ datetime_leb t m = true /\
  Forall (fun x => datetime_leb x m = true) values.
Proof.
  revert t. induction values as [|v values IH]; intros t; cbn [fold_left].
  - split; [by left|]. split; [apply datetime_leb_refl|constructor].
  - destruct (datetime_leb t v) eqn:Htv.
    + destruct (IH v) as (Hin & Hle & Hall).
      split; [by right|]. split; [by eapply datetime_leb_trans|by constructor].
    + destruct (IH t) as (Hin & Hle & Hall). split.
      * apply elem_of_cons in Hin as [->|Hin]; [by left|by do 2 right].
      * split; [done|]. constructor; [|done].
        eapply datetime_leb_trans; [by apply datetime_leb_total|done].
Qed.

Lemma latest_update_max (df : DataFrame) (t : datetime) :
  latest_update df = Some t ->
  t ∈ map Last_Update df /\ Forall (fun r => datetime_leb (Last_Update r) t = true) df.
Proof.
  unfold latest_update, series_max. destruct df as [|r df]; [done|]. cbn [map]. intros [= <-].
  destruct (running_max (map Last_Update df) (Last_Update r)) as (Hin & Hle & Hall).
  split; [done|]. constructor; [done|]. by apply Forall_map in Hall.
Qed.

(** X16: the date shown in the sidebar is the [Last_Update] of a row of the
    data set and no row has a later one.  Only a frame that has the column
    but no row has no such date: the maximum is [NaT] and the formatting of
    the sidebar text raises [ValueError]. *)
Theorem latest_update_spec (df : DataFrame) :
  match latest_update df with
  | Some t =>
      t ∈ map Last_Update df /\
      Forall (fun r => datetime_leb (Last_Update r) t = true) df /\
      sidebar_info df = Ok ("🕒 " +:+ strftime_YmdHM t)
  | None => df = [] /\ sidebar_info df = Raise ValueError
  end.
Proof.
  unfold sidebar_info, latest_update, series_max. destruct df as [|r df]; [done|].
  cbn [map]. destruct (running_max (map Last_Update df) (Last_Update r)) as (Hin & Hle & Hall).
  split; [done|]. split; [|done]. constructor; [done|]. by apply Forall_map in Hall.
Qed.

(** ** The total of connected users *)

Lemma sumZ_le_map (f g : Row -> Z) (df : DataFrame) :
  Forall (fun r => f r <= g r) df -> sumZ (map f df) <= sumZ (map g df).
Proof. induction 1; [done|]. cbn [map]. rewrite !sumZ_cons. lia. Qed.

Lemma sumZ_bound (b : Z) (l : list Z) :
  Forall (fun x => x <= b) l -> sumZ l <= b * Z.of_nat (length l).
Proof. induction 1; [cbn; lia|]. rewrite sumZ_cons. cbn [length]. lia. Qed.

(** X17: for a generated data set and any selection, the total on the second
    card is the exact sum of the connected users of the selected rows, with
    no wrap-around; it lies between 0 and the total of the whole data set,
    which does not exceed the sum of the populations and stays below
    37 times 8,000,000. *)
Theorem generated_total_users (w w' : World) (df : DataFrame) (selected_region : string)
    (coverage_threshold : Z) :
  generate_sample_data w = (Ok df, w') -> contract_kept w' = true ->
  total_users (filter_records df selected_region coverage_threshold)
  = sumZ (map Connected_Users (filter_records df selected_region coverage_threshold)) /\
  0 <= total_users (filter_records df selected_region coverage_threshold) <= total_users df /\
  total_users df <= sumZ (map Population df) < 296000000.
Proof.
  intros Hrun Hk. pose proof (generated_rows w w' df Hrun Hk) as Hinv.
  assert (length df = 37%nat) as Hlen by (by destruct (generated_row_run w w' df Hrun) as (_ & _ & ? & _)).
  assert (Forall (fun r => 0 <= Connected_Users r) df) as Hpos.
  { eapply Forall_impl; [exact Hinv|]. intros r (_ & ? & _). lia. }
  assert (sumZ (map Connected_Users df) <= sumZ (map Population df)) as Hup.
  { apply sumZ_le_map. eapply Forall_impl; [exact Hinv|]. intros r (_ & ? & _). lia. }
  assert (sumZ (map Population df) <= 7999999 * 37) as Hpop.
  { pose proof (sumZ_bound 7999999 (map Population df)) as Hb.
    rewrite length_map, Hlen in Hb. apply Hb, Forall_map.
    eapply Forall_impl; [exact Hinv|]. intros r (? & _). cbn. lia. }
  pose proof (sumZ_filter_le (passes selected_region coverage_threshold) df Hpos) as Hsub.
  rewrite <- filter_records_unfold in Hsub.
  unfold total_users. rewrite !int64_sum_wrap, !wrap64_small by lia. lia.
Qed.

Lemma generated_total_users_witness :
  exists df w',
    generate_sample_data example_world = (Ok df, w') /\ contract_kept w' = true /\
    0 <= total_users (filter_records df "North West" 50) <= total_users df /\
    total_users df < 296000000.
Proof.
  destruct example_world_run as [df Hrun].
  pose proof example_world_contract as Hk.
  destruct (generated_total_users example_world _ df "North West" 50 Hrun Hk)
    as (_ & Hsel & Htot).
  exists df, (generate_sample_data example_world).2.
  split; [exact Hrun|]. split; [exact Hk|]. split; [exact Hsel|]. lia.
Defined.

(** ** The text of a time stamp *)

(** X18: for a date of the years 1000 to 9999 and a time of day within the
    day, the time stamp of the sidebar and of the footer has 16 characters:
    the year in four digits, the month, the day, the hour and the minute in
    two digits each, separated by two hyphens, a space and a colon; the
    footer is its fixed markup around that text.  The minute shown is the
    one the time of day falls in: seconds are cut off, not rounded. *)
Theorem strftime_YmdHM_format (t : datetime) :
  ORDINAL_1000 <= ordinal t <= MAXORDINAL -> 0 <= time_of_day t < 86400000000 ->
  exists yyyy mm dd HH MM,
    strftime_YmdHM t = yyyy +:+ "-" +:+ mm +:+ "-" +:+ dd +:+ " " +:+ HH +:+ ":" +:+ MM /\
    footer t
    = "<div style='text-align: center; color: #666;'>"
      +:+ "📡 NIGCOMSAT Broadband Monitoring System | "
      +:+ "Last Updated: "
      +:+ (yyyy +:+ "-" +:+ mm +:+ "-" +:+ dd +:+ " " +:+ HH +:+ ":" +:+ MM)
      +:+ "</div>" /\
    String.length (strftime_YmdHM t) = 16%nat /\
    String.length yyyy = 4%nat /\ String.length mm = 2%nat /\ String.length dd = 2%nat /\
    String.length HH = 2%nat /\ String.length MM = 2%nat /\
    all_digits (yyyy +:+ mm +:+ dd +:+ HH +:+ MM) = true /\
    Text.ord2ymd (ordinal t) = (decimal_value yyyy, decimal_value mm, decimal_value dd) /\
    0 <= decimal_value HH <= 23 /\ 0 <= decimal_value MM <= 59 /\
    (decimal_value HH * 60 + decimal_value MM) * 60000000 <= time_of_day t
    < (decimal_value HH * 60 + decimal_value MM + 1) * 60000000.
Proof.
  intros Hord Htod.
  assert (1 <= ordinal t <= MAXORDINAL) as Hvalid by (unfold ORDINAL_1000 in Hord; lia).
  pose proof (ord2ymd_ranges (ordinal t) Hvalid) as (Hy & Hm & Hd).
  pose proof (ord2ymd_year_1000 (ordinal t) Hord) as Hy4.
  unfold footer, strftime_YmdHM.
  destruct (Text.ord2ymd (ordinal t)) as [[y m] d]. cbn [fst snd] in *.
  rewrite (year_digits_four y Hy4).
  set (hour := time_of_day t / 3600000000). set (minute := time_of_day t / 60000000 mod 60).
  assert (0 <= hour <= 23) as Hh.
  { unfold hour. split; [apply Z.div_pos; lia|].
    assert (time_of_day t / 3600000000 < 24); [apply Z.div_lt_upper_bound; lia|lia]. }
  assert (0 <= minute <= 59) as Hmin.
  { unfold minute. pose proof (Z.mod_pos_bound (time_of_day t / 60000000) 60 ltac:(lia)). lia. }
  assert (hour * 60 + minute = time_of_day t / 60000000) as Hq.
  { unfold hour, minute. change 3600000000 with (60000000 * 60).
    rewrite <- Z.div_div by lia.
    pose proof (Z.div_mod (time_of_day t / 60000000) 60 ltac:(lia)). lia. }
  exists (Text.fixed_digits 4 y), (Text.fixed_digits 2 m), (Text.fixed_digits 2 d),
         (Text.fixed_digits 2 hour), (Text.fixed_digits 2 minute).
  destruct (fixed_digits_shape 4 y) as [Hy1 Hy2].
  destruct (fixed_digits_shape 2 m) as [Hm1 Hm2].
  destruct (fixed_digits_shape 2 d) as [Hd1 Hd2].
  destruct (fixed_digits_shape 2 hour) as [Hh1 Hh2].
  destruct (fixed_digits_shape 2 minute) as [Hn1 Hn2].
  rewrite !fixed_digits_value by (cbn; lia).
  split; [done|]. split; [done|]. split.
  { rewrite !string_length_app, Hy1, Hm1, Hd1, Hh1, Hn1. done. }
  split; [done|]. split; [done|]. split; [done|]. split; [done|]. split; [done|]. split.
  { rewrite !all_digits_app, Hy2, Hm2, Hd2, Hh2, Hn2. done. }
  split; [done|]. split; [done|]. split; [done|]. rewrite Hq.
  pose proof (Z.div_mod (time_of_day t) 60000000 ltac:(lia)).
  pose proof (Z.mod_pos_bound (time_of_day t) 60000000 ltac:(lia)). lia.
Qed.

Lemma strftime_YmdHM_format_witness :
  ORDINAL_1000 <= 738945 <= MAXORDINAL /\ 0 <= 49530123456 < 86400000000 /\
  strftime_YmdHM {| ordinal := 738945; time_of_day := 49530123456 |} = "2024-02-29 13:45" /\
  String.length (strftime_YmdHM {| ordinal := 738945; time_of_day := 49530123456 |}) = 16%nat.
Proof.
  assert (ORDINAL_1000 <= 738945 <= MAXORDINAL) as Hord
    by (unfold ORDINAL_1000, MAXORDINAL; lia).
  assert (0 <= 49530123456 < 86400000000) as Htod by lia.
  destruct (strftime_YmdHM_format {| ordinal := 738945; time_of_day := 49530123456 |} Hord Htod)
    as (yyyy & mm & dd & HH & MM & _ & _ & Hlen & _).
  split; [exact Hord|]. split; [exact Htod|]. split; [vm_compute; reflexivity|exact Hlen].
Defined.

Lemma sidebar_info_nonempty (df : DataFrame) :
  df <> [] ->
  exists t, latest_update df = Some t /\ sidebar_info df = Ok ("🕒 " +:+ strftime_YmdHM t).
Proof.
  intros Hne. unfold sidebar_info, latest_update, series_max. destruct df as [|r df]; [done|].
  cbn [map]. by eexists.
Qed.

(** ** The first view *)

Module FloatDiff.

Lemma finite_Prim2SF (x : float) :
  is_finite x = true ->
  match Prim2SF x with S754_zero _ | S754_finite _ _ _ => True | _ => False end.
Proof.
  unfold is_finite, is_infinity. intros Hf%negb_true_iff%orb_false_elim. destruct Hf as [Hn Hi].
  apply FloatFacts.is_nan_Prim2SF in Hn.
  rewrite FloatAxioms.eqb_spec, FloatAxioms.abs_spec in Hi.
  destruct (Prim2SF x) as [s|s| |s m e]; try done.
Qed.

(** A finite number minus itself is zero. *)
Lemma sub_self (x : float) : is_finite x = true -> (x - x)%float = 0%float.
Proof.
  intros Hf%finite_Prim2SF. rewrite <- (SF2Prim_Prim2SF (x - x)), FloatAxioms.sub_spec.
  destruct (Prim2SF x) as [s|s| |s m e]; try done.
  - destruct s; reflexivity.
  - unfold SF64sub, SFsub. cbv zeta. rewrite Z.sub_diag. reflexivity.
Qed.

End FloatDiff.

(** X20: on the first view of a generated data set, and as long as "All
    Regions" is selected and the threshold is at most 20, the filtered frame
    is the data set itself: the four cards are those of the whole data set,
    and the delta of each of the three means is zero wherever the mean is a
    finite number. *)
Theorem first_view_deltas `{Runtime} (w w' : World) (df : DataFrame) (t : Z) :
  generate_sample_data w = (Ok df, w') -> contract_kept w' = true ->
  min_value coverage_slider <= t <= 20 ->
  key_metrics df (filter_records df "All Regions" t) = key_metrics df df /\
  total_users (filter_records df "All Regions" t) = total_users df /\
  (is_finite (total_coverage df) = true ->
   coverage_delta df (filter_records df "All Regions" t) = 0%float) /\
  (is_finite (avg_speed df) = true ->
   speed_delta df (filter_records df "All Regions" t) = 0%float) /\
  (is_finite (avg_latency df) = true ->
   latency_delta df (filter_records df "All Regions" t) = 0%float).
Proof.
  cbn [min_value coverage_slider]. intros Hrun Hk Ht.
  rewrite (generated_filter_low w w' df t Hrun Hk Ht).
  split; [done|]. split; [done|].
  unfold coverage_delta, speed_delta, latency_delta, total_coverage, avg_speed, avg_latency.
  repeat split; apply FloatDiff.sub_self.
Qed.

Lemma first_view_deltas_witness :
  exists df w',
    generate_sample_data example_world = (Ok df, w') /\ contract_kept w' = true /\
    min_value coverage_slider <= start_value coverage_slider <= 20 /\
    @key_metrics example_runtime df (filter_records df "All Regions" (start_value coverage_slider))
    = @key_metrics example_runtime df df.
Proof.
  destruct example_world_run as [df Hrun]. pose proof example_world_contract as Hk.
  assert (min_value coverage_slider <= start_value coverage_slider <= 20) as Ht by (cbn; lia).
  exists df, (generate_sample_data example_world).2.
  split; [exact Hrun|]. split; [exact Hk|]. split; [exact Ht|].
  exact (proj1 (@first_view_deltas example_runtime example_world _ df _ Hrun Hk Ht)).
Defined.

(** ** The date of the data and the date of the page *)

Lemma datetime_leb_ordinal a b : datetime_leb a b = true -> ordinal a <= ordinal b.
Proof.
  unfold datetime_leb.
  destruct (Z.ltb_spec (ordinal a) (ordinal b)), (Z.eqb_spec (ordinal a) (ordinal b));
    try done; lia.
Qed.

(** X21: with a clock that does not run backwards, the date the sidebar
    shows for a generated data set is not later than any clock reading made
    after the last row was built, the readings for the export's file name
    and the footer among them, and its day is at most 29 days before the
    day of the first row's reading. *)
Theorem latest_update_generated (w w' : World) (df : DataFrame) :
  generate_sample_data w = (Ok df, w') -> contract_kept w' = true ->
  clock_nondecreasing w ->
  exists latest,
    latest_update df = Some latest /\
    (forall k, (cursor w + 220 <= k)%nat -> datetime_leb latest (clock w k) = true) /\
    ordinal (clock w (cursor w + 4)) - 29 <= ordinal latest.
Proof.
  intros Hrun Hk Hclock.
  destruct (generated_row_run w w' df Hrun) as (_ & _ & Hlen & _).
  destruct (sidebar_info_nonempty df ltac:(by destruct df)) as (latest & Hlatest & _).
  destruct (latest_update_max df latest Hlatest) as [Hin Hall].
  exists latest. split; [done|]. split.
  - intros k Hk'. apply list_elem_of_fmap in Hin as (r & -> & Hr).
    apply list_elem_of_lookup in Hr as [i Hi].
    assert (i < 37)%nat as Hlt by (rewrite <- Hlen; by apply lookup_lt_Some in Hi).
    destruct (generated_last_update w w' df i r Hrun Hk Hi) as [Htod Hord].
    apply (datetime_leb_trans _ (clock w (cursor w + 6 * i + 4))); [|apply Hclock; lia].
    unfold datetime_leb. rewrite Htod, Z.leb_refl, andb_true_r.
    destruct (Z.ltb_spec (ordinal (Last_Update r)) (ordinal (clock w (cursor w + 6 * i + 4))));
      [done|]. apply Z.eqb_eq. lia.
  - destruct df as [|r df]; [done|]. apply Forall_cons in Hall as [Hfirst _].
    apply datetime_leb_ordinal in Hfirst.
    destruct (generated_last_update w w' (r :: df) 0 r Hrun Hk eq_refl) as [_ Hord].
    rewrite Nat.mul_0_r, Nat.add_0_r in Hord. lia.
Qed.

Lemma latest_update_generated_witness :
  exists df w' latest,
    generate_sample_data example_world = (Ok df, w') /\ contract_kept w' = true /\
    latest_update df = Some latest /\
    datetime_leb latest (clock example_world 223) = true /\
    ordinal (clock example_world 4) - 29 <= ordinal latest.
Proof.
  destruct example_world_run as [df Hrun]. pose proof example_world_contract as Hk.
  assert (clock_nondecreasing example_world) as Hclock.
  { intros i j Hij. unfold datetime_leb. cbn [clock example_world ordinal time_of_day].
    rewrite Z.eqb_refl. apply orb_true_iff. right. apply Z.leb_le. lia. }
  destruct (latest_update_generated example_world _ df Hrun Hk Hclock)
    as (latest & Hlatest & Hlater & Hfirst).
  exists df, (generate_sample_data example_world).2, latest.
  split; [exact Hrun|]. split; [exact Hk|]. split; [exact Hlatest|].
  split; [apply Hlater; cbn; lia|exact Hfirst].
Defined.

(** ** Sums of binary64 values between representable bounds *)

Module FloatSum.
Import FloatFacts.

Lemma sval_ge_intro m e K E : - L <= e <= E -> K * 2 ^ (E - e) <= m -> sval K E <= sval m e.
Proof.
  intros He H. rewrite (sval_split K e E) by lia. unfold sval.
  pose proof (pow2_pos (e + L) ltac:(lia)). nia.
Qed.

Lemma sval_ge_inv m e K E : - L <= e <= E -> sval K E <= sval m e -> K * 2 ^ (E - e) <= m.
Proof.
  intros He H. rewrite (sval_split K e E) in H by lia. unfold sval in H.
  pose proof (pow2_pos (e + L) ltac:(lia)). nia.
Qed.

Lemma sval_mono m m' e : - L <= e -> m <= m' -> sval m e <= sval m' e.
Proof. intros He H. unfold sval. pose proof (pow2_pos (e + L) ltac:(lia)). nia. Qed.

(** The value does not change when the mantissa is shifted to a lower
    exponent. *)
Lemma sval_shift m e e' : - L <= e' <= e -> sval (m * 2 ^ (e - e')) e' = sval m e.
Proof.
  intros He. unfold sval. rewrite <- Z.mul_assoc, <- Z.pow_add_r by lia. do 2 f_equal. lia.
Qed.

Lemma Zdigits2_lower (m : Z) : 0 < m -> 2 ^ (Zdigits2 m - 1) <= m.
Proof. intros Hm. destruct m as [|p|p]; try lia. simpl. apply digits2_pos_bounds. Qed.

(** Cutting a mantissa down to the exponent of its format does not take the
    value below a representable number that it was not below. *)
Lemma floor_lower m e K E :
  0 <= m -> - L <= e -> - L <= E -> SpecFloat.emin prec emax <= E -> 0 < K < 2 ^ prec ->
  sval K E <= sval m e ->
  sval K E <= sval (m / 2 ^ (Z.max e (fexp prec emax (Zdigits2 m + e)) - e))
                   (Z.max e (fexp prec emax (Zdigits2 m + e))).
Proof.
  intros Hm He HE Hmin HK Hle.
  set (e' := Z.max e (fexp prec emax (Zdigits2 m + e))).
  destruct (Z.eq_dec e' e) as [->|Hne].
  { rewrite Z.sub_diag, Z.pow_0_r, Z.div_1_r. done. }
  assert (e < e') as Hlt by lia.
  assert (0 < m) as Hpos.
  { destruct (Z.eq_dec m 0) as [->|]; [|lia]. unfold sval in Hle.
    pose proof (pow2_pos (E + L) ltac:(lia)). nia. }
  pose proof (pow2_pos (e' - e) ltac:(lia)) as Hp.
  destruct (Z_le_gt_dec e' E) as [HeE|HeE].
  - apply sval_ge_intro; [lia|]. apply sval_ge_inv in Hle; [|lia].
    apply Z.div_le_lower_bound; [done|].
    replace (E - e) with ((e' - e) + (E - e')) in Hle by lia.
    rewrite Z.pow_add_r in Hle by lia. lia.
  - assert (e' = Zdigits2 m + e - prec) as He'.
    { unfold e', fexp in *. unfold fexp in HeE. lia. }
    pose proof (Zdigits2_lower m Hpos) as Hd.
    assert (2 ^ (prec - 1) <= m / 2 ^ (e' - e)) as Hq.
    { apply Z.div_le_lower_bound; [done|]. rewrite <- Z.pow_add_r by (unfold prec; lia).
      etransitivity; [|exact Hd]. apply Z.pow_le_mono_r; lia. }
    etransitivity; [|apply (sval_mono (2 ^ (prec - 1))); [lia|exact Hq]].
    unfold sval. rewrite <- Z.pow_add_r by (unfold prec; lia).
    pose proof (pow2_pos (E + L) ltac:(lia)).
    assert (2 ^ prec * 2 ^ (E + L) <= 2 ^ (prec - 1 + (e' + L))).
    { rewrite <- Z.pow_add_r by (unfold prec; lia). apply Z.pow_le_mono_r; lia. }
    nia.
Qed.

(** Rounding never crosses a representable bound [K * 2^E] that is not above
    the value being rounded. *)
Lemma binary_round_aux_lower s mx ex lx K E :
  0 <= mx -> - L <= ex -> - L <= E -> SpecFloat.emin prec emax <= E -> 0 < K < 2 ^ prec ->
  sval K E <= sval mx ex ->
  match binary_round_aux prec emax s mx ex lx with
  | S754_zero _ => False
  | S754_finite _ m e => sval K E <= sval (Z.pos m) e
  | _ => True
  end.
Proof.
  intros Hm He HE Hmin HK Hle. unfold binary_round_aux.
  pose proof (shr_fexp_spec mx ex lx Hm) as H1.
  pose proof (floor_lower mx ex K E Hm He HE Hmin HK Hle) as Hf1.
  destruct (shr_fexp prec emax mx ex lx) as [mrs1 e1]. destruct H1 as [He1 Hm1].
  rewrite <- He1, <- Hm1 in Hf1.
  pose proof (round_nearest_even_bounds (shr_m mrs1) (loc_of_shr_record mrs1)) as Hr.
  set (m1 := round_nearest_even (shr_m mrs1) (loc_of_shr_record mrs1)) in *.
  assert (0 <= shr_m mrs1) by (rewrite Hm1; now apply div_pow2_nonneg).
  assert (0 <= m1) as Hm1' by lia.
  assert (- L <= e1) as He1' by lia.
  assert (sval K E <= sval m1 e1) as Hle1.
  { etransitivity; [exact Hf1|]. apply sval_mono; lia. }
  pose proof (shr_fexp_spec m1 e1 loc_Exact Hm1') as H2.
  pose proof (floor_lower m1 e1 K E Hm1' He1' HE Hmin HK Hle1) as Hf2.
  destruct (shr_fexp prec emax m1 e1 loc_Exact) as [mrs2 e2]. destruct H2 as [He2 Hm2].
  rewrite <- He2, <- Hm2 in Hf2.
  assert (0 < sval K E) as Hpos.
  { unfold sval. pose proof (pow2_pos (E + L) ltac:(lia)). nia. }
  destruct (shr_m mrs2) as [|p|p]; [unfold sval in Hf2; lia| |done].
  destruct (e2 <=? emax - prec); done.
Qed.

(** The mantissa of a value in canonical form has at most 53 bits and, above
    the lowest exponent, exactly 53. *)
Lemma valid_mantissa s m e :
  valid_binary (S754_finite s m e) = true ->
  SpecFloat.emin prec emax <= e <= emax - prec /\ Z.pos m < 2 ^ prec /\
  (SpecFloat.emin prec emax < e -> 2 ^ (prec - 1) <= Z.pos m).
Proof.
  unfold valid_binary, bounded, canonical_mantissa. intros [Hc He%Z.leb_le]%andb_prop.
  apply Z.eqb_eq in Hc. pose proof (digits2_pos_bounds m) as [Hlo Hhi].
  unfold fexp, SpecFloat.emin, emax, prec in *.
  split; [lia|]. split.
  - eapply Z.lt_le_trans; [exact Hhi|]. apply Z.pow_le_mono_r; lia.
  - intros Hgt. etransitivity; [|exact Hlo]. apply Z.pow_le_mono_r; lia.
Qed.

(** On positive values in canonical form the order of the values is the
    order [<=?] computes. *)
Lemma SFleb_sval m1 e1 m2 e2 :
  valid_binary (S754_finite false m1 e1) = true ->
  valid_binary (S754_finite false m2 e2) = true ->
  sval (Z.pos m1) e1 <= sval (Z.pos m2) e2 ->
  SFleb (S754_finite false m1 e1) (S754_finite false m2 e2) = true.
Proof.
  intros (He1 & Hm1 & Hn1)%valid_mantissa (He2 & Hm2 & Hn2)%valid_mantissa Hle.
  unfold SpecFloat.emin, emax, prec in *.
  unfold SFleb, SFcompare. destruct (Z.compare_spec e1 e2) as [->|Hlt|Hgt]; [|done|].
  - change PosDef.Pos.compare_cont with Pos.compare_cont. rewrite Pos.compare_cont_spec.
    cbn [Pos.switch_Eq]. unfold sval in Hle.
    pose proof (pow2_pos (e2 + L) ltac:(unfold L; lia)).
    destruct (Pos.compare_spec m1 m2) as [?|?|Hgt]; try done.
    apply Pos2Z.pos_lt_pos in Hgt. nia.
  - exfalso. specialize (Hn1 ltac:(lia)). apply sval_ge_inv in Hle; [|unfold L; lia].
    pose proof (pow2_pos (e1 - e2 - 1) ltac:(lia)).
    replace (e1 - e2) with (1 + (e1 - e2 - 1)) in Hle by lia.
    rewrite Z.pow_add_r in Hle by lia. change (2 ^ 1) with 2 in Hle.
    change (2 ^ (53 - 1)) with 4503599627370496 in Hn1.
    change (2 ^ 53) with 9007199254740992 in Hm2. nia.
Qed.

Lemma Prim2SF_1 : Prim2SF 1 = S754_finite false 4503599627370496 (-52).
Proof. vm_compute. reflexivity. Qed.

Lemma Prim2SF_minus_1 : Prim2SF (-1) = S754_finite true 4503599627370496 (-52).
Proof. vm_compute. reflexivity. Qed.

(** A draw of [[-1, 1)]: zero, or a value of magnitude at most 1, and below
    1 if it is positive. *)
Lemma jitter_shape (j : float) :
  (-1 <=? j)%float = true -> (j <? 1)%float = true ->
  match Prim2SF j with
  | S754_zero _ => True
  | S754_finite s m e =>
      valid_binary (S754_finite s m e) = true /\
      sval (Z.pos m) e <= sval 1 0 /\ (s = false -> sval (Z.pos m) e < sval 1 0)
  | _ => False
  end.
Proof.
  rewrite FloatAxioms.leb_spec, FloatAxioms.ltb_spec, Prim2SF_1, Prim2SF_minus_1.
  pose proof (Prim2SF_valid j) as Hv.
  destruct (Prim2SF j) as [s|s| |s m e]; try done; try (destruct s; done).
  intros Hlo Hhi. split; [done|].
  apply valid_mantissa in Hv as (He & Hm & _). unfold SpecFloat.emin, emax, prec in *.
  change (2 ^ 53) with 9007199254740992 in Hm.
  assert (e < -52 -> sval (Z.pos m) e < sval 1 0) as Hsmall.
  { intros Hlt. apply sval_lt_intro; [unfold L; lia|].
    pose proof (pow2_pos (0 - e - 53) ltac:(lia)).
    replace (0 - e) with (53 + (0 - e - 53)) by lia. rewrite Z.pow_add_r by lia.
    change (2 ^ 53) with 9007199254740992. nia. }
  unfold SFleb, SFltb, SFcompare in Hlo, Hhi.
  change PosDef.Pos.compare_cont with Pos.compare_cont in *.
  rewrite Pos.compare_cont_spec in Hlo, Hhi. cbn [Pos.switch_Eq] in *.
  destruct s.
  - split; [|done]. destruct (Z.compare_spec (-52) e) as [<-|Hlt|Hgt]; [|done|].
    + unfold sval. change (-52 + L) with 1148. change (0 + L) with (52 + 1148).
      rewrite Z.pow_add_r by lia. change (2 ^ 52) with 4503599627370496.
      pose proof (pow2_pos 1148 ltac:(lia)).
      destruct (Pos.compare_spec 4503599627370496 m) as [<-|Hlt|Hgt]; [lia|done|].
      apply Pos2Z.pos_lt_pos in Hgt. nia.
    + specialize (Hsmall ltac:(lia)). lia.
  - assert (sval (Z.pos m) e < sval 1 0) as Hlt; [|split; [lia|done]].
    destruct (Z.compare_spec e (-52)) as [->|Hlt|Hgt]; [| |done].
    + unfold sval. change (-52 + L) with 1148. change (0 + L) with (52 + 1148).
      rewrite Z.pow_add_r by lia. change (2 ^ 52) with 4503599627370496.
      pose proof (pow2_pos 1148 ltac:(lia)).
      destruct (Pos.compare_spec m 4503599627370496) as [?|Hlt|?]; [done| |done].
      apply Pos2Z.pos_lt_pos in Hlt. nia.
    + by apply Hsmall.
Qed.


Lemma sval_add m1 m2 e : sval (m1 + m2) e = sval m1 e + sval m2 e.
Proof. unfold sval. ring. Qed.

Lemma sval_sub m1 m2 e : sval (m1 - m2) e = sval m1 e - sval m2 e.
Proof. unfold sval. ring. Qed.

Lemma sval_one_pos : 0 < sval 1 0.
Proof. unfold sval. pose proof (pow2_pos (0 + L) ltac:(unfold L; lia)). lia. Qed.

(** The sum of a positive value and a value of magnitude at most 1 (below 1
    if positive), between representable numbers exactly one below and one
    above the first. *)
Lemma SFadd_between mc ec sj mj ej Klo Elo Khi Ehi :
  SpecFloat.emin prec emax <= ec <= Ehi ->
  valid_binary (S754_finite sj mj ej) = true ->
  sval (Z.pos mj) ej <= sval 1 0 -> (sj = false -> sval (Z.pos mj) ej < sval 1 0) ->
  0 < Klo < 2 ^ prec -> SpecFloat.emin prec emax <= Elo ->
  0 < Khi < 2 ^ prec -> SpecFloat.emin prec emax <= Ehi <= emax - prec ->
  sval Klo Elo + sval 1 0 = sval (Z.pos mc) ec ->
  sval (Z.pos mc) ec + sval 1 0 = sval Khi Ehi ->
  match SFadd prec emax (S754_finite false mc ec) (S754_finite sj mj ej) with
  | S754_finite s m e => s = false /\ sval Klo Elo <= sval (Z.pos m) e <= sval Khi Ehi
  | _ => False
  end.
Proof.
  intros Hec (Hej & _ & _)%valid_mantissa Hjle Hjlt HKlo HElo HKhi HEhi Hlo Hhi.
  assert (SpecFloat.emin prec emax = -1074) as Hmin by reflexivity.
  assert (emax - prec = 971) as Hmax by reflexivity.
  assert (L = 1200) as HL by reflexivity.
  cbn [SFadd]. change IntDef.Z.min with Z.min. set (ez := Z.min ec ej).
  pose proof (shl_align_spec mc ec ez) as Ha. destruct (shl_align mc ec ez) as [a ea].
  pose proof (shl_align_spec mj ej ez) as Hb. destruct (shl_align mj ej ez) as [b eb].
  destruct Ha as [Hea Ha], Hb as [Heb Hb]. cbn [fst].
  assert (ea = ez) as -> by lia. assert (eb = ez) as -> by lia.
  assert (sval (Z.pos a) ez = sval (Z.pos mc) ec) as Hva
    by (rewrite Ha; apply sval_shift; lia).
  assert (sval (Z.pos b) ez = sval (Z.pos mj) ej) as Hvb
    by (rewrite Hb; apply sval_shift; lia).
  pose proof sval_one_pos as Hone.
  assert (0 < sval Klo Elo) as Hlopos.
  { unfold sval. pose proof (pow2_pos (Elo + L) ltac:(lia)). nia. }
  match goal with |- context [binary_normalize _ _ ?X _ _] => set (M := X) end.
  assert (sval Klo Elo <= sval M ez < sval Khi Ehi) as HM.
  { unfold M. destruct sj; cbn [cond_Zopp].
    - change (Z.pos a + - Z.pos b) with (Z.pos a - Z.pos b). rewrite sval_sub, Hva, Hvb.
      assert (0 < sval (Z.pos mj) ej); [|lia].
      unfold sval. pose proof (pow2_pos (ej + L) ltac:(lia)). nia.
    - rewrite sval_add, Hva, Hvb. specialize (Hjlt eq_refl).
      assert (0 < sval (Z.pos mj) ej); [|lia].
      unfold sval. pose proof (pow2_pos (ej + L) ltac:(lia)). nia. }
  assert (0 < M) as HMpos.
  { destruct (Z_lt_le_dec 0 M) as [|Hneg]; [done|]. exfalso.
    assert (sval M ez <= 0); [|lia]. unfold sval.
    pose proof (pow2_pos (ez + L) ltac:(lia)). nia. }
  clearbody M. destruct M as [|p|p]; try lia. cbn [binary_normalize]. unfold binary_round.
  pose proof (shl_align_spec p ez (fexp prec emax (Z.pos (digits2_pos p) + ez))) as Hz.
  destruct (shl_align p ez _) as [mz ez2]. destruct Hz as [Hez2 Hmz].
  assert (-1074 <= ez2 <= ez) as Hez2'.
  { unfold fexp in Hez2. rewrite Hmin in Hez2. lia. }
  assert (sval (Z.pos mz) ez2 = sval (Z.pos p) ez) as Hvz
    by (rewrite Hmz; apply sval_shift; lia).
  rewrite <- Hvz in HM.
  pose proof (binary_round_aux_upper false (Z.pos mz) ez2 loc_Exact Khi Ehi
                ltac:(lia) ltac:(lia) ltac:(lia) HKhi ltac:(lia)) as Hup.
  pose proof (binary_round_aux_lower false (Z.pos mz) ez2 loc_Exact Klo Elo
                ltac:(lia) ltac:(lia) ltac:(lia) ltac:(lia) HKlo ltac:(lia)) as Hdn.
  destruct (binary_round_aux prec emax false (Z.pos mz) ez2 loc_Exact) as [s|s| |s m e];
    try done.
  all: cbv beta iota in Hup, Hdn; try done.
  destruct Hup as (-> & _ & Hup). split; [done|]. split; done.
Qed.

(** A draw of [[-1, 1)] added to a value stays within one of it. *)
Lemma add_between (c lo hi j : float) :
  one_around c lo hi = true ->
  (-1 <=? j)%float = true -> (j <? 1)%float = true ->
  (lo <=? c + j)%float = true /\ (c + j <=? hi)%float = true.
Proof.
  unfold one_around. intros Hc Hj1 Hj2. pose proof (jitter_shape j Hj1 Hj2) as Hj.
  pose proof (Prim2SF_valid c) as Hvc. pose proof (Prim2SF_valid lo) as Hvlo.
  pose proof (Prim2SF_valid hi) as Hvhi. pose proof (Prim2SF_valid (c + j)) as Hvs.
  rewrite !FloatAxioms.leb_spec. rewrite FloatAxioms.add_spec in *.
  destruct (Prim2SF c) as [| | |[] mc ec]; try done.
  destruct (Prim2SF lo) as [| | |[] mlo elo]; try done.
  destruct (Prim2SF hi) as [| | |[] mhi ehi]; try done.
  apply andb_prop in Hc as [[Hlo%Z.eqb_eq Hhi%Z.eqb_eq]%andb_prop He%Z.leb_le].
  pose proof sval_one_pos as Hone.
  destruct (Prim2SF j) as [sj|sj| |sj mj ej]; try done.
  - cbn [SF64add SFadd] in *. split; apply SFleb_sval; try done; lia.
  - destruct Hj as (Hvj & Hjle & Hjlt).
    pose proof (valid_mantissa _ _ _ Hvc) as (Hec & _ & _).
    pose proof (valid_mantissa _ _ _ Hvlo) as (Helo & Hmlo & _).
    pose proof (valid_mantissa _ _ _ Hvhi) as (Hehi & Hmhi & _).
    pose proof (SFadd_between mc ec sj mj ej (Z.pos mlo) elo (Z.pos mhi) ehi
                  ltac:(lia) Hvj Hjle Hjlt ltac:(lia) ltac:(lia) ltac:(lia) ltac:(lia)
                  Hlo Hhi) as Hsum.
    unfold SF64add in *.
    destruct (SFadd prec emax (S754_finite false mc ec) (S754_finite sj mj ej))
      as [| | |s m e]; try done.
    destruct Hsum as (-> & Hge & Hle). split; by apply SFleb_sval.
Qed.

End FloatSum.

(** ** Where the points of the map lie *)

Lemma centroids_in_box (x : string) (c : coords) :
  nigeria_coords !! x = Some c -> centroid_in_box c = true.
Proof.
  unfold nigeria_coords. intros Hx%elem_of_list_to_map_2.
  rewrite !elem_of_cons, elem_of_nil in Hx.
  destruct Hx as [[= _ ->]|[[= _ ->]|[[= _ ->]|[[= _ ->]|[[= _ ->]|[[= _ ->]|[]]]]]]];
    vm_compute; reflexivity.
Qed.

(** X22: with jitter draws in [[-1, 1)], every point of the map lies within
    one degree of the centroid of its region, in latitude and in longitude,
    after the rounding of the binary64 sum; all points lie between the
    parallels 4 and 13 and the meridians 3 and 13.5. *)
Theorem map_points_near_centroids (s : gmap ref Frame) (filtered_df : ref) (f : Frame)
    (w w' : World) (res : outcome (gmap ref Frame * ref)) :
  s !! filtered_df = Some f ->
  Forall (fun r => is_Some (nigeria_coords !! Region r)) (rows f) ->
  coverage_map filtered_df s w = (res, w') ->
  contract_kept w' = true ->
  exists s' map_df lats lons,
    res = Ok (s', map_df) /\
    assigned (frame_at s' map_df) = set_column "lon" lons (set_column "lat" lats (assigned f)) /\
    forall i r, rows f !! i = Some r ->
      exists c la lo,
        nigeria_coords !! Region r = Some c /\ lats !! i = Some la /\ lons !! i = Some lo /\
        (lat c - 1 <=? la)%float = true /\ (la <=? lat c + 1)%float = true /\
        (lon c - 1 <=? lo)%float = true /\ (lo <=? lon c + 1)%float = true /\
        (4 <=? la)%float = true /\ (la <=? 13)%float = true /\
        (3 <=? lo)%float = true /\ (lo <=? 13.5)%float = true.
Proof.
  intros Hf Hkeys Hrun Hk.
  destruct (coverage_map_columns s filtered_df f w Hf Hkeys)
    as (s' & map_df & lats & lons & Heq & _ & _ & Hframe & Hvalues).
  rewrite Heq in Hrun. injection Hrun as <- <-.
  set (n := length (rows f)) in *.
  destruct (after_uniforms_oracles (-1) 1 n w) as [Hc1 Hr1].
  apply after_uniforms_contract in Hk as [Hk1 Hj2].
  apply after_uniforms_contract in Hk1 as [_ Hj1].
  exists s', map_df, lats, lons. split; [done|]. split.
  { unfold frame_at. by rewrite Hframe. }
  intros i r Hi. destruct (Hvalues i r Hi) as (c & Hc & Hla & Hlo).
  assert (i < n)%nat as Hlt by (by apply lookup_lt_Some in Hi).
  destruct (Hj1 i Hlt) as [Hj1a Hj1b]. destruct (Hj2 i Hlt) as [Hj2a Hj2b].
  rewrite Hc1, Hr1 in Hj2a, Hj2b.
  pose proof (centroids_in_box _ c Hc) as Hbox. unfold centroid_in_box in Hbox.
  apply andb_prop in Hbox as [Hbox Hb6]. apply andb_prop in Hbox as [Hbox Hb5].
  apply andb_prop in Hbox as [Hbox Hb4]. apply andb_prop in Hbox as [Hbox Hb3].
  apply andb_prop in Hbox as [Hb1 Hb2].
  destruct (FloatSum.add_between _ _ _ _ Hb1 Hj1a Hj1b) as [Hla1 Hla2].
  destruct (FloatSum.add_between _ _ _ _ Hb2 Hj2a Hj2b) as [Hlo1 Hlo2].
  eexists c, _, _. split; [done|]. split; [exact Hla|]. split; [exact Hlo|].
  split; [done|]. split; [done|]. split; [done|]. split; [done|].
  split; [by eapply FloatOrder.leb_trans|]. split; [by eapply FloatOrder.leb_trans|].
  split; by eapply FloatOrder.leb_trans.
Qed.

Lemma map_points_near_centroids_witness :
  example_store !! 1%nat = Some {| rows := [lagos; oyo]; assigned := [] |} /\
  Forall (fun r => is_Some (nigeria_coords !! Region r)) [lagos; oyo] /\
  contract_kept (coverage_map 1%nat example_store jitter_world).2 = true /\
  exists s' map_df lats lons la lo,
    (coverage_map 1%nat example_store jitter_world).1 = Ok (s', map_df) /\
    assigned (frame_at s' map_df) = [("lat", lats); ("lon", lons)] /\
    lats !! 1%nat = Some la /\ lons !! 1%nat = Some lo /\
    (4 <=? la)%float = true /\ (la <=? 13)%float = true /\
    (3 <=? lo)%float = true /\ (lo <=? 13.5)%float = true.
Proof.
  assert (example_store !! 1%nat = Some {| rows := [lagos; oyo]; assigned := [] |}) as Hf
    by (vm_compute; reflexivity).
  assert (Forall (fun r => is_Some (nigeria_coords !! Region r)) [lagos; oyo]) as Hkeys
    by (repeat constructor; eexists; vm_compute; reflexivity).
  assert (contract_kept (coverage_map 1%nat example_store jitter_world).2 = true) as Hk
    by (vm_compute; reflexivity).
  destruct (map_points_near_centroids example_store 1%nat _ jitter_world _ _ Hf Hkeys
              (surjective_pairing _) Hk) as (s' & map_df & lats & lons & Hres & Hcols & Hrows).
  split; [exact Hf|]. split; [exact Hkeys|]. split; [exact Hk|].
  destruct (Hrows 1%nat oyo eq_refl)
    as (c & la & lo & _ & Hla & Hlo & _ & _ & _ & _ & Hbox).
  exists s', map_df, lats, lons, la, lo.
  split; [exact Hres|]. split; [exact Hcols|]. split; [exact Hla|]. split; [exact Hlo|].
  exact Hbox.
Defined.
